(** * gmuv: markdown link checker for GitHub repositories

    A shallow embedding of [main.go] (archive download, markdown
    extraction, link classification, link validation with the 429 retry,
    the per-repository report state and the goroutine hand-shake of
    [RunCLI]) and the properties of it that the specification states.

    Go strings are byte strings; they are modelled by [string], one
    [ascii] per byte.  Pointers that may be nil ([*string], [*[]MdFile],
    [*bool], [*os.File]) are options, and dereferencing [None] is a
    panic.  [strings.ToLower] reads its argument as UTF-8; the case
    table of Go's [unicode] package is a parameter of the world. *)

From Stdlib Require Import String Ascii List ZArith Lia Bool Arith.
From Stdlib Require Import DecimalString.
Import ListNotations.

Local Open Scope string_scope.

(** ** The Go library functions used by [main.go] *)

(** ** Go's [unicode/utf8] and [unicode] *)

Module GoUnicode.

(** A byte as a number, and [byte(b)]. *)
Definition byteOf (c : ascii) : Z := Z.of_N (N_of_ascii c).
Definition charOf (b : Z) : ascii := ascii_of_N (Z.to_N (b mod 256)).

Definition RuneError : Z := 65533.      (* U+FFFD *)
Definition RuneSelf : Z := 128.
Definition MaxRune : Z := 1114111.      (* U+10FFFF *)

(** [s[i]], read only where [i < len(s)]. *)
Definition byteAt (s : string) (i : nat) : Z :=
  match String.get i s with
  | Some c => byteOf c
  | None => 0%Z
  end.

(** [utf8.DecodeRuneInString]: the rune at the front of [s] and its width
    in bytes.  The first byte gives the size of the sequence and the
    range its second byte must lie in; a byte that starts no well-formed
    sequence decodes to [RuneError] with width 1. *)
Definition DecodeRuneInString (s : string) : Z * nat :=
  let n := String.length s in
  if (n <? 1)%nat then (RuneError, 0) else
  let s0 := byteAt s 0 in
  if (s0 <? RuneSelf)%Z then (s0, 1) else
  if ((s0 <? 194) || (244 <? s0))%Z%bool then (RuneError, 1) else
  let sz := if (s0 <? 224)%Z then 2 else if (s0 <? 240)%Z then 3 else 4 in
  let lo := if (s0 =? 224)%Z then 160%Z else if (s0 =? 240)%Z then 144%Z else 128%Z in
  let hi := if (s0 =? 237)%Z then 159%Z else if (s0 =? 244)%Z then 143%Z else 191%Z in
  if (n <? sz)%nat then (RuneError, 1) else
  let s1 := byteAt s 1 in
  if ((s1 <? lo) || (hi <? s1))%Z%bool then (RuneError, 1) else
  if (sz <=? 2)%nat then
    (Z.lor (Z.shiftl (Z.land s0 31) 6) (Z.land s1 63), 2)
  else
  let s2 := byteAt s 2 in
  if ((s2 <? 128) || (191 <? s2))%Z%bool then (RuneError, 1) else
  if (sz <=? 3)%nat then
    (Z.lor (Z.lor (Z.shiftl (Z.land s0 15) 12) (Z.shiftl (Z.land s1 63) 6))
           (Z.land s2 63), 3)
  else
  let s3 := byteAt s 3 in
  if ((s3 <? 128) || (191 <? s3))%Z%bool then (RuneError, 1) else
    (Z.lor (Z.lor (Z.lor (Z.shiftl (Z.land s0 7) 18) (Z.shiftl (Z.land s1 63) 12))
                  (Z.shiftl (Z.land s2 63) 6))
           (Z.land s3 63), 4).

(** A rune of three bytes. *)
Definition encoded3 (r : Z) : string :=
  String (charOf (Z.lor 224 (Z.shiftr r 12)))
    (String (charOf (Z.lor 128 (Z.land (Z.shiftr r 6) 63)))
       (String (charOf (Z.lor 128 (Z.land r 63))) EmptyString)).

(** [utf8.AppendRune] on an empty buffer, which is what
    [Builder.WriteRune] appends: a rune that is no code point is written
    as [RuneError]. *)
Definition AppendRune (r : Z) : string :=
  if ((0 <=? r) && (r <=? 127))%Z%bool then String (charOf r) EmptyString
  else if ((0 <=? r) && (r <=? 2047))%Z%bool then
    String (charOf (Z.lor 192 (Z.shiftr r 6)))
      (String (charOf (Z.lor 128 (Z.land r 63))) EmptyString)
  else if ((r <? 0) || (MaxRune <? r) || ((55296 <=? r) && (r <=? 57343)))%Z%bool then
    encoded3 RuneError
  else if (r <=? 65535)%Z then encoded3 r
  else
    String (charOf (Z.lor 240 (Z.shiftr r 18)))
      (String (charOf (Z.lor 128 (Z.land (Z.shiftr r 12) 63)))
         (String (charOf (Z.lor 128 (Z.land (Z.shiftr r 6) 63)))
            (String (charOf (Z.lor 128 (Z.land r 63))) EmptyString))).

(** [unicode.CaseRanges] as [unicode.ToLower] reads it: the lower case of
    a code point above ASCII.  The table belongs to Go's library, not to
    the repository, and is taken as a parameter; what is used of it is
    that no code point above ASCII has its lower case in ASCII, but
    U+0130, whose lower case is [i], and U+212A, whose lower case is
    [k]. *)
Record CaseTable : Type := mkCaseTable {
  lowerCase : Z -> Z;
  lowerCase_above_ascii :
    forall r, (128 <= r)%Z ->
              (128 <= lowerCase r)%Z \/ lowerCase r = 105%Z \/ lowerCase r = 107%Z
}.

(** [unicode.ToLower] *)
Definition ToLowerRune (table : CaseTable) (r : Z) : Z :=
  if (r <=? 127)%Z then
    if ((65 <=? r) && (r <=? 90))%Z%bool then (r + 32)%Z else r
  else lowerCase table r.

End GoUnicode.

Import GoUnicode.

(** ** Go's [strings], [strconv] and [path] *)

Module GoStrings.

(** [len(s)] *)
Definition len (s : string) : nat := String.length s.

(** [s[n:]] for [n <= len(s)]. *)
Fixpoint drop (n : nat) (s : string) : string :=
  match n, s with
  | O, _ => s
  | S n', String _ s' => drop n' s'
  | S _, EmptyString => EmptyString
  end.

(** [s[:n]] for [n <= len(s)]. *)
Fixpoint take (n : nat) (s : string) : string :=
  match n, s with
  | O, _ => EmptyString
  | S n', String c s' => String c (take n' s')
  | S _, EmptyString => EmptyString
  end.

(** [strings.HasPrefix(s, p)] *)
Definition HasPrefix (s p : string) : bool := String.prefix p s.

(** [strings.Index(s, sep)]: the byte offset of the first occurrence. *)
Fixpoint Index (s sep : string) : option nat :=
  if String.prefix sep s then Some O
  else match s with
       | EmptyString => None
       | String _ s' => option_map S (Index s' sep)
       end.

(** [strings.Contains(s, sep)] *)
Definition Contains (s sep : string) : bool :=
  match Index s sep with Some _ => true | None => false end.

(** [strings.Cut(s, sep)]: before, after, found. *)
Definition Cut (s sep : string) : string * string * bool :=
  match Index s sep with
  | Some i => (take i s, drop (i + len sep) s, true)
  | None => (s, EmptyString, false)
  end.

(** [strings.Map(mapping, s)]: the runes of [s] as [for _, c := range s]
    yields them, each replaced by its image, a rune with a negative
    image dropped and a byte that is no UTF-8 read as [RuneError].  (Go
    copies the bytes of a rune that is its own image; they are the bytes
    [AppendRune] writes, the decoder accepting only the shortest encoding
    of a code point.)  A rune takes at least one byte, so the budget [n]
    of [runes] is enough when it is the length of [s]. *)
Fixpoint runes (n : nat) (s : string) : list Z :=
  match n with
  | O => []
  | S n' =>
      match s with
      | EmptyString => []
      | _ =>
          let '(c, width) := DecodeRuneInString s in
          c :: runes n' (drop width s)
      end
  end.

Fixpoint writeRunes (mapping : Z -> Z) (cs : list Z) : string :=
  match cs with
  | [] => EmptyString
  | c :: cs' =>
      let r := mapping c in
      (if (0 <=? r)%Z then AppendRune r else EmptyString) ++ writeRunes mapping cs'
  end.

Definition Map (mapping : Z -> Z) (s : string) : string :=
  writeRunes mapping (runes (len s) s).

(** [strings.ToLower]: a string of ASCII bytes is lowered byte by byte
    (and returned as it is without an upper-case letter), any other
    string is mapped rune by rune with [unicode.ToLower]. *)
Fixpoint isASCII (s : string) : bool :=
  match s with
  | EmptyString => true
  | String c s' => ((byteOf c <? RuneSelf)%Z && isASCII s')%bool
  end.

Definition isUpper (c : ascii) : bool :=
  let n := nat_of_ascii c in ((65 <=? n)%nat && (n <=? 90)%nat)%bool.

Fixpoint hasUpper (s : string) : bool :=
  match s with
  | EmptyString => false
  | String c s' => (isUpper c || hasUpper s')%bool
  end.

Definition lower (c : ascii) : ascii :=
  if isUpper c then ascii_of_nat (nat_of_ascii c + 32) else c.

Fixpoint lowerBytes (s : string) : string :=
  match s with
  | EmptyString => EmptyString
  | String c s' => String (lower c) (lowerBytes s')
  end.

Definition ToLower (table : CaseTable) (s : string) : string :=
  if isASCII s then (if hasUpper s then lowerBytes s else s)
  else Map (ToLowerRune table) s.

(** [strings.Split(s, sep)] for a one-byte separator: never empty. *)
Fixpoint Split1 (s : string) (sep : ascii) : list string :=
  match s with
  | EmptyString => [EmptyString]
  | String c s' =>
      if Ascii.eqb c sep then EmptyString :: Split1 s' sep
      else match Split1 s' sep with
           | x :: xs => String c x :: xs
           | [] => [String c EmptyString]
           end
  end.

(** [strconv.Itoa] *)
Definition Itoa (z : Z) : string := NilZero.string_of_int (Z.to_int z).

(** [path.Base], which [zip.File.FileInfo().Name()] returns for the
    header name. *)
Fixpoint stripSlashes (r : string) : string :=
  match r with
  | String "/" r' => stripSlashes r'
  | _ => r
  end.

Fixpoint revStr (s acc : string) : string :=
  match s with
  | EmptyString => acc
  | String c s' => revStr s' (String c acc)
  end.

Fixpoint untilSlash (r : string) : string :=
  match r with
  | EmptyString => EmptyString
  | String c r' => if Ascii.eqb c "/" then EmptyString else String c (untilSlash r')
  end.

Definition Base (p : string) : string :=
  match p with
  | EmptyString => "."
  | _ =>
      let last := revStr (untilSlash (stripSlashes (revStr p ""))) "" in
      match last with
      | EmptyString => "/"
      | _ => last
      end
  end.

End GoStrings.

Import GoStrings.

(** ** Go's [regexp]

    The three patterns of [main.go] are compiled with [regexp.MustCompile]:
    Perl syntax, leftmost-first matching, ['.'] does not match a newline,
    a negated class does, and [^] holds at the beginning of the text only.
    A backtracking matcher that tries the alternatives in priority order
    finds the leftmost-first match.  The patterns name ASCII bytes only,
    so matching byte by byte finds the matches that Go finds rune by
    rune. *)

Module Regexp.

Inductive regex : Type :=
| Eps
| Bol                                   (* ^ *)
| Cls (p : ascii -> bool)               (* one byte of a class *)
| Seq (a b : regex)
| Alt (a b : regex)                     (* a|b, a first *)
| Star (greedy : bool) (a : regex).     (* a* and a*? *)

Definition Chr (c : ascii) : regex := Cls (Ascii.eqb c).
Definition Opt (a : regex) : regex := Alt a Eps.          (* a? *)
Definition Plus (a : regex) : regex := Seq a (Star true a). (* a+ *)

Fixpoint Lit (s : string) : regex :=
  match s with
  | EmptyString => Eps
  | String c s' => Seq (Chr c) (Lit s')
  end.

Definition orElse {A} (x y : option A) : option A :=
  match x with Some _ => x | None => y end.

(** The iterations of a star whose body is matched by [body]: [n] bounds
    their number, a greedy star tries one more iteration first, a lazy one
    tries to go on without. *)
Fixpoint star (body : string -> (string -> option string) -> option string)
         (greedy : bool) (k : string -> option string) (n : nat) (s : string)
         {struct n} : option string :=
  match n with
  | O => k s
  | S n' =>
      let again (_ : unit) :=
        body s (fun s' => if Nat.ltb (len s') (len s)
                          then star body greedy k n' s' else None) in
      if greedy then orElse (again tt) (k s) else orElse (k s) (again tt)
  end.

(** [rmatch total r s k]: match [r] at the front of [s], the rest of a
    text of [total] bytes, and hand what is left to [k]; the result is
    what is left after the whole match.  An iteration of a star consumes
    at least one byte, so [len s] iterations are enough. *)
Fixpoint rmatch (total : nat) (r : regex) (s : string)
         (k : string -> option string) {struct r} : option string :=
  match r with
  | Eps => k s
  | Bol => if Nat.eqb (len s) total then k s else None
  | Cls p =>
      match s with
      | String c s' => if p c then k s' else None
      | EmptyString => None
      end
  | Seq a b => rmatch total a s (fun s' => rmatch total b s' k)
  | Alt a b => orElse (rmatch total a s k) (rmatch total b s k)
  | Star greedy a => star (rmatch total a) greedy k (len s) s
  end.

(** The leftmost match in [s]: the matched bytes and what follows them. *)
Fixpoint find (total : nat) (r : regex) (s : string) : option (string * string) :=
  match rmatch total r s Some with
  | Some rest => Some (take (len s - len rest) s, rest)
  | None =>
      match s with
      | EmptyString => None
      | String _ s' => find total r s'
      end
  end.

(** [re.FindString(s)]: the text of the leftmost match, [""] without one. *)
Definition FindString (r : regex) (s : string) : string :=
  match find (len s) r s with
  | Some (m, _) => m
  | None => EmptyString
  end.

(** [re.FindAll(b, -1)]: the successive matches, each search starting
    where the last match ended.  (After an empty match Go moves one
    character forward, and it drops an empty match that touches the last
    match; the link pattern has no empty match.) *)
Fixpoint findAll (fuel total : nat) (r : regex) (s : string) (afterMatch : bool)
  : list string :=
  match fuel with
  | O => []
  | S fuel' =>
      match find total r s with
      | None => []
      | Some (m, rest) =>
          match m with
          | EmptyString =>
              (* an empty match: found at the search position or further *)
              let here := Nat.eqb (len rest) (len s) in
              let out := findAll fuel' total r (drop 1 rest) false in
              if (here && afterMatch)%bool then out else m :: out
          | _ => m :: findAll fuel' total r rest true
          end
      end
  end.

Definition FindAll (r : regex) (s : string) : list string :=
  findAll (S (len s)) (len s) r s false.

Definition isDigit (c : ascii) : bool :=
  let n := nat_of_ascii c in ((48 <=? n)%nat && (n <=? 57)%nat)%bool.
Definition isLower (c : ascii) : bool :=
  let n := nat_of_ascii c in ((97 <=? n)%nat && (n <=? 122)%nat)%bool.
(** [.] *)
Definition dot (c : ascii) : bool := negb (Ascii.eqb c "010").
(** [[\da-z\.-]] *)
Definition hostChar (c : ascii) : bool :=
  (isDigit c || isLower c || Ascii.eqb c "." || Ascii.eqb c "-")%bool.
(** [[a-z\.]] *)
Definition tldChar (c : ascii) : bool := (isLower c || Ascii.eqb c ".")%bool.
(** [[^\[\]]] *)
Definition notBracket (c : ascii) : bool :=
  negb (Ascii.eqb c "[" || Ascii.eqb c "]")%bool.

(** [(^\[(.*?)]\()] *)
Definition labelRe : regex :=
  Seq Bol (Seq (Chr "[") (Seq (Star false (Cls dot)) (Seq (Chr "]") (Chr "(")))).

(** [(^https?:\/\/)([\da-z\.-]+)\.([a-z\.]{2,6})\/?.*] *)
Definition httpRe : regex :=
  let t := Cls tldChar in
  Seq (Seq Bol (Seq (Lit "http") (Seq (Opt (Chr "s")) (Lit "://"))))
      (Seq (Plus (Cls hostChar))
           (Seq (Chr ".")
                (Seq (Seq t (Seq t (Opt (Seq t (Opt (Seq t (Opt (Seq t (Opt t)))))))))
                     (Seq (Opt (Chr "/")) (Star true (Cls dot)))))).

(** [\[[^\[\]]*?\]\(.*?\)|^\[*?\]\(.*?\)] *)
Definition linkRe : regex :=
  Alt (Seq (Chr "[") (Seq (Star false (Cls notBracket))
        (Seq (Chr "]") (Seq (Chr "(") (Seq (Star false (Cls dot)) (Chr ")"))))))
      (Seq Bol (Seq (Star false (Chr "["))
        (Seq (Chr "]") (Seq (Chr "(") (Seq (Star false (Cls dot)) (Chr ")")))))).

End Regexp.

Import Regexp.

(** ** The data model of [main.go] *)

(** [Repository]: the fields the checker reads.  [Name], [HTMLURL] and
    [DefaultBranch] are modelled by their pointees (the listing decodes
    them); [WebUrl] is nil until [CheckGitMdLinks] sets it. *)
Record Repository : Type := mkRepository {
  Name : string;
  HTMLURL : string;
  DefaultBranch : string;
  WebUrl : option string
}.

(** [MdLink]: the three pointers point to variables of one loop round and
    are never nil. *)
Record MdLink : Type := mkMdLink {
  Link : string;
  LinkState : string;       (* MdLink.State *)
  Succeed : bool
}.

Record MdFile : Type := mkMdFile {
  Path : string;
  LinkList : list MdLink
}.

(** [MdReport]: [MdFileList], [State] and [AllLinksOK] are pointers that
    [new(MdReport)] leaves nil; the three [Zip] fields are set once by
    [CheckGitMdLinks] before they are read. *)
Record MdReport : Type := mkMdReport {
  Repo : Repository;        (* MdReport.Repository *)
  MdFileList : option (list MdFile);
  ZipUrl : string;
  ZipName : string;
  ZipPath : string;
  State : option string;
  AllLinksOK : option bool
}.

Definition setState (md : MdReport) (s : option string) : MdReport :=
  mkMdReport (Repo md) (MdFileList md) (ZipUrl md) (ZipName md) (ZipPath md)
             s (AllLinksOK md).
Definition setAllLinksOK (md : MdReport) (b : option bool) : MdReport :=
  mkMdReport (Repo md) (MdFileList md) (ZipUrl md) (ZipName md) (ZipPath md)
             (State md) b.
Definition setMdFileList (md : MdReport) (l : option (list MdFile)) : MdReport :=
  mkMdReport (Repo md) l (ZipUrl md) (ZipName md) (ZipPath md)
             (State md) (AllLinksOK md).

(** ** The world the program runs in *)

(** [*http.Response]: the status and the body. *)
Record Response : Type := mkResponse {
  StatusCode : Z;
  Body : string
}.

(** What [http.Get] returns: a response or nil, an error or nil. *)
Record GetResult : Type := mkGetResult {
  res : option Response;
  err : option string
}.

(** An entry of the archive ([*zip.File]): the header name, whether
    [FileInfo().IsDir()] holds, the error of [Open] or of [ReadAll] if
    any, and the bytes. *)
Record zipFile : Type := mkZipFile {
  HeaderName : string;      (* f.FileHeader.Name *)
  IsDir : bool;
  openErr : option string;
  readErr : option string;
  content : string
}.

(** What the program does to the outside, in order. *)
Inductive event : Type :=
| EvLookupIP (host : string)
| EvGet (url : string)
| EvSleep (seconds : Z)
| EvMkdirAll (path : string)
| EvCreate (path : string)
| EvCopy (path body : string)           (* io.Copy(out, resp.Body) *)
| EvOpenReader (path : string)
| EvRemoveAll (path : string)
| EvPrintln (line : string).

(** The answers of the outside, and the case table of the Go library the
    program is built with.  The answer to a GET may depend on how many
    GETs were issued before it. *)
Record World : Type := mkWorld {
  execPath : string;                            (* the global [execPath] *)
  lookupIP : string -> bool;                    (* err == nil *)
  httpGet : nat -> string -> GetResult;
  mkdirAll : string -> option string;           (* the error, if any *)
  create : string -> option string;
  copy : string -> string -> option string;     (* destination, body *)
  openReader : string -> list zipFile + string; (* the entries or the error *)
  removeAll : string -> option string;
  caseRanges : CaseTable                        (* [unicode.CaseRanges] *)
}.

(** How a run ends: with a value, with a Go panic, blocked for ever on a
    [WaitGroup], or (in the model only) with the step budget of the 429
    retry used up. *)
Inductive outcome (A : Type) : Type :=
| Ret (a : A)
| Panic (why : string)
| Blocked
| OutOfFuel.
Arguments Ret {A} a.
Arguments Panic {A} why.
Arguments Blocked {A}.
Arguments OutOfFuel {A}.

(** A computation threads the events issued so far. *)
Definition M (A : Type) : Type := list event -> outcome (A * list event).

Definition ret {A} (a : A) : M A := fun t => Ret (a, t).
Definition bind {A B} (m : M A) (f : A -> M B) : M B :=
  fun t =>
    match m t with
    | Ret (a, t') => f a t'
    | Panic why => Panic why
    | Blocked => Blocked
    | OutOfFuel => OutOfFuel
    end.
Definition panic {A} (why : string) : M A := fun _ => Panic why.
Definition blocked {A} : M A := fun _ => Blocked.
Definition outOfFuel {A} : M A := fun _ => OutOfFuel.
Definition emit (e : event) : M unit := fun t => Ret (tt, (t ++ [e])%list).

Declare Scope go_scope.
Delimit Scope go_scope with go.
Notation "x <- m ;; k" := (bind m (fun x => k))
  (at level 61, m at next level, right associativity) : go_scope.
Notation "' pat <- m ;; k" := (bind m (fun x => let 'pat := x in k))
  (at level 61, pat pattern, m at next level, right associativity) : go_scope.
Notation "m ;;; k" := (bind m (fun _ => k))
  (at level 61, right associativity) : go_scope.
Local Open Scope go_scope.

Definition nilDeref : string := "invalid memory address or nil pointer dereference".

(** [*p] *)
Definition deref {A} (p : option A) : M A :=
  match p with
  | Some a => ret a
  | None => panic nilDeref
  end.

Definition isGet (e : event) : bool :=
  match e with EvGet _ => true | _ => false end.

(** The GETs issued so far. *)
Definition gets (t : list event) : nat := List.length (filter isGet t).

(** ** The program *)

Section Program.

Variable w : World.

Definition quote : string := String "034" EmptyString.
Definition newlineTab : string := String "010" (String "009" EmptyString).

(** [http.Get(url)].  The empty URL has no scheme: [net/http] refuses it
    before anything is sent; every other answer is the world's. *)
Definition noSchemeError : string :=
  "Get " ++ quote ++ quote ++ ": unsupported protocol scheme " ++ quote ++ quote.

Definition Get (url : string) : M GetResult :=
  fun t =>
    let r := if String.eqb url "" then mkGetResult None (Some noSchemeError)
             else httpGet w (gets t) url in
    Ret (r, (t ++ [EvGet url])%list).

(** [net.LookupIP(host)]: whether [err == nil]. *)
Definition LookupIP (host : string) : M bool :=
  emit (EvLookupIP host) ;;; ret (lookupIP w host).

(** [time.Sleep(n * time.Second)] *)
Definition Sleep (n : Z) : M unit := emit (EvSleep n).

(** [filepath.Join(a, b)] for two clean elements. *)
Definition Join (a b : string) : string :=
  if String.eqb a "" then b else if String.eqb b "" then a else a ++ "/" ++ b.

(** [getFileExtension] *)
Definition getFileExtension (s : string) : string :=
  let s := ToLower (caseRanges w) s in
  let ext := Split1 s "." in
  List.last ext EmptyString.

(** [getUrlWithDelay].  [defer res.Body.Close()] evaluates [res.Body] when
    the statement runs: a nil [res] panics there.  The recursion has no
    bound in the source; [fuel] bounds it in the model. *)
Fixpoint getUrlWithDelay (fuel : nat) (url : string) : M GetResult :=
  match fuel with
  | O => outOfFuel
  | S fuel' =>
      Sleep 60 ;;;
      r <- Get url ;;
      match res r with
      | None => panic nilDeref
      | Some resp =>
          if Z.eqb (StatusCode resp) 429 then getUrlWithDelay fuel' url
          else ret r
      end
  end.

(** Lines 141 and 143 of [checkMdLink]: the match without its last byte
    and without the ["[label]("] in front. *)
Definition linkTarget (l : string) : string :=
  let l := take (len l - 1) l in
  drop (len (FindString labelRe l)) l.

(** Lines 145 to 160: the URL to check for the target [l] in a file whose
    directory is [rpath]. *)
Definition resolveUrl (md : MdReport) (l rpath : string) : M string :=
  let url := FindString httpRe l in
  let '(fqdn, _, _) := Cut l "/" in
  if (negb (Contains l ":") && String.eqb url "")%bool then
    found <- LookupIP fqdn ;;
    if (found && negb (String.eqb (getFileExtension l) "md"))%bool then
      ret ("http://" ++ l)
    else
      if (negb (String.eqb l "") && String.eqb (take 1 l) "/")%bool then
        root <- deref (WebUrl (Repo md)) ;;
        ret (root ++ l)
      else
        root <- deref (WebUrl (Repo md)) ;;
        ret (root ++ rpath ++ l)
  else ret url.

(** Lines 161 to 182: the e-mail exit and the GET with its outcome. *)
Definition validate (fuel : nat) (l url : string) : M (string * bool) :=
  if HasPrefix l "mailto:" then
    ret ("[INF] " ++ url ++ " is not URL", true)
  else
    r <- Get url ;;
    match err r with
    | None =>
        first <- deref (res r) ;;
        final <- (if Z.eqb (StatusCode first) 429
                  then r' <- getUrlWithDelay fuel url ;; ret (res r')
                  else ret (res r)) ;;
        resp <- deref final ;;
        if Z.geb (StatusCode resp) 400 then
          ret ("[ERR] " ++ url ++ " response: " ++ Itoa (StatusCode resp), false)
        else
          ret ("[INF] " ++ url ++ " response: " ++ Itoa (StatusCode resp), true)
    | Some e => ret ("[ERR] Couldn't reach URL: " ++ e, false)
    end.

(** [checkMdLink].  [l[:len(l)-1]] panics on the empty string. *)
Definition checkMdLink (fuel : nat) (md : MdReport) (l rpath fpath : string)
  : M (string * bool) :=
  match l with
  | EmptyString => panic "slice bounds out of range [:-1]"
  | _ =>
      let l := linkTarget l in
      url <- resolveUrl md l rpath ;;
      validate fuel l url
  end.

(** The directory of an entry as lines 187 to 194 of [findAndCheckMdFile]
    compute it, and the path without the archive's top folder. *)
Definition fileFullPath (f : zipFile) : string :=
  let '(_, full, _) := Cut (HeaderName f) "/" in full.

Definition fileRelativePath (f : zipFile) : string :=
  let '(rel, _, _) := Cut (fileFullPath f) (Base (HeaderName f)) in
  if negb (String.eqb rel "") then "/" ++ rel ++ "/" else "/".

(** One round of the loop over the matches (lines 217 to 225). *)
Definition checkMatch (fuel : nat) (rpath fpath : string)
           (acc : MdReport * list MdLink) (url : string)
  : M (MdReport * list MdLink) :=
  let '(md, links) := acc in
  '(state, ok) <- checkMdLink fuel md url rpath fpath ;;
  if negb ok then
    deref (AllLinksOK md) ;;;
    ret (setAllLinksOK md (Some false),
         (links ++ [mkMdLink url state ok])%list)
  else ret (md, links).

Fixpoint foldM {A B} (f : A -> B -> M A) (l : list B) (a : A) : M A :=
  match l with
  | [] => ret a
  | b :: l' => a' <- f a b ;; foldM f l' a'
  end.

(** [findAndCheckMdFile] *)
Definition findAndCheckMdFile (fuel : nat) (md : MdReport) (f : zipFile)
  : M MdReport :=
  let full := fileFullPath f in
  let rel := fileRelativePath f in
  if negb (IsDir f) then
    let fileName := Base (HeaderName f) in
    let ext := getFileExtension fileName in
    if String.eqb (ToLower (caseRanges w) ext) "md" then
      match openErr f with
      | Some e =>
          old <- deref (State md) ;;
          ret (setState md (Some (old ++ " [ERR] Couldn't open " ++ fileName
                                      ++ " file: " ++ newlineTab ++ e)))
      | None =>
          match readErr f with
          | Some e =>
              old <- deref (State md) ;;
              ret (setState md (Some (old ++ " [ERR] Couldn't load " ++ fileName
                                          ++ ": " ++ newlineTab ++ e)))
          | None =>
              let matches := FindAll linkRe (content f) in
              '(md, links) <- foldM (checkMatch fuel rel full) matches (md, []) ;;
              if Nat.ltb 0 (List.length links) then
                match MdFileList md with
                | None => ret (setMdFileList md (Some [mkMdFile full links]))
                | Some files =>
                    ret (setMdFileList md (Some (files ++ [mkMdFile full links])%list))
                end
              else ret md
          end
      end
    else ret md
  else ret md.

(** [*md.State = s] *)
Definition storeState (md : MdReport) (s : string) : M MdReport :=
  deref (State md) ;;; ret (setState md (Some s)).

(** [checkMdFiles] *)
Definition checkMdFiles (fuel : nat) (md : MdReport) : M MdReport :=
  emit (EvPrintln (ZipName md)) ;;;
  let path := Join (ZipPath md) (ZipName md) in
  emit (EvOpenReader path) ;;;
  match openReader w path with
  | inr e =>
      storeState md ("[ERR] Couldn't open archive " ++ ZipName md ++ "."
                       ++ newlineTab ++ e)
  | inl files =>
      md <- foldM (findAndCheckMdFile fuel) files md ;;
      emit (EvRemoveAll (ZipPath md)) ;;;
      match removeAll w (ZipPath md) with
      | Some e =>
          storeState md ("[ERR] Couldn't cleanup " ++ ZipName md ++ "."
                           ++ newlineTab ++ e)
      | None => ret md
      end
  end.

(** [downloadGitArchive]: the report and the returned error (nil is
    [None]). *)
Definition downloadGitArchive (md : MdReport) : M (MdReport * option string) :=
  let fullpath := Join (ZipPath md) (ZipName md) in
  emit (EvMkdirAll (ZipPath md)) ;;;
  match mkdirAll w (ZipPath md) with
  | Some e =>
      md <- storeState md ("[ERR] Couldn't create " ++ ZipPath md ++ " path."
                             ++ newlineTab ++ e) ;;
      ret (md, Some e)
  | None =>
      emit (EvCreate fullpath) ;;;
      match create w fullpath with
      | Some e =>
          md <- storeState md ("[ERR] Couldn't create " ++ fullpath ++ " file."
                                 ++ newlineTab ++ e) ;;
          ret (md, Some e)
      | None =>
          r <- Get (ZipUrl md) ;;
          match err r with
          | Some e =>
              md <- storeState md ("[ERR] Couldn't download " ++ ZipUrl md
                                     ++ " file." ++ newlineTab ++ e) ;;
              ret (md, Some e)
          | None =>
              resp <- deref (res r) ;;
              emit (EvCopy fullpath (Body resp)) ;;;
              match copy w fullpath (Body resp) with
              | Some e =>
                  md <- storeState md ("[ERR] Couldn't store downloaded file."
                                         ++ newlineTab ++ e) ;;
                  ret (md, Some e)
              | None => ret (md, None)
              end
          end
      end
  end.

Definition noLinksMsg : string := "[INF] No markdown links were found.".
Definition noBrokenMsg : string := "[INF] No inactive/broken links were found.".

(** Lines 307 to 313 of [CheckGitMdLinks]. *)
Definition finalState (md : MdReport) : M MdReport :=
  match MdFileList md with
  | None => ret (setState md (Some noLinksMsg))
  | Some _ =>
      ok <- deref (AllLinksOK md) ;;
      if ok then ret (setState md (Some noBrokenMsg)) else ret md
  end.

(** [sync.WaitGroup]: the counter.  The parameter [wg sync.WaitGroup] of
    [CheckGitMdLinks] is a struct passed by value: the worker owns a copy
    of the counter as it was when the [go] statement ran. *)
Definition WaitGroup : Type := Z.

(** [wg.Add(delta)] *)
Definition wgAdd (wg : WaitGroup) (delta : Z) : M WaitGroup :=
  if Z.ltb (wg + delta) 0 then panic "sync: negative WaitGroup counter"
  else ret (wg + delta)%Z.

(** [wg.Done()] *)
Definition wgDone (wg : WaitGroup) : M WaitGroup := wgAdd wg (-1).

(** [wg.Wait()] on a counter nobody else can reach: it returns at zero and
    never otherwise. *)
Definition wgWait (wg : WaitGroup) : M unit :=
  if Z.eqb wg 0 then ret tt else blocked.

(** Lines 292 to 300 of [CheckGitMdLinks]: the fresh report of a
    repository, and the root its relative links are resolved against. *)
Definition repoUrl (r : Repository) : string :=
  HTMLURL r ++ "/blob/" ++ DefaultBranch r.

Definition initReport (r : Repository) : MdReport :=
  let downloadLink := HTMLURL r ++ "/archive/refs/heads/" ++ DefaultBranch r ++ ".zip" in
  let archiveName := Name r ++ ".zip" in
  let downloadPath := Join (execPath w) (Name r) in
  mkMdReport (mkRepository (Name r) (HTMLURL r) (DefaultBranch r) (Some (repoUrl r)))
             None downloadLink archiveName downloadPath None (Some true).

(** [CheckGitMdLinks]: the report sent on the channel. *)
Definition CheckGitMdLinks (fuel : nat) (r : Repository) (wg : WaitGroup)
  : M MdReport :=
  let md := initReport r in
  '(md, e) <- downloadGitArchive md ;;
  wg <- wgDone wg ;;
  md <- match e with
        | None => wgWait wg ;;; checkMdFiles fuel md
        | Some _ => ret md
        end ;;
  finalState md.

End Program.

(** ** Notions the properties are stated with *)

(** The byte [c] occurs in [s]. *)
Fixpoint occurs (c : ascii) (s : string) : Prop :=
  match s with
  | EmptyString => False
  | String d s' => d = c \/ occurs c s'
  end.

Definition suffixOf (s' s : string) : Prop := exists p, s = p ++ s'.

(** A label the label pattern runs over: no [']'] and no newline. *)
Fixpoint plainLabel (s : string) : Prop :=
  match s with
  | EmptyString => True
  | String c s' => c <> "]"%char /\ c <> "010"%char /\ plainLabel s'
  end.

(** The byte [c] occurs in [s], as a test. *)
Fixpoint hasByte (c : ascii) (s : string) : bool :=
  match s with
  | EmptyString => false
  | String d s' => (Ascii.eqb d c || hasByte c s')%bool
  end.

(** The trailing extension of a target: what follows its last ['.'], the
    target itself when it has none. *)
Fixpoint afterLastDot (l : string) : string :=
  match l with
  | EmptyString => EmptyString
  | String c l' =>
      if hasByte "." l' then afterLastDot l'
      else if Ascii.eqb c "." then l' else l
  end.

(** [ext] is [md] whatever the case of its two letters. *)
Definition isMd (ext : string) : bool :=
  existsb (String.eqb ext) ["md"; "Md"; "mD"; "MD"].

(** A byte above ASCII, and a string of such bytes. *)
Definition high (c : ascii) : Prop := (128 <= byteOf c)%Z.

Fixpoint allHigh (s : string) : Prop :=
  match s with
  | EmptyString => True
  | String c s' => high c /\ allHigh s'
  end.

(** [lowered s t]: [t] is [s] with every ASCII byte lowered and every
    run of bytes above ASCII replaced by bytes above ASCII, by [i] or by
    [k]. *)
Inductive lowered : string -> string -> Prop :=
| lowered_nil : lowered "" ""
| lowered_byte c s t :
    (byteOf c < 128)%Z -> lowered s t -> lowered (String c s) (String (lower c) t)
| lowered_rune u v s t :
    u <> "" -> allHigh u ->
    (allHigh v /\ v <> "") \/ v = "i" \/ v = "k" ->
    lowered s t -> lowered (u ++ s) (v ++ t).

(** The candidate host of a target: what [strings.Cut(l, "/")] returns
    first (line 148). *)
Definition candidateHost (l : string) : string := fst (fst (Cut l "/")).

(** The two path-relative resolutions of lines 154 to 158. *)
Definition pathRelative (root rpath l : string) : string :=
  if (negb (String.eqb l "") && String.eqb (take 1 l) "/")%bool
  then root ++ l else root ++ rpath ++ l.

(** The events of [n] rounds of [getUrlWithDelay]. *)
Fixpoint retries (n : nat) (url : string) : list event :=
  match n with
  | O => []
  | S n' => EvSleep 60 :: EvGet url :: retries n' url
  end.

(** Lines 173 to 178 of [checkMdLink]: the outcome for a status. *)
Definition outcomeOf (url : string) (status : Z) : string * bool :=
  if Z.geb status 400
  then ("[ERR] " ++ url ++ " response: " ++ Itoa status, false)
  else ("[INF] " ++ url ++ " response: " ++ Itoa status, true).

(** What holds of a report as long as nothing went wrong: the state is
    unset, and a file list exists only once a link has failed. *)
Definition reportInv (md : MdReport) : Prop :=
  State md = None /\ (MdFileList md = None \/ AllLinksOK md = Some false).

Definition loopInv (acc : MdReport * list MdLink) : Prop :=
  reportInv (fst acc) /\ (snd acc <> [] -> AllLinksOK (fst acc) = Some false).

(** ** Sample repositories and worlds *)

(** The two bytes of U+00C9 and of U+00E9, the capital and the small e
    with an acute accent. *)
Definition capitalEAcute : string := String "195" (String "137" EmptyString).
Definition smallEAcute : string := String "195" (String "169" EmptyString).

(** A case table: the letters of Latin-1, U+0130 and U+212A. *)
Definition latin1Lower (r : Z) : Z :=
  if ((192 <=? r) && (r <=? 222) && negb (r =? 215))%Z%bool then (r + 32)%Z
  else if (r =? 304)%Z then 105%Z
  else if (r =? 8490)%Z then 107%Z
  else r.

Definition latin1 : CaseTable.
Proof.
  refine (mkCaseTable latin1Lower _).
  intros r H. unfold latin1Lower.
  destruct ((192 <=? r) && (r <=? 222) && negb (r =? 215))%Z%bool; [left; lia|].
  destruct (Z.eqb_spec r 304); [right; left; reflexivity|].
  destruct (Z.eqb_spec r 8490); [right; right; reflexivity|].
  left. exact H.
Defined.

Definition sample : Repository :=
  mkRepository "r" "https://github.com/u/r" "main" None.

(** Every GET is answered 429 until [n] GETs were issued, 200 from then on. *)
Definition rateLimited (n : nat) : World :=
  mkWorld "" (fun _ => false)
          (fun i _ => mkGetResult
                        (Some (mkResponse (if Nat.ltb i n then 429 else 200) "")) None)
          (fun _ => None) (fun _ => None) (fun _ _ => None)
          (fun _ => inl []) (fun _ => None) latin1.

(** The first [n] GETs are answered 429, the ones after them are refused. *)
Definition droppedAfter (n : nat) : World :=
  mkWorld "" (fun _ => false)
          (fun i _ => if Nat.ltb i n
                      then mkGetResult (Some (mkResponse 429 "")) None
                      else mkGetResult None (Some "dial tcp: connection refused"))
          (fun _ => None) (fun _ => None) (fun _ _ => None)
          (fun _ => inl []) (fun _ => None) latin1.

(** Every GET is answered 404. *)
Definition notFound : World :=
  mkWorld "/w/.archives" (fun _ => false)
          (fun _ _ => mkGetResult (Some (mkResponse 404 "Not Found")) None)
          (fun _ => None) (fun _ => None) (fun _ _ => None)
          (fun _ => inl []) (fun _ => None) latin1.

(** No GET gets through. *)
Definition unreachable : World :=
  mkWorld "/w/.archives" (fun _ => false)
          (fun _ _ => mkGetResult None (Some "dial tcp: connection refused"))
          (fun _ => None) (fun _ => None) (fun _ _ => None)
          (fun _ => inl []) (fun _ => None) latin1.

(** Every GET is answered 200 and the archive holds [files]. *)
Definition answers200 (files : list zipFile) : World :=
  mkWorld "/w/.archives" (fun _ => false)
          (fun _ _ => mkGetResult (Some (mkResponse 200 "PK")) None)
          (fun _ => None) (fun _ => None) (fun _ _ => None)
          (fun _ => inl files) (fun _ => None) latin1.

Definition healthy : World :=
  answers200 [mkZipFile "r-main/README.md" false None None
                        "[site](https://example.com)"].

Definition unreadable : World :=
  answers200 [mkZipFile "r-main/README.md" false
                        (Some "zip: checksum error") None ""].

(** Only [example.com] resolves. *)
Definition oneDomain : World :=
  mkWorld "" (String.eqb "example.com") (fun _ _ => mkGetResult None None)
          (fun _ => None) (fun _ => None) (fun _ _ => None)
          (fun _ => inl []) (fun _ => None) latin1.

(** ** The workers of [RunCLI] *)

Module Fleet.

(** Where a worker stands in [CheckGitMdLinks]. *)
Inductive place : Type :=
| Downloading     (* line 301, in [downloadGitArchive] *)
| Arrived         (* line 302, before [wg.Done()] *)
| Waiting         (* line 304, in [wg.Wait()] *)
| Checking        (* line 305, in [checkMdFiles] *)
| Finishing       (* lines 307 to 314, before the send *)
| Delivered       (* the report is in the channel *)
| Panicked.

(** A worker and its own copy of the [WaitGroup]. *)
Record worker : Type := mkWorker {
  place_of : place;
  wg_of : WaitGroup
}.

(** The loop of [RunCLI] (lines 444 to 448) with [pending] repositories
    still to start, the [wg] of [RunCLI] and the workers started so far. *)
Record fleet : Type := mkFleet {
  mainWg : WaitGroup;
  pending : nat;
  workers : list worker
}.

Definition start (n : nat) : fleet := mkFleet 0%Z n [].

Definition alive (ws : list worker) : bool :=
  forallb (fun x => match place_of x with Panicked => false | _ => true end) ws.

(** One step of one worker.  A download that fails stores through the
    nil [md.State] and panics, so a worker arrives only after a download
    without error; [wg.Done()] and [wg.Wait()] act on the worker's own
    counter. *)
Inductive wstep : worker -> worker -> Prop :=
| DownloadOk c : wstep (mkWorker Downloading c) (mkWorker Arrived c)
| DownloadFails c : wstep (mkWorker Downloading c) (mkWorker Panicked c)
| Done c : (0 <= c - 1)%Z -> wstep (mkWorker Arrived c) (mkWorker Waiting (c - 1)%Z)
| DoneNegative c : (c - 1 < 0)%Z -> wstep (mkWorker Arrived c) (mkWorker Panicked c)
| WaitReturns : wstep (mkWorker Waiting 0%Z) (mkWorker Checking 0%Z)
| Checked c : wstep (mkWorker Checking c) (mkWorker Finishing c)
| CheckPanics c : wstep (mkWorker Checking c) (mkWorker Panicked c)
| Send c : wstep (mkWorker Finishing c) (mkWorker Delivered c).

(** One step of the program: [RunCLI] adds one to its [wg] and starts a
    worker on a copy of it, or a worker moves.  A panic ends the process. *)
Inductive step : fleet -> fleet -> Prop :=
| Spawn m n ws :
    alive ws = true ->
    step (mkFleet m (S n) ws)
         (mkFleet (m + 1)%Z n (ws ++ [mkWorker Downloading (m + 1)%Z]))
| Work m n ws1 a b ws2 :
    alive (ws1 ++ a :: ws2) = true ->
    wstep a b ->
    step (mkFleet m n (ws1 ++ a :: ws2)) (mkFleet m n (ws1 ++ b :: ws2)).

Inductive reach : fleet -> fleet -> Prop :=
| reach_refl s : reach s s
| reach_step s1 s2 s3 : reach s1 s2 -> step s2 s3 -> reach s1 s3.

(** What a worker's counter is, from its index. *)
Definition workerInv (i : nat) (x : worker) : Prop :=
  match place_of x with
  | Downloading | Arrived => wg_of x = (Z.of_nat i + 1)%Z
  | Waiting => wg_of x = Z.of_nat i
  | Checking | Finishing | Delivered => i = 0
  | Panicked => True
  end.

Definition fleetInv (s : fleet) : Prop :=
  mainWg s = Z.of_nat (List.length (workers s))
  /\ forall i x, nth_error (workers s) i = Some x -> workerInv i x.

End Fleet.

(** ** The report writer *)

(** The templates of lines 26 to 43, executed on their argument.
    [text/template] prints what a pointer points to and escapes nothing;
    the backslash of [linkMdStruct] is plain text. *)
Definition repoMdStruct (md : MdReport) : string :=
  String "010" "## [" ++ Name (Repo md) ++ "](" ++ HTMLURL (Repo md) ++ ")".

Definition repoCliStruct (md : MdReport) : string :=
  String "010" "## [" ++ Name (Repo md) ++ "](" ++ HTMLURL (Repo md) ++ ")".

Definition repoErrStruct (state : string) : string := " - " ++ state.

Definition fileHeadStruct (md : MdReport) : string :=
  String "010" "* " ++ HTMLURL (Repo md) ++ "/blob/" ++ DefaultBranch (Repo md) ++ "/".

Definition fileStruct (file : MdFile) : string :=
  Path file ++ String "010" (String "010" "| URL | State |")
            ++ String "010" "| --- | --- |" ++ String "010" "".

Definition linkMdStruct (link : MdLink) : string :=
  "| " ++ String "092" (Link link) ++ " | " ++ LinkState link ++ " |" ++ String "010" "".

Definition linkCliStruct (link : MdLink) : string :=
  "| " ++ Link link ++ " | " ++ LinkState link ++ " |" ++ String "010" "".

(** The loop over the links of a file (lines 109 to 113). *)
Fixpoint writeLinks (linkStruct : MdLink -> string) (links : list MdLink)
  : string :=
  match links with
  | [] => ""
  | link :: rest =>
      (if negb (Succeed link) then linkStruct link else "")
        ++ writeLinks linkStruct rest
  end.

(** The loop over the files (lines 102 to 115); [*md.AllLinksOK] is read
    in every round. *)
Fixpoint writeFiles (md : MdReport) (linkStruct : MdLink -> string)
         (files : list MdFile) : outcome string :=
  match files with
  | [] => Ret ""
  | file :: rest =>
      match AllLinksOK md with
      | None => Panic nilDeref
      | Some ok =>
          let here :=
            fileHeadStruct md
              ++ (if negb ok
                  then fileStruct file ++ writeLinks linkStruct (LinkList file)
                  else "") in
          match writeFiles md linkStruct rest with
          | Ret out => Ret (here ++ out)
          | Panic why => Panic why
          | Blocked => Blocked
          | OutOfFuel => OutOfFuel
          end
      end
  end.

(** [*os.File] as [generateReport] uses it: what [out.Stat()] returns,
    the [Name()] of the [FileInfo], or nil when [Stat] fails. *)
Record File : Type := mkFile {
  Stat : option string
}.

(** [os.Stdout] *)
Definition Stdout : File := mkFile (Some "stdout").

(** [generateReport]: what is written to [out].  [Stat] on a nil file
    returns a nil [FileInfo] and an error, which is dropped, so
    [outInfo.Name()] panics when [out] is nil or [Stat] fails.  The
    errors of [Execute] are dropped by the source too; writes are taken
    to succeed. *)
Definition generateReport (w : World) (md : MdReport) (out : option File)
  : outcome string :=
  let outInfo := match out with
                 | Some f => Stat f
                 | None => None
                 end in
  match outInfo with
  | None => Panic nilDeref
  | Some name =>
      let asMd := (negb (String.eqb name "stdout")
                   && String.eqb (getFileExtension w name) "md")%bool in
      let linkStruct := if asMd then linkMdStruct else linkCliStruct in
      let repoStruct := if asMd then repoMdStruct else repoCliStruct in
      match State md with
      | Some state => Ret (repoStruct md ++ repoErrStruct state)
      | None =>
          match MdFileList md with
          | None => Panic nilDeref
          | Some files =>
              if negb (Nat.eqb (List.length files) 0) then
                match writeFiles md linkStruct files with
                | Ret text => Ret (repoStruct md ++ text)
                | Panic why => Panic why
                | Blocked => Blocked
                | OutOfFuel => OutOfFuel
                end
              else Ret (repoStruct md)
          end
      end
  end.

(** ** The repository listing *)

(** The fields of [Repository] that only [GetPublicRepos] reads, beside
    the ones the checker reads; each is a pointer the decoder leaves nil
    when the key is absent. *)
Record Listed : Type := mkListed {
  listedRepo : Repository;
  Fork : option bool;
  Disabled : option bool;
  Archived : option bool;
  Size : option Z
}.

Section Listing.

Variable w : World.

(** [json.NewDecoder(resp.Body).Decode] into [[]*Repository] and into
    [*Repository]: the decoded value or the error.  A [null] decodes to a
    nil pointer. *)
Variable decodeList : string -> list (option Listed) + string.
Variable decodeOne : string -> option Listed + string.

(** The condition of line 336, left to right with the short cuts of [&&]. *)
Definition isActive (p : option Listed) : M bool :=
  r <- deref p ;;
  fork <- deref (Fork r) ;;
  if fork then ret false else
  disabled <- deref (Disabled r) ;;
  if disabled then ret false else
  archived <- deref (Archived r) ;;
  if archived then ret false else
  size <- deref (Size r) ;;
  ret (Z.gtb size 0).

(** One round of the loop of lines 335 to 339. *)
Definition keepActive (out : list (option Listed)) (p : option Listed)
  : M (list (option Listed)) :=
  active <- isActive p ;;
  if active then ret (out ++ [p])%list else ret out.

Definition listUrl (account : string) : string :=
  "https://api.github.com/users/" ++ account
    ++ "/repos?type=owner&per_page=100&type=public".

Definition repoApiUrl (account repo : string) : string :=
  "https://api.github.com/repos/" ++ account ++ "/" ++ repo.

(** [GetPublicRepos]: the repositories, or the message of the
    [log.Fatalln] that ended the process. *)
Definition GetPublicRepos (account repo : string)
  : M (list (option Listed) + string) :=
  if String.eqb repo "" then
    r <- Get w (listUrl account) ;;
    match err r with
    | Some e => ret (inr e)
    | None =>
        resp <- deref (res r) ;;
        match decodeList (Body resp) with
        | inr e => ret (inr e)
        | inl allRepos =>
            outRepos <- foldM keepActive allRepos [] ;;
            ret (inl outRepos)
        end
    end
  else
    r <- Get w (repoApiUrl account repo) ;;
    match err r with
    | Some e => ret (inr e)
    | None =>
        resp <- deref (res r) ;;
        match decodeOne (Body resp) with
        | inr e => ret (inr e)
        | inl singleRepo =>
            if Z.eqb (StatusCode resp) 200 then ret (inl [singleRepo])
            else ret (inl [])
        end
    end.

End Listing.

(** ** Notions for the properties of the rest of the code *)

(** Text the link pattern cannot start in: no bracket. *)
Fixpoint noBrackets (s : string) : Prop :=
  match s with
  | EmptyString => True
  | String c s' => c <> "["%char /\ c <> "]"%char /\ noBrackets s'
  end.

(** A target the link pattern runs over: no [')'] and no newline. *)
Fixpoint plainTarget (s : string) : Prop :=
  match s with
  | EmptyString => True
  | String c s' => c <> ")"%char /\ c <> "010"%char /\ plainTarget s'
  end.

(** A link as it is written. *)
Definition mdLink (label target : string) : string :=
  "[" ++ label ++ "](" ++ target ++ ")".

(** A document: pieces of text, each followed by a link, and a tail. *)
Fixpoint document (parts : list (string * string * string)) (tail : string) : string :=
  match parts with
  | [] => tail
  | (text, label, target) :: rest =>
      text ++ mdLink label target ++ document rest tail
  end.

Definition linkOf (part : string * string * string) : string :=
  let '(_, label, target) := part in mdLink label target.

Definition targetOf (part : string * string * string) : string :=
  let '(_, _, target) := part in target.

Definition plainPart (part : string * string * string) : Prop :=
  let '(text, label, target) := part in
  noBrackets text /\ noBrackets label /\ plainTarget target.

Definition labelOnOneLine (part : string * string * string) : Prop :=
  let '(_, label, _) := part in ~ occurs "010" label.

Definition filesOf (md : MdReport) : list MdFile :=
  match MdFileList md with Some files => files | None => [] end.

Definition failedLink (l : MdLink) : Prop :=
  Succeed l = false /\ HasPrefix (LinkState l) "[ERR] " = true.

Definition recorded (f : MdFile) : Prop :=
  LinkList f <> [] /\ Forall failedLink (LinkList f).

(** [md'] is [md] with file reports appended, and possibly another state;
    [AllLinksOK] has not gone back to true. *)
Definition extends (md md' : MdReport) : Prop :=
  Repo md' = Repo md /\ ZipUrl md' = ZipUrl md
  /\ ZipName md' = ZipName md /\ ZipPath md' = ZipPath md
  /\ (exists added, filesOf md' = (filesOf md ++ added)%list
                    /\ Forall recorded added
                    /\ (added <> [] -> AllLinksOK md' = Some false))
  /\ (AllLinksOK md' = AllLinksOK md \/ AllLinksOK md' = Some false).

(** The flag and the file list go together: all links are ok and there
    is no list, or a link failed and the list holds a file. *)
Definition tidy (md : MdReport) : Prop :=
  (AllLinksOK md = Some true /\ MdFileList md = None)
  \/ (AllLinksOK md = Some false
      /\ exists files, MdFileList md = Some files /\ files <> []).

(** What the loop over the matches of a file keeps. *)
Definition loopKeeps (md0 : MdReport) (acc : MdReport * list MdLink) : Prop :=
  ((fst acc = md0 /\ snd acc = [])
   \/ (fst acc = setAllLinksOK md0 (Some false) /\ snd acc <> []))
  /\ Forall failedLink (snd acc).

(** Every GET is answered 404 and the archive holds [files]. *)
Definition answers404 (files : list zipFile) : World :=
  mkWorld "/w/.archives" (fun _ => false)
          (fun _ _ => mkGetResult (Some (mkResponse 404 "Not Found")) None)
          (fun _ => None) (fun _ => None) (fun _ _ => None)
          (fun _ => inl files) (fun _ => None) latin1.

Definition deadLink : World :=
  answers404 [mkZipFile "r-main/README.md" false None None
                        "[old](http://dead.example/x)"].

(** The report of [sample] in the world [deadLink], before its state is
    set. *)
Definition deadReport : MdReport :=
  setMdFileList
    (setAllLinksOK (initReport deadLink sample) (Some false))
    (Some [mkMdFile "README.md"
                    [mkMdLink "[old](http://dead.example/x)"
                              "[ERR] http://dead.example/x response: 404" false]]).

(** A computation that, when it returns, has only appended events. *)
Definition appends {A} (m : M A) : Prop :=
  forall t a t', m t = Ret (a, t') -> exists mid, t' = (t ++ mid)%list.

(** The heading of a repository, the same in both layouts. *)
Definition heading (r : Repository) : string :=
  String "010" "## [" ++ Name r ++ "](" ++ HTMLURL r ++ ")".

(** A file report without the links that succeeded. *)
Definition failedOnly (f : MdFile) : MdFile :=
  mkMdFile (Path f) (filter (fun l => negb (Succeed l)) (LinkList f)).

(** A decoded repository with its four flags present. *)
Definition complete (p : option Listed) : Prop :=
  exists r fork disabled archived size,
    p = Some r /\ Fork r = Some fork /\ Disabled r = Some disabled
    /\ Archived r = Some archived /\ Size r = Some size.

(** Not a fork, not disabled, not archived and not empty. *)
Definition activeRepo (p : option Listed) : bool :=
  match p with
  | Some r =>
      match Fork r, Disabled r, Archived r, Size r with
      | Some false, Some false, Some false, Some size => Z.gtb size 0
      | _, _, _, _ => false
      end
  | None => false
  end.

(** A listing of two repositories, the second one a fork. *)
Definition twoListed : list (option Listed) :=
  [Some (mkListed sample (Some false) (Some false) (Some false) (Some 120%Z));
   Some (mkListed sample (Some true) (Some false) (Some false) (Some 8%Z))].

(** * Properties *)

(** ** The library functions on the strings the program meets *)

Example Cut_top_folder :
  Cut "repo-main/a/b.md" "/" = ("repo-main", "a/b.md", true).
Proof. reflexivity. Qed.

Example Cut_not_found : Cut "README.md" "/" = ("README.md", "", false).
Proof. reflexivity. Qed.

Example Base_of_file : Base "repo-main/a/b.md" = "b.md".
Proof. reflexivity. Qed.

Example Base_of_directory : Base "repo-main/a/" = "a".
Proof. reflexivity. Qed.

Example getFileExtension_upper w : getFileExtension w "docs/READ.ME.MD" = "md".
Proof. reflexivity. Qed.

Example getFileExtension_none w : getFileExtension w "example.com/page" = "com/page".
Proof. reflexivity. Qed.

Example getFileExtension_accents :
  getFileExtension healthy ("Caf" ++ capitalEAcute ++ "." ++ capitalEAcute ++ "T" ++ capitalEAcute)
  = smallEAcute ++ "t" ++ smallEAcute.
Proof. reflexivity. Qed.

Example ToLower_replaces_a_stray_byte :
  ToLower latin1 (String "255" "M") = String "239" (String "191" (String "189" "m")).
Proof. reflexivity. Qed.

Example ToLower_kelvin_sign :
  ToLower latin1 (String "226" (String "132" (String "170" "M"))) = "km".
Proof. reflexivity. Qed.

Example afterLastDot_of_a_path : afterLastDot "example.com/PAGE.Md" = "Md".
Proof. reflexivity. Qed.

(** The euro sign, U+20AC, is the three bytes E2 82 AC; a sequence cut
    short, an encoding longer than needed and a surrogate are no UTF-8. *)
Example DecodeRune_euro :
  DecodeRuneInString (String "226" (String "130" (String "172" "A"))) = (8364%Z, 3).
Proof. reflexivity. Qed.

Example DecodeRune_cut_short :
  DecodeRuneInString (String "226" (String "130" "")) = (RuneError, 1).
Proof. reflexivity. Qed.

Example DecodeRune_overlong :
  DecodeRuneInString (String "192" (String "128" "")) = (RuneError, 1).
Proof. reflexivity. Qed.

Example DecodeRune_surrogate :
  DecodeRuneInString (String "237" (String "160" (String "128" ""))) = (RuneError, 1).
Proof. reflexivity. Qed.

Example AppendRune_euro :
  AppendRune 8364 = String "226" (String "130" (String "172" "")).
Proof. reflexivity. Qed.

Example AppendRune_four_bytes :
  AppendRune 128512 = String "240" (String "159" (String "152" (String "128" ""))).
Proof. reflexivity. Qed.

Example AppendRune_surrogate : AppendRune 55296 = AppendRune RuneError.
Proof. reflexivity. Qed.

Example Itoa_status : Itoa 404 = "404".
Proof. reflexivity. Qed.

Example httpRe_matches : FindString httpRe "https://example.com/a?b=c" = "https://example.com/a?b=c".
Proof. reflexivity. Qed.

Example httpRe_needs_a_domain : FindString httpRe "http://localhost/x" = "".
Proof. reflexivity. Qed.

Example httpRe_is_anchored : FindString httpRe " http://example.com" = "".
Proof. reflexivity. Qed.

Example linkRe_finds_the_links :
  FindAll linkRe "see [site](https://example.com), [x](y.md)(z) and [[a]](b)"
  = ["[site](https://example.com)"; "[x](y.md)"].
Proof. reflexivity. Qed.

Example linkTarget_strips_the_label :
  linkTarget "[site](https://example.com)" = "https://example.com".
Proof. reflexivity. Qed.

Example fileRelativePath_top_level :
  fileRelativePath (mkZipFile "repo-main/README.md" false None None "") = "/".
Proof. reflexivity. Qed.

(** ** Running a computation *)

Lemma bind_Ret {A B} (m : M A) (f : A -> M B) t b t' :
  bind m f t = Ret (b, t') ->
  exists a t1, m t = Ret (a, t1) /\ f a t1 = Ret (b, t').
Proof.
  unfold bind. destruct (m t) as [[a t1]| | |]; try discriminate.
  intros H. now exists a, t1.
Qed.

Lemma ret_Ret {A} (a b : A) t t' : ret a t = Ret (b, t') -> a = b /\ t = t'.
Proof. unfold ret. intros H. inversion H. auto. Qed.

Lemma emit_Ret e t u t' : emit e t = Ret (u, t') -> t' = (t ++ [e])%list.
Proof. unfold emit. intros H. inversion H. auto. Qed.

Lemma deref_Ret {A} (p : option A) a t t' :
  deref p t = Ret (a, t') -> p = Some a /\ t = t'.
Proof. destruct p; cbv [deref ret panic]; intros H; inversion H; auto. Qed.

(** [step_in H]: [H] says a sequence returned; split off its first step. *)
Ltac step_in H :=
  let a := fresh "a" in
  let t := fresh "t" in
  let H1 := fresh "Hfirst" in
  apply bind_Ret in H as (a & t & H1 & H).

(** [skip_in H]: the same, forgetting what the first step was. *)
Ltac skip_in H :=
  let a := fresh "a" in
  let t := fresh "t" in
  apply bind_Ret in H as (a & t & _ & H).

(** ** Facts about strings *)

Lemma suffixOf_refl s : suffixOf s s.
Proof. exists EmptyString. reflexivity. Qed.

Lemma suffixOf_trans a b c : suffixOf a b -> suffixOf b c -> suffixOf a c.
Proof.
  intros [p ->] [q ->]. exists (q ++ p).
  induction q as [|x q IH]; simpl; [reflexivity | now rewrite IH].
Qed.

Lemma suffixOf_tail c s : suffixOf s (String c s).
Proof. exists (String c EmptyString). reflexivity. Qed.

Lemma occurs_suffixOf c s' s : suffixOf s' s -> occurs c s' -> occurs c s.
Proof.
  intros [p ->] H. induction p as [|x p IH]; simpl; auto.
Qed.

Lemma len_append a b : len (a ++ b) = len a + len b.
Proof. unfold len. induction a as [|x a IH]; simpl; [reflexivity | now rewrite IH]. Qed.

Lemma prefix_colon c s : String.prefix ":" (String c s) = Ascii.eqb c ":".
Proof.
  cbn [String.prefix]. destruct (ascii_dec ":" c) as [<-|n].
  - now destruct s.
  - symmetry. apply Ascii.eqb_neq. congruence.
Qed.

Lemma Contains_colon s : Contains s ":" = false -> ~ occurs ":" s.
Proof.
  unfold Contains. induction s as [|c s IH]; intros H; simpl; [tauto|].
  cbn [Index] in H. rewrite prefix_colon in H.
  destruct (Ascii.eqb c ":") eqn:E; [discriminate|].
  apply Ascii.eqb_neq in E.
  destruct (Index s ":") eqn:I; simpl in H; [discriminate|].
  intros [->|o]; [congruence | now apply IH].
Qed.

Lemma occurs_Contains_colon s : occurs ":" s -> Contains s ":" = true.
Proof.
  unfold Contains. induction s as [|c s IH]; [simpl; tauto|].
  intros o. cbn [Index]. rewrite prefix_colon.
  destruct (Ascii.eqb c ":") eqn:E; [reflexivity|].
  apply Ascii.eqb_neq in E. destruct o as [->|o]; [congruence|].
  specialize (IH o). destruct (Index s ":"); [reflexivity|discriminate].
Qed.

(** ** Facts about the matcher *)

Lemma star_suffix body greedy k :
  (forall s k' x, body s k' = Some x -> exists s', suffixOf s' s /\ k' s' = Some x) ->
  forall n s x, star body greedy k n s = Some x ->
                exists s', suffixOf s' s /\ k s' = Some x.
Proof.
  intros Hb. induction n as [|n IH]; intros s x H; simpl in H.
  - exists s. split; [apply suffixOf_refl | exact H].
  - assert (A : forall y, body s (fun s' => if Nat.ltb (len s') (len s)
                 then star body greedy k n s' else None) = Some y ->
                 exists s', suffixOf s' s /\ k s' = Some y).
    { intros y Hy. apply Hb in Hy as (s1 & S1 & K1).
      destruct (Nat.ltb (len s1) (len s)); [|discriminate].
      apply IH in K1 as (s2 & S2 & K2).
      exists s2. split; [eapply suffixOf_trans; eauto | exact K2]. }
    assert (B : forall y, k s = Some y -> exists s', suffixOf s' s /\ k s' = Some y).
    { intros y Hy. exists s. split; [apply suffixOf_refl | exact Hy]. }
    destruct greedy; unfold orElse in H.
    + destruct (body s _) eqn:E; [inversion H; subst; now apply A | now apply B].
    + destruct (k s) eqn:E; [inversion H; subst; now apply B | now apply A].
Qed.

(** Whatever [rmatch] returns, its continuation returned on a suffix. *)
Lemma rmatch_suffix total r :
  forall s k x, rmatch total r s k = Some x ->
                exists s', suffixOf s' s /\ k s' = Some x.
Proof.
  induction r as [| |p|a IHa b IHb|a IHa b IHb|g a IHa]; intros s k x H; simpl in H.
  - exists s. split; [apply suffixOf_refl | exact H].
  - destruct (Nat.eqb (len s) total); [|discriminate].
    exists s. split; [apply suffixOf_refl | exact H].
  - destruct s as [|c s]; [discriminate|].
    destruct (p c); [|discriminate].
    exists s. split; [apply suffixOf_tail | exact H].
  - apply IHa in H as (s1 & S1 & H). apply IHb in H as (s2 & S2 & H).
    exists s2. split; [eapply suffixOf_trans; eauto | exact H].
  - unfold orElse in H. destruct (rmatch total a s k) eqn:E.
    + inversion H; subst. now apply IHa.
    + now apply IHb.
  - eapply star_suffix; eauto.
Qed.

(** A match of the URL pattern goes through a [':']. *)
Lemma httpRe_colon total s k x :
  rmatch total httpRe s k = Some x -> occurs ":" s.
Proof.
  unfold httpRe. cbn [rmatch]. intros H.
  destruct (Nat.eqb (len s) total); [|discriminate].
  apply (rmatch_suffix total (Lit "http")) in H as (s1 & S1 & H).
  apply (rmatch_suffix total (Opt (Chr "s"))) in H as (s2 & S2 & H).
  cbn [Lit rmatch Chr] in H.
  destruct s2 as [|c s2]; [discriminate|].
  destruct (Ascii.eqb ":" c) eqn:E; [|discriminate].
  apply Ascii.eqb_eq in E. subst c.
  eapply occurs_suffixOf; [eapply suffixOf_trans; eauto|]. simpl. auto.
Qed.

Lemma find_httpRe_no_colon total s :
  ~ occurs ":" s -> find total httpRe s = None.
Proof.
  induction s as [|c s IH]; intros N.
  - cbn [find]. destruct (rmatch total httpRe "" Some) eqn:E; [|reflexivity].
    apply httpRe_colon in E. contradiction.
  - cbn [find]. destruct (rmatch total httpRe (String c s) Some) eqn:E.
    + apply httpRe_colon in E. contradiction.
    + apply IH. intros o. apply N. simpl. auto.
Qed.

Lemma FindString_httpRe_no_colon l :
  Contains l ":" = false -> FindString httpRe l = "".
Proof.
  intros H. unfold FindString.
  rewrite find_httpRe_no_colon; [reflexivity | now apply Contains_colon].
Qed.

Lemma append_assoc (a b c : string) : (a ++ b) ++ c = a ++ b ++ c.
Proof. induction a as [|x a IH]; simpl; [reflexivity | now rewrite IH]. Qed.

Lemma append_nil_r (a : string) : a ++ "" = a.
Proof. induction a as [|x a IH]; simpl; [reflexivity | now rewrite IH]. Qed.

Lemma take_append a b : take (len a) (a ++ b) = a.
Proof. induction a as [|x a IH]; simpl; [now destruct b | now rewrite IH]. Qed.

Lemma drop_append a b : drop (len a) (a ++ b) = b.
Proof. induction a as [|x a IH]; simpl; [reflexivity | exact IH]. Qed.

Lemma prefix_split p s : String.prefix p s = true -> exists r, s = p ++ r.
Proof.
  revert s. induction p as [|x p IH]; intros s H.
  - exists s. reflexivity.
  - destruct s as [|y s]; [discriminate|]. cbn [String.prefix] in H.
    destruct (ascii_dec x y) as [<-|]; [|discriminate].
    apply IH in H as [r ->]. exists r. reflexivity.
Qed.

Lemma prefix_append p r : String.prefix p (p ++ r) = true.
Proof.
  induction p as [|x p IH]; [now destruct r|].
  cbn [String.prefix append]. destruct (ascii_dec x x); [exact IH | congruence].
Qed.

(** [^] holds nowhere after the first byte. *)
Lemma find_httpRe_later total s : len s < total -> find total httpRe s = None.
Proof.
  induction s as [|c s IH]; intros L; cbn [find].
  - unfold httpRe. cbn [rmatch].
    destruct (Nat.eqb (len "") total) eqn:E; [apply Nat.eqb_eq in E; lia | reflexivity].
  - unfold httpRe at 1. cbn [rmatch].
    destruct (Nat.eqb (len (String c s)) total) eqn:E; [apply Nat.eqb_eq in E; lia |].
    apply IH. unfold len in *. simpl in L. lia.
Qed.

Lemma find_cons total r c s :
  find total r (String c s) =
  match rmatch total r (String c s) Some with
  | Some rest => Some (take (len (String c s) - len rest) (String c s), rest)
  | None => find total r s
  end.
Proof. reflexivity. Qed.

(** An e-mail target does not match the URL pattern. *)
Lemma FindString_httpRe_mailto l :
  HasPrefix l "mailto:" = true -> FindString httpRe l = "".
Proof.
  intros H. apply prefix_split in H as [r ->].
  unfold FindString. cbn [append].
  remember (String "a" _) as s0 eqn:E0.
  rewrite find_cons.
  replace (rmatch _ httpRe _ Some) with (@None string).
  - rewrite find_httpRe_later; [reflexivity|]. unfold len. simpl. lia.
  - unfold httpRe. cbn [rmatch Lit Chr].
    rewrite Nat.eqb_refl. reflexivity.
Qed.

Lemma Contains_mailto l :
  HasPrefix l "mailto:" = true -> Contains l ":" = true.
Proof.
  intros H. apply prefix_split in H as [r ->].
  apply occurs_Contains_colon. simpl. tauto.
Qed.

Lemma star_lazy_S body k n s :
  star body false k (S n) s =
  orElse (k s)
         (body s (fun s' => if Nat.ltb (len s') (len s)
                            then star body false k n s' else None)).
Proof. reflexivity. Qed.

Lemma rmatch_Cls total p c s k :
  rmatch total (Cls p) (String c s) k = if p c then k s else None.
Proof. reflexivity. Qed.

Lemma lazy_dot_label total label target n :
  plainLabel label -> len label <= n ->
  star (rmatch total (Cls dot)) false
       (fun s => rmatch total (Seq (Chr "]") (Chr "(")) s Some)
       n (label ++ "](" ++ target) = Some target.
Proof.
  revert n. induction label as [|c label IH]; intros n P L.
  - destruct n; reflexivity.
  - destruct n as [|n]; [unfold len in L; simpl in L; lia|].
    destruct P as (P1 & P2 & P3).
    change (String c label ++ "](" ++ target)
      with (String c (label ++ "](" ++ target)).
    rewrite star_lazy_S.
    replace (rmatch total (Seq (Chr "]") (Chr "(")) (String c (label ++ "](" ++ target)) Some)
      with (@None string).
    2:{ cbn [rmatch Chr]. destruct (Ascii.eqb "]" c) eqn:E; [|reflexivity].
        apply Ascii.eqb_eq in E. congruence. }
    unfold orElse. rewrite rmatch_Cls. unfold dot at 1.
    destruct (Ascii.eqb c "010") eqn:E; [apply Ascii.eqb_eq in E; congruence|].
    cbn [negb].
    replace (Nat.ltb _ _) with true.
    2:{ symmetry. apply Nat.ltb_lt. unfold len. simpl. lia. }
    apply IH; [exact P3|]. unfold len in *. simpl in L. lia.
Qed.

Lemma FindString_labelRe label target :
  plainLabel label ->
  FindString labelRe ("[" ++ label ++ "](" ++ target) = "[" ++ label ++ "](".
Proof.
  intros P. unfold FindString.
  change ("[" ++ label ++ "](" ++ target) with (String "[" (label ++ "](" ++ target)).
  set (rest := label ++ "](" ++ target).
  assert (E : rmatch (len (String "[" rest)) labelRe (String "[" rest) Some = Some target).
  { unfold labelRe. cbn [rmatch]. rewrite Nat.eqb_refl.
    unfold Chr at 1. rewrite rmatch_Cls. cbn [Ascii.eqb Bool.eqb].
    cbn [rmatch]. apply lazy_dot_label; [exact P|].
    unfold rest. rewrite len_append. lia. }
  rewrite find_cons, E.
  replace (String "[" rest) with (("[" ++ label ++ "](") ++ target).
  2:{ unfold rest. cbn [append]. now rewrite append_assoc. }
  rewrite len_append. replace (_ + _ - _) with (len ("[" ++ label ++ "](")) by lia.
  apply take_append.
Qed.

Lemma take_all_but_last a c :
  take (len (a ++ String c "") - 1) (a ++ String c "") = a.
Proof.
  rewrite len_append. replace (_ + _ - 1) with (len a) by (unfold len; simpl; lia).
  apply take_append.
Qed.

(** The target of a link with a plain label is what the parentheses hold. *)
Lemma linkTarget_link label target :
  plainLabel label ->
  linkTarget ("[" ++ label ++ "](" ++ target ++ ")") = target.
Proof.
  intros P. unfold linkTarget.
  replace ("[" ++ label ++ "](" ++ target ++ ")")
    with (("[" ++ label ++ "](" ++ target) ++ ")").
  2:{ cbn [append]. f_equal. rewrite !append_assoc. reflexivity. }
  rewrite take_all_but_last, FindString_labelRe by exact P.
  replace ("[" ++ label ++ "](" ++ target) with (("[" ++ label ++ "](") ++ target).
  2:{ cbn [append]. now rewrite append_assoc. }
  apply drop_append.
Qed.

(** A link written [[label](mailto:...)] has an e-mail target. *)
Lemma linkTarget_mailto label addr :
  plainLabel label ->
  HasPrefix (linkTarget ("[" ++ label ++ "](" ++ ("mailto:" ++ addr) ++ ")")) "mailto:"
  = true.
Proof.
  intros P. rewrite linkTarget_link by exact P. apply prefix_append.
Qed.

(** ** Lower case

    Bytes, the UTF-8 decoder and encoder, and what [strings.ToLower] does
    to the dots and to the letters of [md]. *)

Lemma Split1_nonempty s sep : Split1 s sep <> [].
Proof.
  destruct s as [|c s]; cbn [Split1]; [discriminate|].
  destruct (Ascii.eqb c sep); [discriminate|].
  destruct (Split1 s sep); discriminate.
Qed.

Lemma Split1_no_sep s sep : ~ occurs sep s -> Split1 s sep = [s].
Proof.
  induction s as [|c s IH]; intros N; cbn [Split1]; [reflexivity|].
  destruct (Ascii.eqb c sep) eqn:E.
  - apply Ascii.eqb_eq in E. exfalso. apply N. simpl. auto.
  - rewrite IH; [reflexivity|]. intros o. apply N. simpl. auto.
Qed.

Lemma last_cons_nonempty {A} (x : A) l d : l <> [] -> List.last (x :: l) d = List.last l d.
Proof. destruct l; [congruence | reflexivity]. Qed.

Lemma Split1_two a sep b : exists x y l, Split1 (a ++ String sep b) sep = x :: y :: l.
Proof.
  induction a as [|c a IH]; cbn [append Split1].
  - rewrite Ascii.eqb_refl. destruct (Split1 b sep) as [|y l] eqn:E.
    + now apply Split1_nonempty in E.
    + now exists "", y, l.
  - destruct IH as (x & y & l & ->).
    destruct (Ascii.eqb c sep); [now exists "", x, (y :: l) | now exists (String c x), y, l].
Qed.

Lemma last_Split1_append a sep b d :
  List.last (Split1 (a ++ String sep b) sep) d = List.last (Split1 b sep) d.
Proof.
  induction a as [|c a IH]; cbn [append Split1].
  - rewrite Ascii.eqb_refl. apply last_cons_nonempty, Split1_nonempty.
  - destruct (Split1_two a sep b) as (x & y & l & E).
    destruct (Ascii.eqb c sep).
    + rewrite last_cons_nonempty by (rewrite E; discriminate). exact IH.
    + rewrite E in *. rewrite <- IH. reflexivity.
Qed.

(** The pieces of a split hold no separator. *)
Lemma Split1_pieces s sep : Forall (fun x => ~ occurs sep x) (Split1 s sep).
Proof.
  induction s as [|c s IH]; cbn [Split1].
  - constructor; [simpl; tauto | constructor].
  - destruct (Ascii.eqb c sep) eqn:E.
    + constructor; [simpl; tauto | exact IH].
    + apply Ascii.eqb_neq in E. destruct (Split1 s sep) as [|x l]; [constructor; [|constructor]|].
      * simpl. intros [H|H]; [congruence | exact H].
      * inversion IH; subst. constructor; [|assumption].
        simpl. intros [H|H]; [congruence | contradiction].
Qed.

Lemma last_Forall {A} (P : A -> Prop) l d : l <> [] -> Forall P l -> P (List.last l d).
Proof.
  induction l as [|x l IH]; intros N F; [congruence|].
  inversion F; subst. destruct l as [|y l]; [assumption|].
  apply IH; [discriminate | assumption].
Qed.

Lemma byteOf_range c : (0 <= byteOf c < 256)%Z.
Proof.
  unfold byteOf. pose proof (N_ascii_bounded c) as B. lia.
Qed.

Lemma byteOf_charOf z : (0 <= z < 256)%Z -> byteOf (charOf z) = z.
Proof.
  intros H. unfold byteOf, charOf. rewrite Z.mod_small by exact H.
  rewrite N_ascii_embedding by lia. lia.
Qed.

Lemma lor_bounds a b :
  (0 <= a)%Z -> (0 <= b)%Z ->
  (a <= Z.lor a b /\ b <= Z.lor a b /\ Z.lor a b <= a + b)%Z.
Proof.
  intros A B.
  pose proof (Z.add_lor_land a b) as E.
  pose proof (Z.sub_lor_l_same_r a b) as F.
  pose proof (Z.sub_lor_l_same_r b a) as G. rewrite Z.lor_comm in G.
  assert (0 <= Z.land a b)%Z by (apply Z.land_nonneg; auto).
  assert (0 <= Z.land a (Z.lnot b))%Z by (apply Z.land_nonneg; auto).
  assert (0 <= Z.land b (Z.lnot a))%Z by (apply Z.land_nonneg; auto).
  lia.
Qed.

Lemma land_mask a n : (0 <= n)%Z -> (0 <= Z.land a (Z.ones n) < 2 ^ n)%Z.
Proof.
  intros N. rewrite Z.land_ones by exact N. apply Z.mod_pos_bound. lia.
Qed.

Lemma land_63 a : (0 <= Z.land a 63 < 64)%Z.
Proof. exact (land_mask a 6 ltac:(lia)). Qed.

Lemma land_63_mod a : Z.land a 63 = (a mod 64)%Z.
Proof. exact (Z.land_ones a 6 ltac:(lia)). Qed.
Lemma land_31_mod a : Z.land a 31 = (a mod 32)%Z.
Proof. exact (Z.land_ones a 5 ltac:(lia)). Qed.
Lemma land_15_mod a : Z.land a 15 = (a mod 16)%Z.
Proof. exact (Z.land_ones a 4 ltac:(lia)). Qed.
Lemma land_7_mod a : Z.land a 7 = (a mod 8)%Z.
Proof. exact (Z.land_ones a 3 ltac:(lia)). Qed.

Lemma shiftr_bound r k m :
  (0 <= k)%Z -> (0 <= r < 2 ^ k * (m + 1))%Z -> (0 <= Z.shiftr r k <= m)%Z.
Proof.
  intros K R. rewrite Z.shiftr_div_pow2 by exact K.
  assert (0 < 2 ^ k)%Z by (apply Z.pow_pos_nonneg; lia).
  split; [apply Z.div_pos; lia|].
  assert (r / 2 ^ k < m + 1)%Z by (apply Z.div_lt_upper_bound; lia). lia.
Qed.

(** A continuation byte over a tag is a byte above ASCII. *)
Lemma tagged_high tag x bound :
  (128 <= tag)%Z -> (0 <= x <= bound)%Z -> (tag + bound < 256)%Z ->
  high (charOf (Z.lor tag x)).
Proof.
  intros T X B. unfold high.
  destruct (lor_bounds tag x) as (L1 & L2 & L3); [lia | lia |].
  rewrite byteOf_charOf by lia. lia.
Qed.

Lemma AppendRune_ascii r :
  (0 <= r <= 127)%Z -> AppendRune r = String (charOf r) EmptyString.
Proof.
  intros H. unfold AppendRune.
  replace ((0 <=? r) && (r <=? 127))%Z%bool with true; [reflexivity|].
  symmetry. apply andb_true_iff. split; apply Z.leb_le; lia.
Qed.

Lemma encoded3_high r : (0 <= r <= 65535)%Z -> allHigh (encoded3 r).
Proof.
  intros H. unfold encoded3. cbn [allHigh].
  assert (0 <= Z.shiftr r 12 <= 15)%Z by (apply shiftr_bound; lia).
  repeat split.
  - apply (tagged_high 224 _ 15); lia.
  - apply (tagged_high 128 _ 63); [lia | pose proof (land_63 (Z.shiftr r 6)); lia | lia].
  - apply (tagged_high 128 _ 63); [lia | pose proof (land_63 r); lia | lia].
Qed.

Lemma AppendRune_high r :
  (128 <= r)%Z -> allHigh (AppendRune r) /\ AppendRune r <> EmptyString.
Proof.
  intros H. unfold AppendRune.
  replace ((0 <=? r) && (r <=? 127))%Z%bool with false
    by (symmetry; apply andb_false_iff; right; apply Z.leb_gt; lia).
  destruct ((0 <=? r) && (r <=? 2047))%Z%bool eqn:E2.
  { apply andb_true_iff in E2 as [_ E2]. apply Z.leb_le in E2.
    split; [|discriminate]. cbn [allHigh].
    assert (0 <= Z.shiftr r 6 <= 31)%Z by (apply shiftr_bound; lia).
    repeat split.
    - apply (tagged_high 192 _ 31); lia.
    - apply (tagged_high 128 _ 63); [lia | pose proof (land_63 r); lia | lia]. }
  destruct ((r <? 0) || (MaxRune <? r) || ((55296 <=? r) && (r <=? 57343)))%Z%bool eqn:E3.
  { split; [|discriminate]. apply encoded3_high. unfold RuneError. lia. }
  apply orb_false_iff in E3 as [E3 _]. apply orb_false_iff in E3 as [_ E3].
  apply Z.ltb_ge in E3. unfold MaxRune in E3.
  destruct (r <=? 65535)%Z eqn:E4.
  { apply Z.leb_le in E4. split; [|discriminate]. apply encoded3_high. lia. }
  split; [|discriminate]. cbn [allHigh].
  assert (0 <= Z.shiftr r 18 <= 4)%Z by (apply shiftr_bound; lia).
  repeat split.
  - apply (tagged_high 240 _ 4); lia.
  - apply (tagged_high 128 _ 63); [lia | pose proof (land_63 (Z.shiftr r 12)); lia | lia].
  - apply (tagged_high 128 _ 63); [lia | pose proof (land_63 (Z.shiftr r 6)); lia | lia].
  - apply (tagged_high 128 _ 63); [lia | pose proof (land_63 r); lia | lia].
Qed.

Lemma rune2_above s0 s1 :
  (194 <= s0 <= 223)%Z -> (128 <= Z.lor (Z.shiftl (Z.land s0 31) 6) (Z.land s1 63))%Z.
Proof.
  intros H.
  assert (A : (128 <= Z.shiftl (Z.land s0 31) 6)%Z).
  { rewrite Z.shiftl_mul_pow2, land_31_mod by lia. change (2 ^ 6)%Z with 64%Z.
    Z.div_mod_to_equations. lia. }
  pose proof (land_63 s1).
  destruct (lor_bounds (Z.shiftl (Z.land s0 31) 6) (Z.land s1 63)); lia.
Qed.

Lemma rune3_above s0 s1 s2 :
  (224 <= s0 <= 239)%Z -> (128 <= s1 <= 191)%Z -> (s0 = 224 -> 160 <= s1)%Z ->
  (128 <= Z.lor (Z.lor (Z.shiftl (Z.land s0 15) 12) (Z.shiftl (Z.land s1 63) 6))
                (Z.land s2 63))%Z.
Proof.
  intros H0 H1 H.
  assert (A : (0 <= Z.shiftl (Z.land s0 15) 12)%Z
              /\ (0 <= Z.shiftl (Z.land s1 63) 6)%Z
              /\ (128 <= Z.shiftl (Z.land s0 15) 12 \/ 128 <= Z.shiftl (Z.land s1 63) 6)%Z).
  { rewrite !Z.shiftl_mul_pow2, land_15_mod, land_63_mod by lia.
    change (2 ^ 12)%Z with 4096%Z. change (2 ^ 6)%Z with 64%Z.
    Z.div_mod_to_equations. lia. }
  destruct A as (A1 & A2 & A3).
  pose proof (land_63 s2).
  destruct (lor_bounds (Z.shiftl (Z.land s0 15) 12) (Z.shiftl (Z.land s1 63) 6))
    as (B1 & B2 & _); [lia | lia |].
  destruct (lor_bounds (Z.lor (Z.shiftl (Z.land s0 15) 12) (Z.shiftl (Z.land s1 63) 6))
                       (Z.land s2 63)); lia.
Qed.

Lemma rune4_above s0 s1 s2 s3 :
  (240 <= s0 <= 244)%Z -> (128 <= s1 <= 191)%Z -> (s0 = 240 -> 144 <= s1)%Z ->
  (128 <= Z.lor (Z.lor (Z.lor (Z.shiftl (Z.land s0 7) 18) (Z.shiftl (Z.land s1 63) 12))
                       (Z.shiftl (Z.land s2 63) 6))
                (Z.land s3 63))%Z.
Proof.
  intros H0 H1 H.
  assert (A : (0 <= Z.shiftl (Z.land s0 7) 18)%Z
              /\ (0 <= Z.shiftl (Z.land s1 63) 12)%Z
              /\ (0 <= Z.shiftl (Z.land s2 63) 6)%Z
              /\ (128 <= Z.shiftl (Z.land s0 7) 18 \/ 128 <= Z.shiftl (Z.land s1 63) 12)%Z).
  { rewrite !Z.shiftl_mul_pow2, land_7_mod, !land_63_mod by lia.
    change (2 ^ 18)%Z with 262144%Z. change (2 ^ 12)%Z with 4096%Z.
    change (2 ^ 6)%Z with 64%Z.
    Z.div_mod_to_equations. lia. }
  destruct A as (A1 & A2 & A3 & A4).
  pose proof (land_63 s3).
  destruct (lor_bounds (Z.shiftl (Z.land s0 7) 18) (Z.shiftl (Z.land s1 63) 12))
    as (B1 & B2 & _); [lia | lia |].
  destruct (lor_bounds (Z.lor (Z.shiftl (Z.land s0 7) 18) (Z.shiftl (Z.land s1 63) 12))
                       (Z.shiftl (Z.land s2 63) 6)) as (C1 & C2 & _); [lia | lia |].
  destruct (lor_bounds
              (Z.lor (Z.lor (Z.shiftl (Z.land s0 7) 18) (Z.shiftl (Z.land s1 63) 12))
                     (Z.shiftl (Z.land s2 63) 6))
              (Z.land s3 63)); lia.
Qed.

Lemma DecodeRune_ascii c s :
  (byteOf c < 128)%Z -> DecodeRuneInString (String c s) = (byteOf c, 1).
Proof.
  intros H. unfold DecodeRuneInString.
  cbn -[byteOf Z.ltb Z.eqb Z.leb Z.lor Z.land Z.shiftl].
  unfold RuneSelf.
  replace (byteOf c <? 128)%Z with true by (symmetry; apply Z.ltb_lt; exact H).
  reflexivity.
Qed.

(** What the conditions of the decoder say, as inequalities. *)
Ltac decide_bytes :=
  repeat match goal with
         | H : (_ || _)%bool = false |- _ => apply orb_false_iff in H as [? ?]
         | H : (_ <? _)%Z = false |- _ => apply Z.ltb_ge in H
         | H : (_ <? _)%Z = true |- _ => apply Z.ltb_lt in H
         | H : (_ =? _)%Z = false |- _ => apply Z.eqb_neq in H
         | H : (_ =? _)%Z = true |- _ => apply Z.eqb_eq in H
         end.

Lemma DecodeRune_high c s r k :
  (128 <= byteOf c)%Z ->
  DecodeRuneInString (String c s) = (r, k) ->
  (128 <= r)%Z /\ 1 <= k <= len (String c s) /\ allHigh (take k (String c s)).
Proof.
  intros H. pose proof (byteOf_range c) as R0.
  assert (E1 : forall x, (RuneError, 1) = (x, k) ->
                         (128 <= x)%Z /\ 1 <= k <= len (String c s)
                         /\ allHigh (take k (String c s))).
  { intros x E. inversion E; subst. unfold RuneError, len. cbn [take allHigh String.length].
    repeat split; try lia. exact H. }
  unfold DecodeRuneInString.
  cbn -[byteOf Z.ltb Z.eqb Z.leb Z.lor Z.land Z.shiftl Nat.ltb Nat.leb take len String.length].
  change (String.length (String c s) <? 1)%nat with false. cbn iota.
  unfold RuneSelf.
  destruct (byteOf c <? 128)%Z eqn:A; [apply Z.ltb_lt in A; lia|].
  destruct ((byteOf c <? 194) || (244 <? byteOf c))%Z%bool eqn:B; [apply E1|].
  destruct s as [|c1 s].
  { replace (String.length (String c "") <? _)%nat with true; [apply E1|].
    destruct (byteOf c <? 224)%Z; [reflexivity|]. destruct (byteOf c <? 240)%Z; reflexivity. }
  pose proof (byteOf_range c1) as R1.
  change (byteAt (String c (String c1 s)) 1) with (byteOf c1).
  destruct (byteOf c <? 224)%Z eqn:S2.
  { change (String.length (String c (String c1 s)) <? 2)%nat with false. cbn iota.
    replace (byteOf c =? 224)%Z with false by (decide_bytes; symmetry; apply Z.eqb_neq; lia).
    replace (byteOf c =? 240)%Z with false by (decide_bytes; symmetry; apply Z.eqb_neq; lia).
    replace (byteOf c =? 237)%Z with false by (decide_bytes; symmetry; apply Z.eqb_neq; lia).
    replace (byteOf c =? 244)%Z with false by (decide_bytes; symmetry; apply Z.eqb_neq; lia).
    destruct ((byteOf c1 <? 128) || (191 <? byteOf c1))%Z%bool eqn:C1; [apply E1|].
    change (2 <=? 2)%nat with true. cbn iota.
    intros E. inversion E; subst. decide_bytes.
    split; [apply rune2_above; lia|].
    unfold len. cbn [take allHigh String.length]. unfold high. repeat split; lia. }
  set (lo := if (byteOf c =? 224)%Z then 160%Z else if (byteOf c =? 240)%Z then 144%Z else 128%Z).
  set (hi := if (byteOf c =? 237)%Z then 159%Z else if (byteOf c =? 244)%Z then 143%Z else 191%Z).
  assert (LO : (128 <= lo)%Z /\ (byteOf c = 224 -> lo = 160)%Z /\ (byteOf c = 240 -> lo = 144)%Z).
  { unfold lo. destruct (Z.eqb_spec (byteOf c) 224); [lia|].
    destruct (Z.eqb_spec (byteOf c) 240); lia. }
  assert (HI : (hi <= 191)%Z).
  { unfold hi. destruct (byteOf c =? 237)%Z; [lia|]. destruct (byteOf c =? 244)%Z; lia. }
  destruct s as [|c2 s].
  { replace (String.length (String c (String c1 "")) <? _)%nat with true; [apply E1|].
    destruct (byteOf c <? 240)%Z; reflexivity. }
  pose proof (byteOf_range c2) as R2.
  change (byteAt (String c (String c1 (String c2 s))) 2) with (byteOf c2).
  destruct (byteOf c <? 240)%Z eqn:S3.
  { change (String.length (String c (String c1 (String c2 s))) <? 3)%nat with false. cbn iota.
    destruct ((byteOf c1 <? lo) || (hi <? byteOf c1))%Z%bool eqn:C1; [apply E1|].
    change (3 <=? 2)%nat with false. cbn iota.
    destruct ((byteOf c2 <? 128) || (191 <? byteOf c2))%Z%bool eqn:C2; [apply E1|].
    change (3 <=? 3)%nat with true. cbn iota.
    intros E. inversion E; subst. decide_bytes.
    split; [apply rune3_above; lia|].
    unfold len. cbn [take allHigh String.length]. unfold high. repeat split; lia. }
  destruct s as [|c3 s].
  { change (String.length (String c (String c1 (String c2 ""))) <? 4)%nat with true. apply E1. }
  pose proof (byteOf_range c3) as R3.
  change (byteAt (String c (String c1 (String c2 (String c3 s)))) 3) with (byteOf c3).
  change (String.length (String c (String c1 (String c2 (String c3 s)))) <? 4)%nat with false. cbn iota.
  destruct ((byteOf c1 <? lo) || (hi <? byteOf c1))%Z%bool eqn:C1; [apply E1|].
  change (4 <=? 2)%nat with false. cbn iota.
  destruct ((byteOf c2 <? 128) || (191 <? byteOf c2))%Z%bool eqn:C2; [apply E1|].
  change (4 <=? 3)%nat with false. cbn iota.
  destruct ((byteOf c3 <? 128) || (191 <? byteOf c3))%Z%bool eqn:C3; [apply E1|].
  intros E. inversion E; subst. decide_bytes.
  split; [apply rune4_above; lia|].
  unfold len. cbn [take allHigh String.length]. unfold high. repeat split; lia.
Qed.

Lemma take_drop n s : take n s ++ drop n s = s.
Proof.
  revert s. induction n as [|n IH]; intros [|c s]; cbn [take drop append]; try reflexivity.
  now rewrite IH.
Qed.

Lemma len_drop n s : len (drop n s) = len s - n.
Proof.
  unfold len. revert s. induction n as [|n IH]; intros [|c s]; cbn [drop String.length]; try lia.
  apply IH.
Qed.

Lemma lower_ascii c :
  (byteOf c < 128)%Z ->
  charOf (if ((65 <=? byteOf c) && (byteOf c <=? 90))%Z%bool
          then byteOf c + 32 else byteOf c)%Z = lower c.
Proof.
  intros _. destruct c as [[] [] [] [] [] [] [] []]; reflexivity.
Qed.

Lemma ToLowerRune_ascii table c :
  (byteOf c < 128)%Z ->
  ToLowerRune table (byteOf c)
  = (if ((65 <=? byteOf c) && (byteOf c <=? 90))%Z%bool then byteOf c + 32 else byteOf c)%Z
  /\ (0 <= ToLowerRune table (byteOf c) <= 127)%Z.
Proof.
  intros H. pose proof (byteOf_range c). unfold ToLowerRune.
  replace (byteOf c <=? 127)%Z with true by (symmetry; apply Z.leb_le; lia).
  split; [reflexivity|].
  destruct ((65 <=? byteOf c) && (byteOf c <=? 90))%Z%bool eqn:E; [|lia].
  apply andb_true_iff in E as [E1 E2]. apply Z.leb_le in E1. apply Z.leb_le in E2. lia.
Qed.

Lemma writeRunes_lowered table n :
  forall s, len s <= n -> lowered s (writeRunes (ToLowerRune table) (runes n s)).
Proof.
  induction n as [|n IH]; intros s L.
  - destruct s; [constructor | unfold len in L; simpl in L; lia].
  - destruct s as [|c s]; [constructor|].
    cbn [runes].
    destruct (Z.lt_ge_cases (byteOf c) 128) as [A|A].
    + rewrite DecodeRune_ascii by exact A. cbn [drop writeRunes].
      destruct (ToLowerRune_ascii table c A) as [E R].
      replace (0 <=? _)%Z with true by (symmetry; apply Z.leb_le; lia).
      rewrite AppendRune_ascii by exact R. rewrite E, lower_ascii by exact A.
      cbn [append]. constructor; [exact A|]. apply IH. unfold len in *. simpl in L. lia.
    + destruct (DecodeRuneInString (String c s)) as [r k] eqn:D.
      destruct (DecodeRune_high c s r k A D) as (R & K & U).
      cbn [writeRunes].
      rewrite <- (take_drop k (String c s)) at 1.
      assert (T : ToLowerRune table r = lowerCase table r).
      { unfold ToLowerRune. now replace (r <=? 127)%Z with false by (symmetry; apply Z.leb_gt; lia). }
      rewrite T.
      assert (N : take k (String c s) <> "").
      { destruct k; [lia | discriminate]. }
      assert (I : lowered (drop k (String c s))
                          (writeRunes (ToLowerRune table) (runes n (drop k (String c s))))).
      { apply IH. rewrite len_drop. lia. }
      destruct (lowerCase_above_ascii table r R) as [G|[G|G]].
      * replace (0 <=? _)%Z with true by (symmetry; apply Z.leb_le; lia).
        apply lowered_rune; [exact N | exact U | left; now apply AppendRune_high | exact I].
      * rewrite G. apply lowered_rune; [exact N | exact U | right; left; reflexivity | exact I].
      * rewrite G. apply lowered_rune; [exact N | exact U | right; right; reflexivity | exact I].
Qed.

Lemma isUpper_false_lower c : isUpper c = false -> lower c = c.
Proof. unfold lower. now intros ->. Qed.

Lemma lowerBytes_no_upper s : hasUpper s = false -> lowerBytes s = s.
Proof.
  induction s as [|c s IH]; [reflexivity|]. cbn [hasUpper lowerBytes].
  intros H. apply orb_false_iff in H as [H1 H2].
  now rewrite isUpper_false_lower, IH.
Qed.

Lemma lowerBytes_lowered s : isASCII s = true -> lowered s (lowerBytes s).
Proof.
  induction s as [|c s IH]; [constructor|]. cbn [isASCII lowerBytes].
  intros H. apply andb_true_iff in H as [H1 H2]. apply Z.ltb_lt in H1.
  constructor; [exact H1 | now apply IH].
Qed.

(** [strings.ToLower] lowers. *)
Lemma ToLower_lowered table s : lowered s (ToLower table s).
Proof.
  unfold ToLower. destruct (isASCII s) eqn:A.
  - destruct (hasUpper s) eqn:U.
    + now apply lowerBytes_lowered.
    + rewrite <- (lowerBytes_no_upper s U) at 2. now apply lowerBytes_lowered.
  - unfold Map. apply writeRunes_lowered. lia.
Qed.

Lemma high_not_dot c : high c -> c <> "."%char.
Proof. intros H ->. unfold high in H. cbn in H. lia. Qed.

Lemma allHigh_no_dot u : allHigh u -> ~ occurs "." u.
Proof.
  induction u as [|c u IH]; cbn [allHigh occurs]; [tauto|].
  intros [H1 H2] [E|O]; [now apply (high_not_dot c) | now apply IH].
Qed.

Lemma image_no_dot v :
  (allHigh v /\ v <> "") \/ v = "i" \/ v = "k" -> ~ occurs "." v.
Proof.
  intros [[H _]|[->| ->]]; [now apply allHigh_no_dot | |];
    cbn; intros [E|[]]; discriminate E.
Qed.

Lemma lower_is_dot c : lower c = "."%char <-> c = "."%char.
Proof.
  destruct c as [[] [] [] [] [] [] [] []]; split; intros H;
    first [ reflexivity | discriminate H ].
Qed.

Lemma Split1_prepend u s sep :
  ~ occurs sep u ->
  Split1 (u ++ s) sep
  = match Split1 s sep with
    | x :: xs => (u ++ x) :: xs
    | [] => [u]
    end.
Proof.
  induction u as [|c u IH]; intros N.
  - cbn [append]. destruct (Split1 s sep) eqn:E; [now apply Split1_nonempty in E | reflexivity].
  - cbn [append Split1].
    replace (Ascii.eqb c sep) with false
      by (symmetry; apply Ascii.eqb_neq; intros ->; apply N; cbn; auto).
    rewrite IH by (intros o; apply N; cbn; auto).
    destruct (Split1 s sep); reflexivity.
Qed.

Lemma lowered_Split1 s t :
  lowered s t -> Forall2 lowered (Split1 s ".") (Split1 t ".").
Proof.
  induction 1 as [|c s t A L IH|u v s t N U V L IH].
  - repeat constructor.
  - cbn [Split1]. destruct (Ascii.eqb c ".") eqn:E.
    + apply Ascii.eqb_eq in E. subst c. cbn [Ascii.eqb Bool.eqb lower].
      change (lower ".") with "."%char. rewrite Ascii.eqb_refl.
      constructor; [constructor | exact IH].
    + replace (Ascii.eqb (lower c) ".") with false.
      2:{ symmetry. apply Ascii.eqb_neq. intros H. apply (proj1 (lower_is_dot c)) in H.
          apply Ascii.eqb_neq in E. contradiction. }
      destruct (Split1 s ".") as [|x xs] eqn:E1; [now apply Split1_nonempty in E1|].
      destruct (Split1 t ".") as [|y ys] eqn:E2; [now apply Split1_nonempty in E2|].
      inversion IH; subst. constructor; [now constructor | assumption].
  - rewrite (Split1_prepend u s) by now apply allHigh_no_dot.
    rewrite (Split1_prepend v t) by now apply image_no_dot.
    destruct (Split1 s ".") as [|x xs] eqn:E1; [now apply Split1_nonempty in E1|].
    destruct (Split1 t ".") as [|y ys] eqn:E2; [now apply Split1_nonempty in E2|].
    inversion IH; subst. constructor; [now constructor | assumption].
Qed.

Lemma Forall2_last {A B} (P : A -> B -> Prop) l1 l2 d1 d2 :
  Forall2 P l1 l2 -> P d1 d2 -> P (List.last l1 d1) (List.last l2 d2).
Proof.
  induction 1 as [|x y l1 l2 H F IH]; intros D; [exact D|].
  destruct F as [|x' y' l1 l2 H' F]; [exact H|]. now apply IH.
Qed.

(** The extension the code computes is the lowered trailing extension. *)
Lemma getFileExtension_eq w s :
  getFileExtension w s = List.last (Split1 (ToLower (caseRanges w) s) ".") EmptyString.
Proof. reflexivity. Qed.

Lemma lowered_extension w s :
  lowered (List.last (Split1 s ".") EmptyString) (getFileExtension w s).
Proof.
  rewrite !getFileExtension_eq. apply Forall2_last; [|constructor].
  apply lowered_Split1, ToLower_lowered.
Qed.

Lemma lowered_empty s : lowered s "" -> s = "".
Proof.
  intros H. inversion H as [| |u v s' t N U V L E1 E2]; [reflexivity|].
  destruct v as [|x v]; [|discriminate E2].
  destruct V as [[_ V]|[V|V]]; [congruence | discriminate V | discriminate V].
Qed.

Lemma lower_m c : lower c = "m"%char -> c = "m"%char \/ c = "M"%char.
Proof.
  destruct c as [[] [] [] [] [] [] [] []]; intros H;
    first [ discriminate H | now left | now right ].
Qed.

Lemma lower_d c : lower c = "d"%char -> c = "d"%char \/ c = "D"%char.
Proof.
  destruct c as [[] [] [] [] [] [] [] []]; intros H;
    first [ discriminate H | now left | now right ].
Qed.

(** What is lowered to one ASCII byte other than [i] and [k] is one
    ASCII byte. *)
Lemma lowered_cons s d t :
  lowered s (String d t) -> d <> "i"%char -> d <> "k"%char -> (byteOf d < 128)%Z ->
  exists c s', s = String c s' /\ lower c = d /\ lowered s' t.
Proof.
  intros H I K A. inversion H as [|c s' t' B L E1 E2|u v s' t' N U V L E1 E2].
  - subst. now exists c, s'.
  - exfalso. destruct V as [[V1 V2]|[->| ->]].
    + destruct v as [|x v]; [congruence|]. cbn [append] in E2. inversion E2; subst.
      destruct V1 as [V1 _]. unfold high in V1. lia.
    + cbn [append] in E2. inversion E2. congruence.
    + cbn [append] in E2. inversion E2. congruence.
Qed.

Lemma lowered_md e : lowered e "md" <-> isMd e = true.
Proof.
  split.
  - intros H.
    apply lowered_cons in H as (c1 & s1 & -> & L1 & H);
      [| discriminate | discriminate | reflexivity].
    apply lowered_cons in H as (c2 & s2 & -> & L2 & H);
      [| discriminate | discriminate | reflexivity].
    apply lowered_empty in H. subst s2.
    apply lower_m in L1 as [->| ->]; apply lower_d in L2 as [->| ->]; reflexivity.
  - unfold isMd. cbn [existsb]. rewrite !orb_true_iff.
    intros [H|[H|[H|[H|H]]]]; try discriminate H;
      apply String.eqb_eq in H; subst e.
    + apply (lowered_byte "m" "d" "d"); [reflexivity|].
      apply (lowered_byte "d" "" ""); [reflexivity | constructor].
    + apply (lowered_byte "M" "d" "d"); [reflexivity|].
      apply (lowered_byte "d" "" ""); [reflexivity | constructor].
    + apply (lowered_byte "m" "D" "d"); [reflexivity|].
      apply (lowered_byte "D" "" ""); [reflexivity | constructor].
    + apply (lowered_byte "M" "D" "d"); [reflexivity|].
      apply (lowered_byte "D" "" ""); [reflexivity | constructor].
Qed.

Lemma occurs_hasByte c s : hasByte c s = true <-> occurs c s.
Proof.
  induction s as [|d s IH]; cbn [hasByte occurs]; [split; [discriminate | tauto]|].
  rewrite orb_true_iff, IH, Ascii.eqb_eq. tauto.
Qed.

Lemma afterLastDot_Split1 l : afterLastDot l = List.last (Split1 l ".") EmptyString.
Proof.
  induction l as [|c l IH]; [reflexivity|]. cbn [afterLastDot Split1].
  destruct (hasByte "." l) eqn:D.
  - apply occurs_hasByte in D. rewrite IH.
    destruct (Ascii.eqb c ".").
    + symmetry. apply last_cons_nonempty, Split1_nonempty.
    + destruct (Split1 l ".") as [|x [|y xs]] eqn:E.
      * now apply Split1_nonempty in E.
      * exfalso. pose proof (Split1_pieces l ".") as F. rewrite E in F.
        inversion F; subst.
        assert (l = x); [|congruence].
        clear - E. revert x E. induction l as [|d l IH]; intros x E; cbn [Split1] in E.
        -- congruence.
        -- destruct (Ascii.eqb d "."); [destruct (Split1 l ".") eqn:E'; [now apply Split1_nonempty in E'|discriminate]|].
           destruct (Split1 l ".") as [|y [|z ys]] eqn:E'; try discriminate.
           ++ now apply Split1_nonempty in E'.
           ++ inversion E; subst. f_equal. now apply IH.
      * reflexivity.
  - assert (N : ~ occurs "." l).
    { intros o. apply occurs_hasByte in o. congruence. }
    rewrite (Split1_no_sep l "." N).
    destruct (Ascii.eqb c "."); reflexivity.
Qed.

(** The test [getFileExtension(l) != "md"] decides whether the trailing
    extension of [l] is [md] in some spelling. *)
Lemma getFileExtension_md w l : String.eqb (getFileExtension w l) "md" = isMd (afterLastDot l).
Proof.
  pose proof (lowered_extension w l) as L. rewrite <- afterLastDot_Split1 in L.
  destruct (String.eqb (getFileExtension w l) "md") eqn:E.
  - apply String.eqb_eq in E. rewrite E in L. symmetry. now apply lowered_md.
  - destruct (isMd (afterLastDot l)) eqn:M; [|reflexivity].
    apply lowered_md in M.
    exfalso. apply String.eqb_neq in E. apply E. clear E.
    revert L M. generalize (getFileExtension w l) (afterLastDot l). intros t e L M.
    apply lowered_cons in M as (c1 & s1 & -> & L1 & M);
      [| discriminate | discriminate | reflexivity].
    apply lowered_cons in M as (c2 & s2 & -> & L2 & M);
      [| discriminate | discriminate | reflexivity].
    apply lowered_empty in M. subst s2.
    assert (A1 : (byteOf c1 < 128)%Z) by (apply lower_m in L1 as [->| ->]; reflexivity).
    assert (A2 : (byteOf c2 < 128)%Z) by (apply lower_d in L2 as [->| ->]; reflexivity).
    inversion L as [|c s' t' B L' E1 E2|u v s' t' N U V L' E1 E2]; subst.
    + inversion L' as [|c s'' t'' B' L'' E1 E2|u v s'' t'' N U V L'' E1 E2]; subst.
      * inversion L''; subst; [now rewrite L1, L2|].
        match goal with H : _ ++ _ = "" |- _ => rename H into Q end.
        destruct u; [congruence | discriminate Q].
      * destruct u as [|x u]; [congruence|]. cbn [append] in E1. inversion E1; subst.
        destruct U as [U _]. unfold high in U. lia.
    + destruct u as [|x u]; [congruence|]. cbn [append] in E1. inversion E1; subst.
      destruct U as [U _]. unfold high in U. lia.
Qed.

Lemma high_not_upper c : high c -> isUpper c = false.
Proof.
  unfold high.
  destruct c as [[] [] [] [] [] [] [] []]; intros H;
    first [ reflexivity | exfalso; now apply H ].
Qed.

Lemma lower_not_upper c : isUpper (lower c) = false.
Proof. destruct c as [[] [] [] [] [] [] [] []]; reflexivity. Qed.

Lemma hasUpper_append a b : hasUpper (a ++ b) = (hasUpper a || hasUpper b)%bool.
Proof.
  induction a as [|c a IH]; [reflexivity|]. cbn [append hasUpper].
  now rewrite IH, orb_assoc.
Qed.

Lemma allHigh_no_upper v : allHigh v -> hasUpper v = false.
Proof.
  induction v as [|c v IH]; [reflexivity|]. cbn [allHigh hasUpper].
  intros [H1 H2]. now rewrite high_not_upper, IH.
Qed.

(** What was lowered holds no upper-case ASCII letter. *)
Lemma lowered_no_upper s t : lowered s t -> hasUpper t = false.
Proof.
  induction 1 as [|c s t A L IH|u v s t N U V L IH].
  - reflexivity.
  - cbn [hasUpper]. now rewrite lower_not_upper, IH.
  - rewrite hasUpper_append, IH, orb_false_r.
    destruct V as [[V _]|[->| ->]]; [now apply allHigh_no_upper | reflexivity | reflexivity].
Qed.

(** Lowering an extension again does not change whether it is [md]
    (line 199 of [findAndCheckMdFile]). *)
Lemma ToLower_extension_md w s :
  String.eqb (ToLower (caseRanges w) (getFileExtension w s)) "md" = String.eqb (getFileExtension w s) "md".
Proof.
  pose proof (lowered_no_upper _ _ (lowered_extension w s)) as U.
  pose proof (ToLower_lowered (caseRanges w) (getFileExtension w s)) as L.
  destruct (String.eqb (getFileExtension w s) "md") eqn:E.
  - apply String.eqb_eq in E. rewrite E. reflexivity.
  - apply String.eqb_neq in E.
    destruct (String.eqb (ToLower (caseRanges w) (getFileExtension w s)) "md") eqn:F; [|reflexivity].
    apply String.eqb_eq in F. rewrite F in L. apply lowered_md in L.
    exfalso. apply E. revert U L. generalize (getFileExtension w s). intros e U L.
    unfold isMd in L. cbn [existsb] in L. rewrite !orb_true_iff in L.
    destruct L as [L|[L|[L|[L|L]]]]; try discriminate L;
      apply String.eqb_eq in L; subst e; [reflexivity | | |]; discriminate U.
Qed.

Ltac by_byte b :=
  destruct b eqn:?;
  cbn -[byteOf Z.ltb Z.eqb Z.leb Z.lor Z.land Z.shiftl] in *;
  try reflexivity; try discriminate; try (exfalso; decide_bytes; lia).

Ltac split_ifs :=
  repeat match goal with
         | |- context [if ?b then _ else _] => by_byte b
         end.

(** The decoder does not look beyond an ASCII byte. *)
Lemma DecodeRune_append a c b :
  a <> "" -> (byteOf c < 128)%Z ->
  DecodeRuneInString (a ++ String c b) = DecodeRuneInString a.
Proof.
  intros N A.
  destruct a as [|c0 [|c1 [|c2 [|c3 a]]]]; [congruence| | | |];
    unfold DecodeRuneInString, RuneSelf;
    cbn -[byteOf Z.ltb Z.eqb Z.leb Z.lor Z.land Z.shiftl];
    by_byte (byteOf c0 <? 128)%Z;
    by_byte (byteOf c0 <? 194)%Z;
    by_byte (244 <? byteOf c0)%Z;
    by_byte (byteOf c0 <? 224)%Z;
    by_byte (byteOf c0 <? 240)%Z;
    by_byte (byteOf c0 =? 224)%Z;
    by_byte (byteOf c0 =? 240)%Z;
    by_byte (byteOf c0 =? 237)%Z;
    by_byte (byteOf c0 =? 244)%Z;
    split_ifs.
Qed.

Lemma DecodeRune_width c s :
  1 <= snd (DecodeRuneInString (String c s)) <= len (String c s).
Proof.
  destruct (Z.lt_ge_cases (byteOf c) 128) as [A|A].
  - rewrite DecodeRune_ascii by exact A. unfold len. cbn. lia.
  - destruct (DecodeRuneInString (String c s)) as [r k] eqn:D.
    now destruct (DecodeRune_high c s r k A D) as (_ & K & _).
Qed.

(** Any budget that covers the bytes gives the same runes. *)
Lemma runes_fuel n :
  forall m s, len s <= n -> len s <= m -> runes n s = runes m s.
Proof.
  induction n as [|n IH]; intros m s Ln Lm.
  - destruct s; [now destruct m | unfold len in Ln; simpl in Ln; lia].
  - destruct s as [|c s]; [now destruct m|].
    destruct m as [|m]; [unfold len in Lm; simpl in Lm; lia|].
    cbn [runes]. pose proof (DecodeRune_width c s) as W.
    destruct (DecodeRuneInString (String c s)) as [r k]. cbn [snd] in W.
    f_equal. apply IH; rewrite len_drop; lia.
Qed.

Lemma drop_append_le k a b : k <= len a -> drop k (a ++ b) = drop k a ++ b.
Proof.
  revert a. induction k as [|k IH]; intros a L; [reflexivity|].
  destruct a as [|x a]; [unfold len in L; simpl in L; lia|].
  cbn [append drop]. apply IH. unfold len in *. simpl in L. lia.
Qed.

(** An ASCII byte ends the rune before it. *)
Lemma runes_append c b :
  (byteOf c < 128)%Z ->
  forall n a, len a <= n ->
    runes (len (a ++ String c b)) (a ++ String c b)
    = (runes (len a) a ++ byteOf c :: runes (len b) b)%list.
Proof.
  intros A. induction n as [|n IH]; intros a L.
  - destruct a; [|unfold len in L; simpl in L; lia].
    cbn [append]. change (len (String c b)) with (S (len b)). cbn [runes].
    rewrite DecodeRune_ascii by exact A. reflexivity.
  - destruct a as [|x a].
    + cbn [append]. change (len (String c b)) with (S (len b)). cbn [runes].
      rewrite DecodeRune_ascii by exact A. reflexivity.
    + change (len (String x a ++ String c b)) with (S (len (a ++ String c b))).
      change (len (String x a)) with (S (len a)).
      cbn [runes append].
      change (String x (a ++ String c b)) with (String x a ++ String c b).
      rewrite DecodeRune_append by (exact A || discriminate).
      pose proof (DecodeRune_width x a) as W.
      destruct (DecodeRuneInString (String x a)) as [r k]. cbn [snd] in W.
      cbn [app]. f_equal.
      rewrite drop_append_le by lia.
      rewrite (runes_fuel _ (len (drop k (String x a) ++ String c b))).
      * rewrite IH.
        -- f_equal. apply runes_fuel; rewrite ?len_drop;
             change (len (String x a)) with (S (len a)) in *; lia.
        -- rewrite len_drop. change (len (String x a)) with (S (len a)) in *. lia.
      * rewrite !len_append, len_drop.
        change (len (String x a)) with (S (len a)) in *. lia.
      * lia.
Qed.

Lemma writeRunes_app f l1 l2 :
  writeRunes f (l1 ++ l2) = writeRunes f l1 ++ writeRunes f l2.
Proof.
  induction l1 as [|c l1 IH]; [reflexivity|].
  cbn [app writeRunes]. now rewrite IH, append_assoc.
Qed.

Lemma writeRunes_ascii table c :
  (byteOf c < 128)%Z ->
  (if (0 <=? ToLowerRune table (byteOf c))%Z
   then AppendRune (ToLowerRune table (byteOf c)) else "") = String (lower c) "".
Proof.
  intros A. destruct (ToLowerRune_ascii table c A) as [E R].
  replace (0 <=? _)%Z with true by (symmetry; apply Z.leb_le; lia).
  rewrite AppendRune_ascii by exact R. now rewrite E, lower_ascii.
Qed.

Lemma Map_ascii table s : isASCII s = true -> Map (ToLowerRune table) s = lowerBytes s.
Proof.
  unfold Map. induction s as [|c s IH]; [reflexivity|].
  cbn [isASCII]. intros H. apply andb_true_iff in H as [H1 H2]. apply Z.ltb_lt in H1.
  change (len (String c s)) with (S (len s)). cbn [runes].
  rewrite DecodeRune_ascii by exact H1. cbn [drop writeRunes]. cbv zeta.
  rewrite (writeRunes_ascii table c H1), IH by exact H2. reflexivity.
Qed.

(** The ASCII branch of [strings.ToLower] is a short cut. *)
Lemma ToLower_Map table s : ToLower table s = Map (ToLowerRune table) s.
Proof.
  unfold ToLower. destruct (isASCII s) eqn:A; [|reflexivity].
  rewrite Map_ascii by exact A.
  destruct (hasUpper s) eqn:U; [reflexivity|]. symmetry. now apply lowerBytes_no_upper.
Qed.

Lemma ToLower_append_ascii table a c b :
  (byteOf c < 128)%Z ->
  ToLower table (a ++ String c b) = ToLower table a ++ String (lower c) (ToLower table b).
Proof.
  intros A. rewrite !ToLower_Map. unfold Map.
  rewrite (runes_append c b A (len a) a) by lia.
  rewrite writeRunes_app. cbn [writeRunes]. cbv zeta.
  now rewrite (writeRunes_ascii table c A).
Qed.

Lemma lowered_dot s t : lowered s t -> occurs "." t -> occurs "." s.
Proof.
  induction 1 as [|c s t A L IH|u v s t N U V L IH]; [tauto| |].
  - cbn [occurs]. intros [H|H]; [left; now apply lower_is_dot | right; now apply IH].
  - intros o. assert (O : occurs "." t).
    { clear - o V. apply image_no_dot in V.
      induction v as [|x v IHv]; [exact o|]. cbn [append occurs] in *.
      destruct o as [o|o]; [tauto|]. apply IHv; tauto. }
    apply IH in O. clear - O. induction u as [|x u IHu]; [exact O|]. cbn. now right.
Qed.

(** ** The link classifier *)

Example javascript_target_does_not_match :
  Contains "javascript:void(0)" ":" = true
  /\ HasPrefix "javascript:void(0)" "mailto:" = false
  /\ find (len "javascript:void(0)") httpRe "javascript:void(0)" = None.
Proof. repeat split. Qed.

Lemma checkMdLink_nonempty w fuel md raw rpath fpath :
  raw <> "" ->
  checkMdLink w fuel md raw rpath fpath =
  bind (resolveUrl w md (linkTarget raw) rpath)
       (fun url => validate w fuel (linkTarget raw) url).
Proof. destruct raw; [congruence | reflexivity]. Qed.

Lemma resolveUrl_colon w md l rpath t :
  Contains l ":" = true ->
  resolveUrl w md l rpath t = Ret (FindString httpRe l, t).
Proof.
  intros C. unfold resolveUrl. destruct (Cut l "/") as [[fqdn a] b].
  rewrite C. reflexivity.
Qed.

(** A target that begins with [mailto:] is not handed to the network:
    [checkMdLink] returns the informational sentinel with [ok] true and
    leaves the trace of events as it found it, and the round of the loop
    returns the report and the list of failed links unchanged. *)
Lemma mailto_target_is_not_validated w fuel md raw rpath fpath links t :
  HasPrefix (linkTarget raw) "mailto:" = true ->
  checkMdLink w fuel md raw rpath fpath t = Ret (("[INF]  is not URL", true), t)
  /\ checkMatch w fuel rpath fpath (md, links) raw t = Ret ((md, links), t).
Proof.
  intros H.
  assert (N : raw <> "") by (intros ->; discriminate H).
  assert (E : checkMdLink w fuel md raw rpath fpath t
              = Ret (("[INF]  is not URL", true), t)).
  { rewrite checkMdLink_nonempty by exact N. unfold bind.
    rewrite resolveUrl_colon by now apply Contains_mailto.
    rewrite FindString_httpRe_mailto by exact H.
    unfold validate. rewrite H. reflexivity. }
  split; [exact E|].
  unfold checkMatch, bind. rewrite E. reflexivity.
Qed.

Lemma Get_empty w t :
  Get w "" t = Ret (mkGetResult None (Some noSchemeError), (t ++ [EvGet ""])%list).
Proof. reflexivity. Qed.

Lemma prefix_slash c s : String.prefix "/" (String c s) = Ascii.eqb c "/".
Proof.
  cbn [String.prefix]. destruct (ascii_dec "/" c) as [<-|n].
  - now destruct s.
  - symmetry. apply Ascii.eqb_neq. congruence.
Qed.

(** [strings.Cut(l, "/")] cuts at the first ['/']. *)
Lemma candidateHost_spec l :
  ~ occurs "/" (candidateHost l)
  /\ (l = candidateHost l \/ exists rest, l = candidateHost l ++ "/" ++ rest).
Proof.
  unfold candidateHost, Cut.
  induction l as [|c l IH].
  - simpl. split; [tauto | now left].
  - cbn [Index]. rewrite prefix_slash.
    destruct (Ascii.eqb c "/") eqn:E.
    + apply Ascii.eqb_eq in E. subst c. cbn. split; [tauto|]. right. now exists l.
    + apply Ascii.eqb_neq in E.
      destruct (Index l "/") as [i|] eqn:I; cbn [option_map fst take] in *.
      * destruct IH as [IH1 IH2]. split.
        -- simpl. intros [->|o]; [congruence | tauto].
        -- destruct IH2 as [IH2|[rest IH2]].
           ++ left. now f_equal.
           ++ right. exists rest. cbn [append]. now f_equal.
      * destruct IH as [IH1 IH2]. split.
        -- simpl. intros [->|o]; [congruence | tauto].
        -- now left.
Qed.

Lemma starts_with_slash l :
  (negb (String.eqb l "") && String.eqb (take 1 l) "/")%bool = true
  <-> exists rest, l = String "/" rest.
Proof.
  destruct l as [|c l]; cbn.
  - split; [discriminate | intros [r H]; discriminate].
  - split.
    + intros H. destruct (Ascii.eqb c "/") eqn:E; [|discriminate]. apply Ascii.eqb_eq in E. subst. now exists l.
    + intros [r H]. inversion H; subst. reflexivity.
Qed.

Lemma resolveUrl_no_colon w md l rpath root t :
  WebUrl (Repo md) = Some root ->
  Contains l ":" = false ->
  resolveUrl w md l rpath t =
  Ret (if (lookupIP w (candidateHost l)
           && negb (String.eqb (getFileExtension w l) "md"))%bool
       then "http://" ++ l
       else pathRelative root rpath l,
       (t ++ [EvLookupIP (candidateHost l)])%list).
Proof.
  intros W C. unfold resolveUrl, candidateHost, pathRelative.
  destruct (Cut l "/") as [[fqdn a] b]. cbn [fst].
  rewrite C, (FindString_httpRe_no_colon l C). cbn [negb andb String.eqb].
  cbv [bind LookupIP emit ret].
  destruct (lookupIP w fqdn && negb (getFileExtension w l =? "md"))%bool; [reflexivity|].
  destruct (negb (l =? "") && (take 1 l =? "/"))%bool; rewrite W; reflexivity.
Qed.

Lemma append_len_nil (a l : string) : l = a ++ l -> a = "".
Proof.
  intros H. apply (f_equal len) in H. rewrite len_append in H.
  destruct a; [reflexivity | unfold len in H; simpl in H; lia].
Qed.

Lemma append_cancel_r (a b l : string) : a ++ l = b ++ l -> a = b.
Proof.
  revert b. induction a as [|x a IH]; intros b H.
  - symmetry. now apply (append_len_nil b l).
  - destruct b as [|y b].
    + symmetry in H. now apply (append_len_nil (String x a) l) in H.
    + cbn [append] in H. inversion H; subst. f_equal. now apply IH.
Qed.

(** A root built as [CheckGitMdLinks] builds it, followed by a directory
    or nothing, is not the seven bytes ["http://"]. *)
Lemma repoUrl_not_http h b x : (h ++ "/blob/" ++ b) ++ x <> "http://".
Proof.
  intros H. destruct h as [|c1 [|c2 h]]; cbn [append] in H.
  - discriminate H.
  - inversion H.
  - inversion H as [[H1 H2 H3]]. apply (f_equal len) in H3.
    rewrite !len_append in H3. unfold len in H3. simpl in H3. lia.
Qed.

Lemma pathRelative_not_http h b rpath l :
  pathRelative (h ++ "/blob/" ++ b) rpath l <> "http://" ++ l.
Proof.
  unfold pathRelative. intros H.
  destruct (negb (l =? "") && (take 1 l =? "/"))%bool.
  - apply append_cancel_r in H. apply (repoUrl_not_http h b ""). now rewrite append_nil_r.
  - rewrite <- append_assoc in H. apply append_cancel_r in H.
    now apply (repoUrl_not_http h b rpath).
Qed.

(** The trailing extension is the text after the last dot. *)
Lemma afterLastDot_spec l :
  (~ occurs "." l -> afterLastDot l = l)
  /\ (forall base ext,
         l = base ++ "." ++ ext -> ~ occurs "." ext -> afterLastDot l = ext).
Proof.
  rewrite afterLastDot_Split1. split.
  - intros N. now rewrite Split1_no_sep.
  - intros base ext -> N. cbn [append].
    now rewrite last_Split1_append, Split1_no_sep.
Qed.

(** The rule of the classifier, on the text it is given. *)
Lemma resolveUrl_bare_domain w md l rpath root t :
  WebUrl (Repo md) = Some root ->
  Contains l ":" = false ->
  resolveUrl w md l rpath t =
  Ret (if (lookupIP w (candidateHost l) && negb (isMd (afterLastDot l)))%bool
       then "http://" ++ l
       else pathRelative root rpath l,
       (t ++ [EvLookupIP (candidateHost l)])%list).
Proof.
  intros W C. rewrite (resolveUrl_no_colon w md l rpath root t W C).
  now rewrite getFileExtension_md.
Qed.

Example bare_domain_gets_http :
  resolveUrl oneDomain (initReport oneDomain sample) "example.com/page" "/" []
  = Ret ("http://example.com/page", [EvLookupIP "example.com"]).
Proof. reflexivity. Qed.

Example bare_domain_with_md_is_a_path :
  resolveUrl oneDomain (initReport oneDomain sample) "example.com/PAGE.Md" "/" []
  = Ret ("https://github.com/u/r/blob/main/example.com/PAGE.Md",
         [EvLookupIP "example.com"]).
Proof. reflexivity. Qed.

Lemma append_cancel_l (a x y : string) : a ++ x = a ++ y -> x = y.
Proof. induction a as [|c a IH]; cbn [append]; intros H; [exact H | inversion H; auto]. Qed.

(** C1.  For the entry [repo-main/a/b.md] the path in the repository is
    [a/b.md] and the directory the code computes is [/a//]: the target
    [/docs/x.md] resolves to the web root followed by [/docs/x.md], but
    the target [x.md] resolves to the web root followed by [/a//x.md],
    which is not the web root followed by [/a/x.md]. *)
Theorem C1_subdirectory_doubles_the_slash w r t :
  let f := mkZipFile "repo-main/a/b.md" false None None
                     "[there](/docs/x.md) [here](x.md)" in
  let md := initReport w r in
  fileFullPath f = "a/b.md"
  /\ fileRelativePath f = "/a//"
  /\ resolveUrl w md "/docs/x.md" (fileRelativePath f) t
     = Ret (repoUrl r ++ "/docs/x.md", (t ++ [EvLookupIP ""])%list)
  /\ resolveUrl w md "x.md" (fileRelativePath f) t
     = Ret (repoUrl r ++ "/a//x.md", (t ++ [EvLookupIP "x.md"])%list)
  /\ repoUrl r ++ "/a//x.md" <> repoUrl r ++ "/a/x.md".
Proof.
  intros f md.
  split; [reflexivity|]. split; [reflexivity|].
  split; [|split].
  - rewrite (resolveUrl_no_colon w md _ _ (repoUrl r)) by reflexivity.
    change (getFileExtension w "/docs/x.md") with "md".
    change (candidateHost "/docs/x.md") with "".
    cbn [String.eqb Ascii.eqb Bool.eqb negb]. rewrite andb_false_r. reflexivity.
  - rewrite (resolveUrl_no_colon w md _ _ (repoUrl r)) by reflexivity.
    change (getFileExtension w "x.md") with "md".
    change (candidateHost "x.md") with "x.md".
    cbn [String.eqb Ascii.eqb Bool.eqb negb]. rewrite andb_false_r. reflexivity.
  - intros H. apply append_cancel_l in H. discriminate H.
Qed.

(** ** The validator *)

Section Validator.

Variable w : World.

Lemma gets_app t u : gets (t ++ u) = gets t + gets u.
Proof. unfold gets. now rewrite filter_app, length_app. Qed.

Lemma gets_retry t url : gets (t ++ [EvSleep 60; EvGet url]) = S (gets t).
Proof. rewrite gets_app. change (gets [EvSleep 60; EvGet url]) with 1. lia. Qed.

Lemma gets_sleep t : gets (t ++ [EvSleep 60]) = gets t.
Proof. rewrite gets_app. change (gets [EvSleep 60]) with 0. lia. Qed.

Lemma gets_get t url : gets (t ++ [EvGet url]) = S (gets t).
Proof. rewrite gets_app. change (gets [EvGet url]) with 1. lia. Qed.

Lemma Get_nonempty url t :
  url <> "" ->
  Get w url t = Ret (httpGet w (gets t) url, (t ++ [EvGet url])%list).
Proof.
  intros N. unfold Get. destruct (String.eqb url "") eqn:E; [|reflexivity].
  apply String.eqb_eq in E. contradiction.
Qed.

Lemma getUrlWithDelay_S fuel url t :
  url <> "" ->
  getUrlWithDelay w (S fuel) url t =
  match res (httpGet w (gets t) url) with
  | None => Panic nilDeref
  | Some resp =>
      if Z.eqb (StatusCode resp) 429
      then getUrlWithDelay w fuel url (t ++ [EvSleep 60; EvGet url])%list
      else Ret (httpGet w (gets t) url, (t ++ [EvSleep 60; EvGet url])%list)
  end.
Proof.
  intros N. cbn [getUrlWithDelay]. cbv [bind Sleep emit].
  rewrite Get_nonempty by exact N.
  rewrite gets_sleep.
  rewrite <- app_assoc. cbn [app].
  destruct (res (httpGet w (gets t) url)) as [resp|]; [|reflexivity].
  destruct (Z.eqb (StatusCode resp) 429); reflexivity.
Qed.

(** As long as the answers are 429 the retry goes on. *)
Lemma getUrlWithDelay_429 url k :
  url <> "" ->
  forall fuel t,
    (forall i, i < k -> exists r, res (httpGet w (gets t + i) url) = Some r
                                   /\ StatusCode r = 429%Z) ->
    k <= fuel ->
    getUrlWithDelay w fuel url t
    = getUrlWithDelay w (fuel - k) url (t ++ retries k url)%list.
Proof.
  intros N. induction k as [|k IH]; intros fuel t H L.
  - cbn [retries]. now rewrite Nat.sub_0_r, app_nil_r.
  - destruct fuel as [|fuel]; [lia|].
    rewrite getUrlWithDelay_S by exact N.
    destruct (H 0) as (r0 & R0 & S0); [lia|]. rewrite Nat.add_0_r in R0.
    rewrite R0, S0. cbn [Z.eqb Pos.eqb].
    rewrite IH.
    + cbn [Nat.sub retries]. rewrite <- app_assoc. reflexivity.
    + intros i Hi. rewrite gets_retry.
      destruct (H (S i)) as (r & R & S'); [lia|].
      exists r. split; [|exact S'].
      replace (S (gets t) + i) with (gets t + S i) by lia. exact R.
    + lia.
Qed.

(** What the retry returns is a response whose status is not 429. *)
Lemma getUrlWithDelay_returns url :
  forall fuel t r t',
    getUrlWithDelay w fuel url t = Ret (r, t') ->
    exists resp, res r = Some resp /\ StatusCode resp <> 429%Z.
Proof.
  induction fuel as [|fuel IH]; intros t r t' H; [discriminate|].
  cbn [getUrlWithDelay] in H. cbv [bind Sleep emit] in H.
  destruct (Get w url _) as [[g tg]| | |] eqn:G; try discriminate.
  destruct (res g) as [resp|] eqn:R; [|discriminate].
  destruct (Z.eqb (StatusCode resp) 429) eqn:S'.
  - eapply IH; eauto.
  - inversion H; subst. exists resp. split; [exact R|]. now apply Z.eqb_neq.
Qed.

Lemma validate_first_429 fuel l url t first :
  HasPrefix l "mailto:" = false ->
  url <> "" ->
  httpGet w (gets t) url = mkGetResult (Some first) None ->
  StatusCode first = 429%Z ->
  validate w fuel l url t =
  match getUrlWithDelay w fuel url (t ++ [EvGet url])%list with
  | Ret (r, t') =>
      match res r with
      | Some resp => Ret (outcomeOf url (StatusCode resp), t')
      | None => Panic nilDeref
      end
  | Panic why => Panic why
  | Blocked => Blocked
  | OutOfFuel => OutOfFuel
  end.
Proof.
  intros M N G S'. unfold validate. rewrite M. unfold bind at 1.
  rewrite Get_nonempty by exact N. rewrite G. cbn [err res].
  cbv [bind deref ret]. rewrite S'. cbn [Z.eqb Pos.eqb].
  destruct (getUrlWithDelay w fuel url _) as [[r t']| | |]; try reflexivity.
  destruct (res r) as [resp|]; [|reflexivity].
  unfold outcomeOf. destruct (Z.geb (StatusCode resp) 400); reflexivity.
Qed.

(** Whatever [validate] returns for a link whose first GET came back
    without error is the outcome of a status other than 429. *)
Lemma validate_status fuel l url t o t' :
  HasPrefix l "mailto:" = false ->
  url <> "" ->
  err (httpGet w (gets t) url) = None ->
  validate w fuel l url t = Ret (o, t') ->
  exists status, status <> 429%Z /\ o = outcomeOf url status.
Proof.
  intros M N E V. unfold validate in V. rewrite M in V.
  apply bind_Ret in V as (r & t1 & G & V).
  rewrite Get_nonempty in G by exact N. inversion G; subst r t1. clear G.
  rewrite E in V.
  apply bind_Ret in V as (first & t2 & D & V). apply deref_Ret in D as [D <-].
  apply bind_Ret in V as (final & t3 & F & V).
  apply bind_Ret in V as (resp & t4 & D' & V). apply deref_Ret in D' as [-> <-].
  assert (NR : StatusCode resp <> 429%Z).
  { destruct (Z.eqb (StatusCode first) 429) eqn:S1.
    - apply bind_Ret in F as (r' & t5 & F & R). apply ret_Ret in R as [R _].
      apply getUrlWithDelay_returns in F as (resp' & R' & NR).
      rewrite R' in R. now inversion R; subst.
    - apply ret_Ret in F as [F _]. rewrite D in F. inversion F; subst.
      now apply Z.eqb_neq. }
  exists (StatusCode resp). split; [exact NR|].
  unfold outcomeOf. destruct (Z.geb (StatusCode resp) 400);
    apply ret_Ret in V as [<- _]; reflexivity.
Qed.

(** C4.  As long as the answers are 429 the validator sleeps 60 seconds
    and GETs the same URL again, without bound, and the first answer
    with another status alone gives the outcome.  But a retry that ends
    in a network error gives no outcome at all: when the GET of a retry
    returns no response, [getUrlWithDelay] dereferences the nil response
    and [validate] ends in a panic, whereas the same error on the first
    GET is reported as a failed link.  In full: an error on the first GET
    gives the outcome [[ERR] Couldn't reach URL]; every outcome
    [validate] returns for a link whose first GET came back without error
    is the outcome of a status other than 429; and when the first GET is
    answered 429 and the next [k] GETs too, then an answer with another
    status after them gives the outcome of that status after [k + 1]
    rounds, no response after them gives the panic, and a budget of [k]
    rounds or fewer is used up while the retry still goes on. *)
Theorem C4_network_error_in_the_retry_panics l url t :
  HasPrefix l "mailto:" = false ->
  url <> "" ->
  (forall fuel e,
      err (httpGet w (gets t) url) = Some e ->
      validate w fuel l url t
      = Ret (("[ERR] Couldn't reach URL: " ++ e, false), (t ++ [EvGet url])%list))
  /\ (forall fuel o t',
         err (httpGet w (gets t) url) = None ->
         validate w fuel l url t = Ret (o, t') ->
         exists status, status <> 429%Z /\ o = outcomeOf url status)
  /\ (forall first k,
         httpGet w (gets t) url = mkGetResult (Some first) None ->
         StatusCode first = 429%Z ->
         (forall i, 1 <= i <= k ->
                    exists r, res (httpGet w (gets t + i) url) = Some r
                              /\ StatusCode r = 429%Z) ->
         (forall final fuel,
             res (httpGet w (gets t + S k) url) = Some final ->
             StatusCode final <> 429%Z ->
             k < fuel ->
             validate w fuel l url t
             = Ret (outcomeOf url (StatusCode final),
                    (t ++ EvGet url :: retries (S k) url)%list))
         /\ (forall fuel,
                res (httpGet w (gets t + S k) url) = None ->
                k < fuel ->
                validate w fuel l url t = Panic nilDeref)
         /\ (forall fuel, fuel <= k -> validate w fuel l url t = OutOfFuel)).
Proof.
  intros M N. split.
  { intros fuel e E. unfold validate. rewrite M. unfold bind.
    rewrite Get_nonempty by exact N. rewrite E. reflexivity. }
  split.
  { intros fuel o t' E V. now apply (validate_status fuel l url t o t'). }
  intros first k G S' H.
  pose proof (gets_get t url) as G1.
  assert (H' : forall i, i < k ->
      exists r, res (httpGet w (gets (t ++ [EvGet url]) + i) url) = Some r
                /\ StatusCode r = 429%Z).
  { intros i Hi. destruct (H (S i)) as (r & R & Sr); [lia|].
    exists r. split; [|exact Sr]. rewrite G1.
    replace (S (gets t) + i) with (gets t + S i) by lia. exact R. }
  assert (T : forall u, ((t ++ [EvGet url]) ++ u = t ++ EvGet url :: u)%list).
  { intros u. now rewrite <- app_assoc. }
  assert (GK : gets ((t ++ [EvGet url]) ++ retries k url) = gets t + S k).
  { rewrite gets_app, G1. clear. induction k as [|k IH]; cbn [retries]; [cbn; lia|].
    change (gets (EvSleep 60 :: EvGet url :: retries k url)) with (S (gets (retries k url))).
    lia. }
  split; [|split].
  - intros final fuel F NF L.
    rewrite (validate_first_429 fuel l url t first) by assumption.
    rewrite (getUrlWithDelay_429 url k N fuel _ H') by lia.
    destruct (fuel - k) as [|f] eqn:D; [lia|].
    rewrite getUrlWithDelay_S by exact N. rewrite GK, F.
    apply Z.eqb_neq in NF. rewrite NF. rewrite F.
    f_equal. f_equal. rewrite T, <- app_assoc. cbn [app]. f_equal. f_equal.
    clear. induction k as [|k IH]; [reflexivity|].
    cbn [retries app]. do 2 f_equal. exact IH.
  - intros fuel F L.
    rewrite (validate_first_429 fuel l url t first) by assumption.
    rewrite (getUrlWithDelay_429 url k N fuel _ H') by lia.
    destruct (fuel - k) as [|f] eqn:D; [lia|].
    rewrite getUrlWithDelay_S by exact N. rewrite GK, F. reflexivity.
  - intros fuel L.
    rewrite (validate_first_429 fuel l url t first) by assumption.
    assert (H'' : forall i, i < fuel ->
      exists r, res (httpGet w (gets (t ++ [EvGet url]) + i) url) = Some r
                /\ StatusCode r = 429%Z) by (intros i Hi; apply H'; lia).
    rewrite (getUrlWithDelay_429 url fuel N fuel _ H'') by lia.
    rewrite Nat.sub_diag. reflexivity.
Qed.

End Validator.

Lemma C4_witness :
  validate (droppedAfter 2) 5 "https://x.io" "https://x.io" [] = Panic nilDeref.
Proof.
  refine (proj1 (proj2 (proj2 (proj2 (C4_network_error_in_the_retry_panics
                                        (droppedAfter 2) "https://x.io" "https://x.io" [] _ _))
                              (mkResponse 429 "") 1 _ _ _))
                5 _ _).
  - reflexivity.
  - discriminate.
  - reflexivity.
  - reflexivity.
  - intros i Hi. exists (mkResponse 429 "").
    destruct i as [|[|i]]; [lia | split; reflexivity | lia].
  - reflexivity.
  - lia.
Defined.

(** ** The archive fetcher *)

Lemma gets_mkdir_create t a b : gets (t ++ [EvMkdirAll a] ++ [EvCreate b]) = gets t.
Proof. rewrite gets_app. change (gets ([EvMkdirAll a] ++ [EvCreate b])) with 0. lia. Qed.

(** [run_download Hm Hc Hu Hg]: run [downloadGitArchive] in the goal up to
    the answer [Hg] of its GET, the directory ([Hm]) and the file ([Hc])
    being created and the URL not empty ([Hu]). *)
Ltac run_download Hm Hc Hu Hg :=
  unfold downloadGitArchive; cbv [bind emit];
  rewrite Hm, Hc;
  rewrite Get_nonempty by exact Hu;
  rewrite <- app_assoc, gets_mkdir_create, Hg.

Section Fetcher.

Variable w : World.

(** C5.  When the directory and the file are created, the GET returns a
    response without error and the copy succeeds, [downloadGitArchive]
    returns no error and has copied the body of the response into the
    archive file, whatever the status of the response is: a 404 is a
    success that stores the error body. *)
Theorem C5_download_succeeds_on_any_status md t resp :
  let fullpath := Join (ZipPath md) (ZipName md) in
  mkdirAll w (ZipPath md) = None ->
  create w fullpath = None ->
  ZipUrl md <> "" ->
  httpGet w (gets t) (ZipUrl md) = mkGetResult (Some resp) None ->
  copy w fullpath (Body resp) = None ->
  downloadGitArchive w md t
  = Ret ((md, None),
         (t ++ [EvMkdirAll (ZipPath md); EvCreate fullpath;
                EvGet (ZipUrl md); EvCopy fullpath (Body resp)])%list).
Proof.
  intros fullpath Hm Hc Hu Hg Hw. unfold fullpath in *.
  run_download Hm Hc Hu Hg.
  cbn [err res deref]. cbv [ret]. rewrite Hw. cbv [ret].
  rewrite <- !app_assoc. reflexivity.
Qed.

End Fetcher.

Lemma C5_witness :
  downloadGitArchive notFound (initReport notFound sample) []
  = Ret ((initReport notFound sample, None),
         [EvMkdirAll "/w/.archives/r"; EvCreate "/w/.archives/r/r.zip";
          EvGet "https://github.com/u/r/archive/refs/heads/main.zip";
          EvCopy "/w/.archives/r/r.zip" "Not Found"]).
Proof.
  apply (C5_download_succeeds_on_any_status notFound (initReport notFound sample) []
           (mkResponse 404 "Not Found")).
  - reflexivity.
  - reflexivity.
  - discriminate.
  - reflexivity.
  - reflexivity.
Defined.

(** ** The repository processor *)

Lemma storeState_nil md s t : State md = None -> storeState md s t = Panic nilDeref.
Proof. intros H. unfold storeState, bind. now rewrite H. Qed.

Section Processor.

Variable w : World.

Lemma foldM_inv {A B} (P : A -> Prop) (f : A -> B -> M A) :
  (forall a b t a' t', P a -> f a b t = Ret (a', t') -> P a') ->
  forall l a t a' t', P a -> foldM f l a t = Ret (a', t') -> P a'.
Proof.
  intros Hf. induction l as [|b l IH]; intros a t a' t' Pa H; cbn [foldM] in H.
  - apply ret_Ret in H as [<- _]. exact Pa.
  - apply bind_Ret in H as (a1 & t1 & H1 & H2). eauto.
Qed.

(** [checkMdLink] only reads the report: a round of the loop keeps it or
    clears [AllLinksOK] and records the link. *)
Lemma checkMatch_Ret fuel rpath fpath md links url t md' links' t' :
  checkMatch w fuel rpath fpath (md, links) url t = Ret ((md', links'), t') ->
  (md' = md /\ links' = links)
  \/ (exists state, md' = setAllLinksOK md (Some false)
                    /\ links' = (links ++ [mkMdLink url state false])%list).
Proof.
  unfold checkMatch. intros H.
  apply bind_Ret in H as ([state ok] & t1 & _ & H).
  destruct ok; cbn [negb] in H.
  - apply ret_Ret in H as [H _]. inversion H. now left.
  - apply bind_Ret in H as (b & t2 & _ & H).
    apply ret_Ret in H as [H _]. inversion H. right. now exists state.
Qed.

Lemma checkMatch_inv fuel rpath fpath acc url t acc' t' :
  loopInv acc ->
  checkMatch w fuel rpath fpath acc url t = Ret (acc', t') -> loopInv acc'.
Proof.
  destruct acc as [md links], acc' as [md' links']. intros [[S F] L] H.
  apply checkMatch_Ret in H as [[-> ->]|(state & -> & ->)].
  - repeat split; assumption.
  - repeat split; cbn; auto.
Qed.

Lemma findAndCheckMdFile_inv fuel md f t md' t' :
  reportInv md ->
  findAndCheckMdFile w fuel md f t = Ret (md', t') -> reportInv md'.
Proof.
  intros I H. pose proof I as [S F]. unfold findAndCheckMdFile in H.
  destruct (negb (IsDir f)); [|apply ret_Ret in H as [<- _]; exact I].
  destruct (String.eqb _ "md"); [|apply ret_Ret in H as [<- _]; exact I].
  destruct (openErr f).
  { apply bind_Ret in H as (a & t1 & H & _). apply deref_Ret in H as [H _]. congruence. }
  destruct (readErr f).
  { apply bind_Ret in H as (a & t1 & H & _). apply deref_Ret in H as [H _]. congruence. }
  apply bind_Ret in H as ([md1 links] & t1 & H1 & H).
  apply (foldM_inv loopInv) in H1.
  - destruct H1 as [[S1 F1] L1]. cbn [fst snd] in *.
    destruct (Nat.ltb 0 (List.length links)) eqn:E.
    + assert (A : AllLinksOK md1 = Some false).
      { apply L1. intros ->. discriminate E. }
      destruct (MdFileList md1); apply ret_Ret in H as [<- _]; split; cbn; auto.
    + apply ret_Ret in H as [<- _]. split; assumption.
  - intros a b t0 a' t0'. apply checkMatch_inv.
  - split; [exact I | intros N; now contradiction N].
Qed.

Lemma checkMdFiles_inv fuel md t md' t' :
  reportInv md -> checkMdFiles w fuel md t = Ret (md', t') -> reportInv md'.
Proof.
  intros I H. unfold checkMdFiles in H.
  apply bind_Ret in H as (u1 & t1 & _ & H).
  apply bind_Ret in H as (u2 & t2 & _ & H).
  destruct (openReader w _) as [files|e].
  - apply bind_Ret in H as (md1 & t3 & H1 & H).
    apply (foldM_inv reportInv) in H1; [|apply findAndCheckMdFile_inv | exact I].
    apply bind_Ret in H as (u3 & t4 & _ & H).
    destruct (removeAll w _).
    + rewrite storeState_nil in H by apply H1. discriminate.
    + apply ret_Ret in H as [<- _]. exact H1.
  - rewrite storeState_nil in H by apply I. discriminate.
Qed.

(** With an unset state the fetcher returns only without an error: every
    failure path stores through the nil [md.State]. *)
Lemma downloadGitArchive_Ret md t md' e t' :
  State md = None ->
  downloadGitArchive w md t = Ret ((md', e), t') -> md' = md /\ e = None.
Proof.
  intros S H. unfold downloadGitArchive in H.
  assert (stores : forall A s u (k : MdReport -> M A) x,
             bind (storeState md s) k u <> Ret x).
  { intros A s u k x. unfold bind. now rewrite storeState_nil. }
  skip_in H. destruct (mkdirAll w _); [now apply stores in H|].
  skip_in H. destruct (create w _); [now apply stores in H|].
  step_in H. destruct (err _); [now apply stores in H|].
  skip_in H. skip_in H. destruct (copy w _ _); [now apply stores in H|].
  apply ret_Ret in H as [H _]. inversion H. auto.
Qed.

(** The only reports [CheckGitMdLinks] ever sends. *)
Lemma CheckGitMdLinks_reports fuel r wg t md t' :
  CheckGitMdLinks w fuel r wg t = Ret (md, t') ->
  (State md = Some noLinksMsg /\ MdFileList md = None)
  \/ (State md = None /\ MdFileList md <> None /\ AllLinksOK md = Some false).
Proof.
  unfold CheckGitMdLinks. intros H.
  apply bind_Ret in H as ([md1 e] & t1 & H1 & H).
  apply downloadGitArchive_Ret in H1 as [-> ->]; [|reflexivity].
  apply bind_Ret in H as (wg' & t2 & _ & H).
  apply bind_Ret in H as (md2 & t3 & H2 & H).
  apply bind_Ret in H2 as (u & t4 & _ & H2).
  apply checkMdFiles_inv in H2 as [S F]; [|split; [reflexivity | now left]].
  unfold finalState in H. destruct (MdFileList md2) as [files|] eqn:E.
  - destruct F as [F|F]; [discriminate|].
    rewrite F in H. cbv [bind deref ret] in H. inversion H; subst md.
    right. rewrite E. repeat split; [exact S | discriminate | exact F].
  - apply ret_Ret in H as [<- _]. left. split; [reflexivity | exact E].
Qed.

End Processor.

Lemma ZipUrl_nonempty w r : ZipUrl (initReport w r) <> "".
Proof. cbn. destruct (HTMLURL r); discriminate. Qed.

(** C6.  When the GET of the archive fails, [CheckGitMdLinks] ends in a
    nil dereference (the failure text is stored through the nil
    [md.State]) and sends no report; and a report that did hold a failure
    text and no file list would leave lines 307 to 313 with the text
    replaced by the no-links message. *)
Theorem C6_failed_download_panics w fuel r wg t e :
  let md := initReport w r in
  mkdirAll w (ZipPath md) = None ->
  create w (Join (ZipPath md) (ZipName md)) = None ->
  httpGet w (gets t) (ZipUrl md) = mkGetResult None (Some e) ->
  CheckGitMdLinks w fuel r wg t = Panic nilDeref
  /\ (forall old t',
         finalState (setState md (Some old)) t'
         = Ret (setState md (Some noLinksMsg), t')).
Proof.
  intros md Hm Hc Hg. split; [|reflexivity].
  assert (D : downloadGitArchive w md t = Panic nilDeref).
  { pose proof (ZipUrl_nonempty w r) as Hu. fold md in Hu.
    run_download Hm Hc Hu Hg. reflexivity. }
  unfold CheckGitMdLinks. fold md. unfold bind at 1. now rewrite D.
Qed.

Lemma C6_witness :
  CheckGitMdLinks unreachable 0 sample 1%Z [] = Panic nilDeref.
Proof.
  refine (proj1 (C6_failed_download_panics unreachable 0 sample 1%Z []
                   "dial tcp: connection refused" _ _ _)); reflexivity.
Defined.

(** C7.  For the repository whose archive holds the one file [README.md]
    with the one link [[site](https://example.com)], answered 200, the
    report has no file list and its state is the no-links message, which
    is not the no-broken-links message; and no run of [CheckGitMdLinks]
    ever sends a report whose state is the no-broken-links message. *)
Theorem C7_healthy_repository_reports_no_links :
  (forall fuel,
      CheckGitMdLinks healthy fuel sample 1%Z []
      = Ret (setState (initReport healthy sample) (Some noLinksMsg),
             [EvMkdirAll "/w/.archives/r"; EvCreate "/w/.archives/r/r.zip";
              EvGet "https://github.com/u/r/archive/refs/heads/main.zip";
              EvCopy "/w/.archives/r/r.zip" "PK";
              EvPrintln "r.zip"; EvOpenReader "/w/.archives/r/r.zip";
              EvGet "https://example.com";
              EvRemoveAll "/w/.archives/r"]))
  /\ noLinksMsg <> noBrokenMsg
  /\ (forall w fuel r wg t md t',
         CheckGitMdLinks w fuel r wg t = Ret (md, t') ->
         State md <> Some noBrokenMsg).
Proof.
  split; [intros fuel; reflexivity|]. split; [discriminate|].
  intros w fuel r wg t md t' H.
  apply CheckGitMdLinks_reports in H as [[S _]|[S _]]; rewrite S; discriminate.
Qed.

Lemma C7_witness :
  State (setState (initReport healthy sample) (Some noLinksMsg)) <> Some noBrokenMsg.
Proof.
  refine (proj2 (proj2 C7_healthy_repository_reports_no_links)
                healthy 0 sample 1%Z [] _ _ _).
  reflexivity.
Defined.

(** C8.  When a markdown entry cannot be opened, or is opened and cannot
    be read, while the state of the report is still unset,
    [findAndCheckMdFile] ends in a nil dereference. *)
Theorem C8_unreadable_entry_panics w fuel md f t e :
  State md = None ->
  IsDir f = false ->
  getFileExtension w (Base (HeaderName f)) = "md" ->
  openErr f = Some e \/ (openErr f = None /\ readErr f = Some e) ->
  findAndCheckMdFile w fuel md f t = Panic nilDeref.
Proof.
  intros S D X E. unfold findAndCheckMdFile. rewrite D, X. cbn [negb ToLower].
  change (String.eqb _ "md") with true. cbv iota.
  destruct E as [->|[-> ->]]; unfold bind; rewrite S; reflexivity.
Qed.

Lemma C8_witness :
  findAndCheckMdFile unreadable 0 (initReport unreadable sample)
    (mkZipFile "r-main/README.md" false (Some "zip: checksum error") None "") []
  = Panic nilDeref.
Proof.
  apply (C8_unreadable_entry_panics unreadable 0 (initReport unreadable sample)
           (mkZipFile "r-main/README.md" false (Some "zip: checksum error") None "")
           [] "zip: checksum error").
  - reflexivity.
  - reflexivity.
  - reflexivity.
  - left. reflexivity.
Defined.

Example unreadable_entry_ends_the_run fuel :
  CheckGitMdLinks unreadable fuel sample 1%Z [] = Panic nilDeref.
Proof. reflexivity. Qed.

(** ** The workers of [RunCLI] *)

(** A worker whose copy of the counter is above one when it starts never
    returns from [wg.Wait()], although its download went well. *)
Lemma CheckGitMdLinks_blocks w fuel r wg t resp :
  let md := initReport w r in
  mkdirAll w (ZipPath md) = None ->
  create w (Join (ZipPath md) (ZipName md)) = None ->
  httpGet w (gets t) (ZipUrl md) = mkGetResult (Some resp) None ->
  copy w (Join (ZipPath md) (ZipName md)) (Body resp) = None ->
  (1 < wg)%Z ->
  CheckGitMdLinks w fuel r wg t = Blocked.
Proof.
  intros md Hm Hc Hg Hw L.
  assert (D : downloadGitArchive w md t
              = Ret ((md, None),
                     (t ++ [EvMkdirAll (ZipPath md);
                            EvCreate (Join (ZipPath md) (ZipName md));
                            EvGet (ZipUrl md);
                            EvCopy (Join (ZipPath md) (ZipName md)) (Body resp)])%list)).
  { pose proof (ZipUrl_nonempty w r) as Hu. fold md in Hu.
    run_download Hm Hc Hu Hg.
    cbn [err res deref]. cbv [ret]. rewrite Hw. cbv [ret].
    rewrite <- !app_assoc. reflexivity. }
  unfold CheckGitMdLinks. fold md. unfold bind at 1. rewrite D.
  unfold bind at 1. unfold wgDone, wgAdd.
  replace (Z.ltb (wg + -1) 0) with false by (symmetry; apply Z.ltb_ge; lia).
  cbv [ret]. unfold bind at 1. unfold bind at 1. unfold wgWait.
  replace (Z.eqb (wg + -1) 0) with false by (symmetry; apply Z.eqb_neq; lia).
  reflexivity.
Qed.

Example second_worker_blocks fuel :
  CheckGitMdLinks healthy fuel sample 2%Z [] = Blocked.
Proof. reflexivity. Qed.

Example first_worker_goes_on fuel :
  exists md t, CheckGitMdLinks healthy fuel sample 1%Z [] = Ret (md, t).
Proof. eexists. eexists. reflexivity. Qed.

Module FleetFacts.

Import Fleet.

Lemma wstep_inv i a b : wstep a b -> workerInv i a -> workerInv i b.
Proof.
  intros H. destruct H; unfold workerInv; cbn; intros I; try assumption; try exact Logic.I; lia.
Qed.

Lemma nth_error_middle {A} (l1 : list A) a l2 i x b :
  nth_error (l1 ++ b :: l2) i = Some x ->
  (i = List.length l1 /\ x = b) \/ (i <> List.length l1 /\ nth_error (l1 ++ a :: l2) i = Some x).
Proof.
  intros H. destruct (Nat.eq_dec i (List.length l1)) as [->|N].
  - left. split; [reflexivity|]. rewrite nth_error_app2, Nat.sub_diag in H by lia.
    cbn in H. now inversion H.
  - right. split; [exact N|].
    destruct (Nat.lt_ge_cases i (List.length l1)) as [L|L].
    + rewrite nth_error_app1 in * by lia. exact H.
    + rewrite nth_error_app2 in * by lia.
      destruct (i - List.length l1) as [|j] eqn:E; [lia|]. exact H.
Qed.

Lemma step_inv s s' : step s s' -> fleetInv s -> fleetInv s'.
Proof.
  intros H [M W]. destruct H as [m n ws A|m n ws1 a b ws2 A H];
    cbn [mainWg workers] in *; split; cbn [mainWg workers].
  - rewrite length_app. cbn [List.length]. lia.
  - intros i x E. destruct (Nat.lt_ge_cases i (List.length ws)) as [L|L].
    + rewrite nth_error_app1 in E by lia. now apply W.
    + rewrite nth_error_app2 in E by lia.
      destruct (i - List.length ws)%nat as [|j] eqn:D.
      * cbn in E. inversion E. unfold workerInv. cbn. lia.
      * destruct j; discriminate.
  - rewrite length_app in *. cbn [List.length] in *. exact M.
  - intros i x E. apply (nth_error_middle ws1 a) in E as [[-> ->]|[N E]].
    + apply (wstep_inv _ a); [exact H|]. apply W.
      rewrite nth_error_app2, Nat.sub_diag by lia. reflexivity.
    + now apply W.
Qed.

Lemma reach_inv n s : reach (start n) s -> fleetInv s.
Proof.
  intros H. remember (start n) as s0 eqn:E. induction H as [s|s1 s2 s3 H IH S].
  - subst. split; [reflexivity|]. intros [|i] x; discriminate.
  - eapply step_inv; eauto.
Qed.

End FleetFacts.

(** C9.  With two repositories the program reaches a state in which the
    first worker is in [checkMdFiles] while the second is still
    downloading; and for any number of repositories only the first
    worker ever gets past [wg.Wait()]: a worker that is checking,
    finishing or has delivered its report has index 0. *)
Theorem C9_private_wait_groups_are_no_barrier :
  (exists s,
      Fleet.reach (Fleet.start 2%nat) s
      /\ Fleet.workers s = [Fleet.mkWorker Fleet.Checking 0%Z;
                            Fleet.mkWorker Fleet.Downloading 2%Z])
  /\ (forall n s i x,
         Fleet.reach (Fleet.start n) s ->
         nth_error (Fleet.workers s) i = Some x ->
         Fleet.place_of x = Fleet.Checking \/ Fleet.place_of x = Fleet.Finishing
         \/ Fleet.place_of x = Fleet.Delivered ->
         i = 0).
Proof.
  split.
  - exists (Fleet.mkFleet 2%Z 0%nat [Fleet.mkWorker Fleet.Checking 0%Z;
                               Fleet.mkWorker Fleet.Downloading 2%Z]).
    split; [|reflexivity].
    eapply Fleet.reach_step.
    2:{ apply (Fleet.Work 2%Z 0%nat [] (Fleet.mkWorker Fleet.Waiting 0%Z) _
                 [Fleet.mkWorker Fleet.Downloading 2%Z]);
        [reflexivity | apply Fleet.WaitReturns]. }
    eapply Fleet.reach_step.
    2:{ apply (Fleet.Work 2%Z 0%nat [] (Fleet.mkWorker Fleet.Arrived 1%Z)
                 (Fleet.mkWorker Fleet.Waiting (1 - 1)%Z)
                 [Fleet.mkWorker Fleet.Downloading 2%Z]);
        [reflexivity | apply Fleet.Done; lia]. }
    eapply Fleet.reach_step.
    2:{ apply (Fleet.Work 2%Z 0%nat [] (Fleet.mkWorker Fleet.Downloading 1%Z) _
                 [Fleet.mkWorker Fleet.Downloading 2%Z]);
        [reflexivity | apply Fleet.DownloadOk]. }
    eapply Fleet.reach_step.
    2:{ apply (Fleet.Spawn 1%Z 0%nat [Fleet.mkWorker Fleet.Downloading 1%Z]). reflexivity. }
    eapply Fleet.reach_step.
    2:{ apply (Fleet.Spawn 0%Z 1%nat []). reflexivity. }
    apply Fleet.reach_refl.
  - intros n s i x R E P.
    apply FleetFacts.reach_inv in R as [_ W]. specialize (W i x E).
    unfold Fleet.workerInv in W.
    destruct P as [P|[P|P]]; rewrite P in W; exact W.
Qed.

Lemma C9_witness :
  ~ exists s,
      Fleet.reach (Fleet.start 2%nat) s
      /\ nth_error (Fleet.workers s) 1 = Some (Fleet.mkWorker Fleet.Delivered 1%Z).
Proof.
  intros (s & R & E).
  assert (H : 1 = 0); [|discriminate H].
  apply (proj2 C9_private_wait_groups_are_no_barrier 2%nat s 1
               (Fleet.mkWorker Fleet.Delivered 1%Z) R E).
  right. right. reflexivity.
Defined.

(** * Links as they are written, and the rest of the code *)

(** ** [getFileExtension] *)

(** X1.  The extension of a name is the lower case of the text after its
    last dot; a name without a dot is, in lower case, its own
    extension. *)
Theorem getFileExtension_after_last_dot w name :
  (~ occurs "." name -> getFileExtension w name = ToLower (caseRanges w) name)
  /\ (forall base ext,
         name = base ++ "." ++ ext -> ~ occurs "." ext ->
         getFileExtension w name = ToLower (caseRanges w) ext).
Proof.
  assert (D : forall s, ~ occurs "." s ->
                        Split1 (ToLower (caseRanges w) s) "." = [ToLower (caseRanges w) s]).
  { intros s N. apply Split1_no_sep. intros o. apply N.
    exact (lowered_dot _ _ (ToLower_lowered (caseRanges w) s) o). }
  split.
  - intros N. rewrite getFileExtension_eq, D by exact N. reflexivity.
  - intros base ext -> N. rewrite getFileExtension_eq. cbn [append].
    rewrite ToLower_append_ascii by reflexivity.
    change (lower ".") with "."%char.
    rewrite last_Split1_append, D by exact N. reflexivity.
Qed.

Lemma getFileExtension_after_last_dot_witness :
  getFileExtension healthy ("Caf" ++ capitalEAcute ++ "." ++ capitalEAcute ++ "T")
  = ToLower latin1 (capitalEAcute ++ "T").
Proof.
  apply (proj2 (getFileExtension_after_last_dot healthy
                  ("Caf" ++ capitalEAcute ++ "." ++ capitalEAcute ++ "T"))
               ("Caf" ++ capitalEAcute) (capitalEAcute ++ "T")).
  - reflexivity.
  - simpl. intros H. repeat (destruct H as [H|H]; [discriminate H|]). exact H.
Defined.

Lemma nth_error_last {A} (l : list A) d :
  l <> [] -> nth_error l (List.length l - 1) = Some (List.last l d).
Proof.
  induction l as [|x l IH]; intros N; [congruence|].
  destruct l as [|y l]; [reflexivity|].
  replace (List.length (x :: y :: l) - 1) with (S (List.length (y :: l) - 1))
    by (cbn [List.length]; lia).
  cbn [nth_error]. rewrite IH by discriminate. reflexivity.
Qed.

Lemma hasUpper_pieces s sep :
  hasUpper s = false -> Forall (fun x => hasUpper x = false) (Split1 s sep).
Proof.
  induction s as [|c s IH]; cbn [hasUpper Split1]; intros H.
  - repeat constructor.
  - apply orb_false_iff in H as [H1 H2]. specialize (IH H2).
    destruct (Ascii.eqb c sep); [now constructor|].
    destruct (Split1 s sep) as [|x l].
    + constructor; [|constructor]. cbn [hasUpper]. now rewrite H1.
    + inversion IH; subst. constructor; [|assumption].
      cbn [hasUpper]. rewrite H1. assumption.
Qed.

(** X2.  The index [len(ext)-1] of line 122 is in range for every name,
    since a split is never empty, so [getFileExtension] does not fault;
    and the extension it returns holds no dot and no upper-case ASCII
    letter. *)
Theorem getFileExtension_index_in_range w s :
  let ext := Split1 (ToLower (caseRanges w) s) "." in
  ext <> []
  /\ List.length ext - 1 < List.length ext
  /\ nth_error ext (List.length ext - 1) = Some (getFileExtension w s)
  /\ ~ occurs "." (getFileExtension w s)
  /\ hasUpper (getFileExtension w s) = false.
Proof.
  intros ext.
  assert (N : ext <> []) by apply Split1_nonempty.
  split; [exact N|]. split.
  { destruct ext; [congruence | cbn [List.length]; lia]. }
  split; [now apply nth_error_last|].
  rewrite getFileExtension_eq. fold ext. split.
  - apply (last_Forall (fun x => ~ occurs "." x)); [exact N | apply Split1_pieces].
  - apply (last_Forall (fun x => hasUpper x = false)); [exact N|].
    apply hasUpper_pieces.
    exact (lowered_no_upper _ _ (ToLower_lowered (caseRanges w) s)).
Qed.

(** ** The link parser *)

Lemma rmatch_Seq total a b s k :
  rmatch total (Seq a b) s k = rmatch total a s (fun s' => rmatch total b s' k).
Proof. reflexivity. Qed.

Lemma rmatch_Alt total a b s k :
  rmatch total (Alt a b) s k = orElse (rmatch total a s k) (rmatch total b s k).
Proof. reflexivity. Qed.

Lemma rmatch_Star total g a s k :
  rmatch total (Star g a) s k = star (rmatch total a) g k (len s) s.
Proof. reflexivity. Qed.

Lemma rmatch_Chr total c d s k :
  rmatch total (Chr c) (String d s) k = if Ascii.eqb c d then k s else None.
Proof. reflexivity. Qed.

Lemma rmatch_Chr_nil total c k : rmatch total (Chr c) "" k = None.
Proof. reflexivity. Qed.

Lemma star_O body g k s : star body g k 0 s = k s.
Proof. reflexivity. Qed.

(** A lazy star whose body and whose continuation both fail on [s]. *)
Lemma star_lazy_stuck body k n s :
  k s = None -> (forall k', body s k' = None) -> star body false k n s = None.
Proof.
  intros K B. destruct n; [exact K|]. rewrite star_lazy_S, K, B. reflexivity.
Qed.

(** The link pattern does not match where a byte other than a bracket
    stands, nor at the end of the text. *)
Lemma rmatch_Bol total s k :
  rmatch total Bol s k = if Nat.eqb (len s) total then k s else None.
Proof. reflexivity. Qed.

Lemma linkRe_no_bracket total c s :
  c <> "["%char -> c <> "]"%char -> rmatch total linkRe (String c s) Some = None.
Proof.
  intros N1 N2. unfold linkRe. rewrite rmatch_Alt, rmatch_Seq, rmatch_Chr.
  replace (Ascii.eqb "[" c) with false by (symmetry; apply Ascii.eqb_neq; congruence).
  cbn [orElse]. rewrite rmatch_Seq, rmatch_Bol.
  destruct (Nat.eqb _ total); [|reflexivity].
  rewrite rmatch_Seq, rmatch_Star.
  apply star_lazy_stuck.
  - rewrite rmatch_Seq, rmatch_Chr.
    now replace (Ascii.eqb "]" c) with false by (symmetry; apply Ascii.eqb_neq; congruence).
  - intros k'. rewrite rmatch_Chr.
    now replace (Ascii.eqb "[" c) with false by (symmetry; apply Ascii.eqb_neq; congruence).
Qed.

Lemma linkRe_nil total : rmatch total linkRe "" Some = None.
Proof. unfold linkRe. cbn. destruct total; reflexivity. Qed.

Lemma find_linkRe_text total text s :
  noBrackets text -> find total linkRe (text ++ s) = find total linkRe s.
Proof.
  induction text as [|c text IH]; intros N; [reflexivity|].
  destruct N as (N1 & N2 & N3). cbn [append]. rewrite find_cons.
  rewrite linkRe_no_bracket by assumption. now apply IH.
Qed.

Lemma find_linkRe_tail total tail : noBrackets tail -> find total linkRe tail = None.
Proof.
  intros N. rewrite <- (append_nil_r tail), find_linkRe_text by exact N.
  cbn [find]. now rewrite linkRe_nil.
Qed.

(** The lazy [.*?] before the closing parenthesis. *)
Lemma lazy_dot_target total target rest n :
  plainTarget target -> len target <= n ->
  star (rmatch total (Cls dot)) false (fun s => rmatch total (Chr ")") s Some)
       n (target ++ ")" ++ rest) = Some rest.
Proof.
  revert n. induction target as [|c target IH]; intros n P L.
  - destruct n; reflexivity.
  - destruct n as [|n]; [unfold len in L; simpl in L; lia|].
    destruct P as (P1 & P2 & P3).
    change (String c target ++ ")" ++ rest) with (String c (target ++ ")" ++ rest)).
    rewrite star_lazy_S, rmatch_Chr.
    replace (Ascii.eqb ")" c) with false by (symmetry; apply Ascii.eqb_neq; congruence).
    unfold orElse. rewrite rmatch_Cls. unfold dot at 1.
    replace (Ascii.eqb c "010") with false by (symmetry; apply Ascii.eqb_neq; congruence).
    cbn [negb].
    replace (Nat.ltb _ _) with true
      by (symmetry; apply Nat.ltb_lt; unfold len; simpl; lia).
    apply IH; [exact P3|]. unfold len in *. simpl in L. lia.
Qed.

(** The lazy [[^\[\]]*?] over the label. *)
Lemma lazy_label total label target rest n :
  noBrackets label -> plainTarget target -> len label <= n ->
  star (rmatch total (Cls notBracket)) false
       (fun s => rmatch total
                   (Seq (Chr "]") (Seq (Chr "(") (Seq (Star false (Cls dot)) (Chr ")"))))
                   s Some)
       n (label ++ "](" ++ target ++ ")" ++ rest) = Some rest.
Proof.
  revert n. induction label as [|c label IH]; intros n P T L.
  - assert (E : rmatch total
                  (Seq (Chr "]") (Seq (Chr "(") (Seq (Star false (Cls dot)) (Chr ")"))))
                  ("](" ++ target ++ ")" ++ rest) Some = Some rest).
    { cbn [append]. rewrite rmatch_Seq, rmatch_Chr. cbn [Ascii.eqb Bool.eqb].
      rewrite rmatch_Seq, rmatch_Chr. cbn [Ascii.eqb Bool.eqb].
      rewrite rmatch_Seq, rmatch_Star.
      apply lazy_dot_target; [exact T|]. rewrite len_append. lia. }
    cbn [append] in *. destruct n; [exact E|]. rewrite star_lazy_S, E. reflexivity.
  - destruct n as [|n]; [unfold len in L; simpl in L; lia|].
    destruct P as (P1 & P2 & P3).
    change (String c label ++ "](" ++ target ++ ")" ++ rest)
      with (String c (label ++ "](" ++ target ++ ")" ++ rest)).
    rewrite star_lazy_S, rmatch_Seq, rmatch_Chr.
    replace (Ascii.eqb "]" c) with false by (symmetry; apply Ascii.eqb_neq; congruence).
    unfold orElse. rewrite rmatch_Cls. unfold notBracket at 1.
    replace (Ascii.eqb c "[") with false by (symmetry; apply Ascii.eqb_neq; congruence).
    replace (Ascii.eqb c "]") with false by (symmetry; apply Ascii.eqb_neq; congruence).
    cbn [orb negb].
    replace (Nat.ltb _ _) with true
      by (symmetry; apply Nat.ltb_lt; unfold len; simpl; lia).
    apply IH; [exact P3 | exact T |]. unfold len in *. simpl in L. lia.
Qed.

Lemma mdLink_append label target rest :
  mdLink label target ++ rest = String "[" (label ++ "](" ++ target ++ ")" ++ rest).
Proof.
  unfold mdLink. cbn [append]. f_equal.
  rewrite !append_assoc. cbn [append]. f_equal. f_equal. f_equal.
  rewrite append_assoc. reflexivity.
Qed.

Lemma linkRe_link total label target rest :
  noBrackets label -> plainTarget target ->
  rmatch total linkRe (mdLink label target ++ rest) Some = Some rest.
Proof.
  intros P T. rewrite mdLink_append. unfold linkRe.
  rewrite rmatch_Alt, rmatch_Seq, rmatch_Chr. cbn [Ascii.eqb Bool.eqb].
  rewrite rmatch_Seq, rmatch_Star.
  rewrite lazy_label; [reflexivity | exact P | exact T |].
  rewrite len_append. lia.
Qed.

Lemma take_len_sub a b : take (len (a ++ b) - len b) (a ++ b) = a.
Proof.
  rewrite len_append. replace (len a + len b - len b) with (len a) by lia.
  apply take_append.
Qed.

Lemma find_linkRe_link total text label target rest :
  noBrackets text -> noBrackets label -> plainTarget target ->
  find total linkRe (text ++ mdLink label target ++ rest)
  = Some (mdLink label target, rest).
Proof.
  intros N P T. rewrite find_linkRe_text by exact N.
  pose proof (linkRe_link total label target rest P T) as E.
  pose proof (take_len_sub (mdLink label target) rest) as K.
  revert E K. rewrite mdLink_append. intros E K.
  rewrite find_cons, E. now rewrite K.
Qed.

Lemma mdLink_nonempty label target : exists c s, mdLink label target = String c s.
Proof. unfold mdLink. cbn [append]. eauto. Qed.

Lemma findAll_document total parts tail :
  Forall plainPart parts -> noBrackets tail ->
  forall fuel after, List.length parts < fuel ->
    findAll fuel total linkRe (document parts tail) after = map linkOf parts.
Proof.
  intros F N. induction parts as [|[[text label] target] parts IH]; intros fuel after L.
  - destruct fuel; [cbn in L; lia|]. cbn [document findAll map].
    now rewrite find_linkRe_tail.
  - destruct fuel; [cbn in L; lia|]. inversion F as [|? ? PP F']; subst.
    cbn [plainPart] in PP. destruct PP as (P1 & P2 & P3).
    cbn [document findAll map linkOf].
    rewrite find_linkRe_link by assumption.
    destruct (mdLink_nonempty label target) as (c & s & E).
    rewrite E at 1. rewrite IH; [reflexivity | exact F' |]. cbn in L. lia.
Qed.

Lemma len_document parts tail : List.length parts <= len (document parts tail).
Proof.
  induction parts as [|[[text label] target] parts IH]; [cbn; lia|].
  cbn [document List.length]. rewrite !len_append.
  destruct (mdLink_nonempty label target) as (c & s & ->).
  unfold len in *. simpl. lia.
Qed.

Lemma plainLabel_of label : noBrackets label -> ~ occurs "010" label -> plainLabel label.
Proof.
  induction label as [|c label IH]; simpl; [tauto|].
  intros (N1 & N2 & N3) O. repeat split; auto.
Qed.

(** X3.  In a document made of pieces of text without brackets, each
    followed by a link whose label has no bracket and whose target has no
    closing parenthesis and no newline, the link pattern finds exactly
    the links, in order; when no label spans lines, [linkTarget] gives
    back their targets. *)
Theorem FindAll_finds_the_links_in_order parts tail :
  Forall plainPart parts -> noBrackets tail ->
  FindAll linkRe (document parts tail) = map linkOf parts
  /\ (Forall labelOnOneLine parts ->
      map linkTarget (FindAll linkRe (document parts tail)) = map targetOf parts).
Proof.
  intros F N.
  assert (E : FindAll linkRe (document parts tail) = map linkOf parts).
  { unfold FindAll. apply findAll_document; [exact F | exact N |].
    pose proof (len_document parts tail). lia. }
  split; [exact E|]. intros O. rewrite E. clear E.
  induction parts as [|[[text label] target] parts IH]; [reflexivity|].
  inversion F as [|? ? PP F']; subst.
    cbn [plainPart] in PP. destruct PP as (P1 & P2 & P3).
  inversion O as [|? ? O1 O']; subst.
  cbn [map linkOf targetOf]. rewrite IH by assumption. f_equal.
  apply linkTarget_link. now apply plainLabel_of.
Qed.

Lemma FindAll_finds_the_links_in_order_witness :
  FindAll linkRe (document [("See ", "the site", "https://example.com");
                            (" and (also) ", "", "docs/x.md")] ".")
  = ["[the site](https://example.com)"; "[](docs/x.md)"].
Proof.
  refine (proj1 (FindAll_finds_the_links_in_order
                   [("See ", "the site", "https://example.com");
                    (" and (also) ", "", "docs/x.md")] "." _ _)).
  - repeat constructor; discriminate.
  - repeat constructor; discriminate.
Defined.

(** A match of the link pattern ends with a closing parenthesis. *)
Lemma linkRe_ends total s rest :
  rmatch total linkRe s Some = Some rest -> exists p, s = p ++ ")" ++ rest.
Proof.
  unfold linkRe. rewrite rmatch_Alt. unfold orElse.
  set (tailRe := Seq (Chr "]") (Seq (Chr "(") (Seq (Star false (Cls dot)) (Chr ")")))).
  assert (T : forall s1, rmatch total tailRe s1 Some = Some rest ->
                         exists p, s1 = p ++ ")" ++ rest).
  { intros s1 H. unfold tailRe in H. rewrite rmatch_Seq in H.
    apply rmatch_suffix in H as (s2 & S2 & H). rewrite rmatch_Seq in H.
    apply rmatch_suffix in H as (s3 & S3 & H). rewrite rmatch_Seq in H.
    apply rmatch_suffix in H as (s4 & S4 & H).
    destruct s4 as [|c s4]; [discriminate|]. rewrite rmatch_Chr in H.
    destruct (Ascii.eqb ")" c) eqn:E; [|discriminate].
    apply Ascii.eqb_eq in E. subst c. inversion H; subst s4.
    apply (suffixOf_trans _ _ _ S4) in S3. apply (suffixOf_trans _ _ _ S3) in S2.
    exact S2. }
  assert (U : forall p s1, suffixOf s1 s -> s1 = p ++ ")" ++ rest ->
                           exists q, s = q ++ ")" ++ rest).
  { intros p s1 [q ->] ->. exists (q ++ p). now rewrite append_assoc. }
  intros H.
  destruct (rmatch total (Seq (Chr "[") _) s Some) eqn:A.
  - inversion H; subst s0. clear H. rewrite rmatch_Seq in A.
    apply rmatch_suffix in A as (s1 & S1 & A). rewrite rmatch_Seq in A.
    apply rmatch_suffix in A as (s2 & S2 & A).
    apply T in A as (p & A). eapply U; [eapply suffixOf_trans; eauto | exact A].
  - rewrite rmatch_Seq in H.
    apply rmatch_suffix in H as (s1 & S1 & H). rewrite rmatch_Seq in H.
    apply rmatch_suffix in H as (s2 & S2 & H).
    apply T in H as (p & H). eapply U; [eapply suffixOf_trans; eauto | exact H].
Qed.

Lemma find_linkRe_ends total s m rest :
  find total linkRe s = Some (m, rest) -> exists p, m = p ++ ")".
Proof.
  induction s as [|c s IH].
  - cbn [find]. now rewrite linkRe_nil.
  - rewrite find_cons.
    destruct (rmatch total linkRe (String c s) Some) as [r|] eqn:E; [|exact IH].
    intros H.
    assert (Hr : r = rest) by congruence.
    assert (Hm : m = take (len (String c s) - len r) (String c s)) by congruence.
    subst r m. clear H.
    apply linkRe_ends in E as (p & E). rewrite E. exists p.
    replace (p ++ ")" ++ rest) with ((p ++ ")") ++ rest) by now rewrite append_assoc.
    now rewrite take_len_sub.
Qed.

Lemma findAll_from_find fuel total r m :
  forall s after, In m (findAll fuel total r s after) ->
                  exists s' rest, find total r s' = Some (m, rest).
Proof.
  induction fuel as [|fuel IH]; intros s after H; [contradiction|].
  cbn [findAll] in H. destruct (find total r s) as [[m0 rest]|] eqn:E; [|contradiction].
  destruct m0 as [|c m0].
  - destruct (_ && _)%bool.
    + eapply IH; eauto.
    + destruct H as [<-|H]; [eauto | eapply IH; eauto].
  - destruct H as [<-|H]; [eauto | eapply IH; eauto].
Qed.

(** X4.  Every match the link pattern returns ends with a closing
    parenthesis, so it is not empty and [checkMdLink] never faults on
    [l[:len(l)-1]]: it goes on to resolve and validate the target. *)
Theorem matches_end_with_a_parenthesis content m :
  In m (FindAll linkRe content) ->
  (exists p, m = p ++ ")")
  /\ forall w fuel md rpath fpath,
       checkMdLink w fuel md m rpath fpath
       = bind (resolveUrl w md (linkTarget m) rpath)
              (fun url => validate w fuel (linkTarget m) url).
Proof.
  intros H. apply findAll_from_find in H as (s' & rest & H).
  apply find_linkRe_ends in H as (p & ->).
  split; [now exists p|]. intros. apply checkMdLink_nonempty.
  destruct p; discriminate.
Qed.

Lemma matches_end_with_a_parenthesis_witness :
  exists p, "[x](y.md)" = p ++ ")".
Proof.
  refine (proj1 (matches_end_with_a_parenthesis "see [x](y.md)(z)" "[x](y.md)" _)).
  left. reflexivity.
Defined.

(** ** Labels over several lines *)

Lemma find_labelRe_later total s : len s < total -> find total labelRe s = None.
Proof.
  induction s as [|c s IH]; intros L; cbn [find].
  - unfold labelRe. rewrite rmatch_Seq, rmatch_Bol.
    destruct (Nat.eqb (len "") total) eqn:E; [apply Nat.eqb_eq in E; lia | reflexivity].
  - unfold labelRe at 1. rewrite rmatch_Seq, rmatch_Bol.
    destruct (Nat.eqb (len (String c s)) total) eqn:E; [apply Nat.eqb_eq in E; lia |].
    apply IH. unfold len in *. simpl in L. lia.
Qed.

Lemma lazy_dot_newline total before rest n :
  plainLabel before ->
  star (rmatch total (Cls dot)) false
       (fun s => rmatch total (Seq (Chr "]") (Chr "(")) s Some)
       n (before ++ String "010" rest) = None.
Proof.
  revert n. induction before as [|c before IH]; intros n P.
  - apply star_lazy_stuck; [reflexivity | intros k'; reflexivity].
  - destruct P as (P1 & P2 & P3). destruct n as [|n].
    + rewrite star_O. cbn [append]. rewrite rmatch_Seq, rmatch_Chr.
      now replace (Ascii.eqb "]" c) with false by (symmetry; apply Ascii.eqb_neq; congruence).
    + cbn [append]. rewrite star_lazy_S, rmatch_Seq, rmatch_Chr.
      replace (Ascii.eqb "]" c) with false by (symmetry; apply Ascii.eqb_neq; congruence).
      unfold orElse. rewrite rmatch_Cls.
      destruct (dot c); [|reflexivity].
      destruct (Nat.ltb _ _); [|reflexivity]. now apply IH.
Qed.

(** X5.  A label that holds a newline is not stripped: the label pattern
    does not match, and the target [checkMdLink] works on is the whole
    link without its last byte. *)
Theorem label_with_newline_is_not_stripped before after target :
  plainLabel before ->
  linkTarget (mdLink (before ++ String "010" after) target)
  = "[" ++ (before ++ String "010" after) ++ "](" ++ target.
Proof.
  intros P. unfold linkTarget, mdLink.
  set (label := before ++ String "010" after).
  replace ("[" ++ label ++ "](" ++ target ++ ")")
    with (("[" ++ label ++ "](" ++ target) ++ ")").
  2:{ cbn [append]. f_equal. rewrite !append_assoc. reflexivity. }
  rewrite take_all_but_last.
  replace (FindString labelRe ("[" ++ label ++ "](" ++ target)) with "";
    [reflexivity|].
  unfold FindString. cbn [append]. rewrite find_cons.
  replace (rmatch _ labelRe _ Some) with (@None string).
  - rewrite find_labelRe_later; [reflexivity | unfold len; simpl; lia].
  - unfold labelRe. rewrite rmatch_Seq, rmatch_Bol, Nat.eqb_refl.
    rewrite rmatch_Seq, rmatch_Chr. cbn [Ascii.eqb Bool.eqb].
    rewrite rmatch_Seq, rmatch_Star. unfold label.
    rewrite append_assoc. cbn [append].
    symmetry. now apply lazy_dot_newline.
Qed.

Lemma label_with_newline_is_not_stripped_witness :
  linkTarget (mdLink ("the" ++ String "010" "site") "https://example.com")
  = "[" ++ ("the" ++ String "010" "site") ++ "](https://example.com".
Proof.
  apply (label_with_newline_is_not_stripped "the" "site" "https://example.com").
  repeat split; discriminate.
Defined.

(** ** An e-mail link under a label of two lines *)

(** Two ways of bracketing one concatenation. *)
Ltac assoc_eq :=
  repeat first [rewrite append_assoc | progress cbn [append]]; reflexivity.

Lemma occurs_append c a b : occurs c (a ++ b) <-> occurs c a \/ occurs c b.
Proof. induction a as [|d a IH]; simpl; tauto. Qed.

(** The label pattern does not get past a newline in the label. *)
Lemma FindString_labelRe_newline before rest :
  plainLabel before ->
  FindString labelRe ("[" ++ before ++ String "010" rest) = "".
Proof.
  intros P. unfold FindString. cbn [append]. rewrite find_cons.
  replace (rmatch _ labelRe _ Some) with (@None string).
  - rewrite find_labelRe_later; [reflexivity | unfold len; simpl; lia].
  - unfold labelRe. rewrite rmatch_Seq, rmatch_Bol, Nat.eqb_refl.
    rewrite rmatch_Seq, rmatch_Chr. cbn [Ascii.eqb Bool.eqb].
    rewrite rmatch_Seq, rmatch_Star.
    symmetry. now apply lazy_dot_newline.
Qed.

(** The URL pattern does not match a text that begins with a bracket. *)
Lemma find_httpRe_bracket s : find (len (String "[" s)) httpRe (String "[" s) = None.
Proof.
  rewrite find_cons.
  replace (rmatch _ httpRe _ Some) with (@None string).
  - apply find_httpRe_later. unfold len. simpl. lia.
  - unfold httpRe. cbn [rmatch Lit Chr]. rewrite Nat.eqb_refl. reflexivity.
Qed.

(** Under a label with a newline nothing is stripped: what
    [checkMdLink] classifies is the whole link without its last byte. *)
Lemma linkTarget_unstripped before rest :
  plainLabel before ->
  linkTarget (("[" ++ before ++ String "010" rest) ++ ")")
  = "[" ++ before ++ String "010" rest.
Proof.
  intros P. unfold linkTarget. rewrite take_all_but_last.
  now rewrite FindString_labelRe_newline.
Qed.

(** A label without a closing bracket is on one line, or has a first
    newline. *)
Lemma label_lines label :
  ~ occurs "]" label ->
  plainLabel label
  \/ exists before after, label = before ++ String "010" after /\ plainLabel before.
Proof.
  induction label as [|c label IH]; [now left|].
  intros N. cbn [occurs] in N.
  assert (N1 : c <> "]"%char) by tauto.
  assert (N2 : ~ occurs "]" label) by tauto.
  destruct (Ascii.eqb c "010") eqn:E.
  - apply Ascii.eqb_eq in E. subst c. right. now exists "", label.
  - apply Ascii.eqb_neq in E. destruct (IH N2) as [P|(before & after & -> & P)].
    + left. cbn [plainLabel]. auto.
    + right. exists (String c before), after. cbn [append plainLabel]. auto.
Qed.

(** C3.  An e-mail link whose label runs over two lines is found by the
    link pattern, but the label pattern of [checkMdLink] stops at the
    newline and strips nothing: the text that is classified begins with
    the bracket, not with [mailto:], so the e-mail exit is not taken.
    The link is resolved to the empty URL, a GET is issued on it and
    fails, the link is recorded as failed and [AllLinksOK] becomes false.
    With a label on one line the same target is never handed to the
    network: [checkMdLink] returns the informational sentinel with [ok]
    true and no event, and the round leaves the report as it is. *)
Theorem C3_mailto_under_a_label_of_two_lines_is_requested
        w fuel md before after addr rpath fpath links b t :
  plainLabel before ->
  noBrackets (before ++ String "010" after) ->
  plainTarget addr ->
  AllLinksOK md = Some b ->
  let raw := mdLink (before ++ String "010" after) ("mailto:" ++ addr) in
  let failure := "[ERR] Couldn't reach URL: " ++ noSchemeError in
  FindAll linkRe raw = [raw]
  /\ HasPrefix (linkTarget raw) "mailto:" = false
  /\ checkMdLink w fuel md raw rpath fpath t
     = Ret ((failure, false), (t ++ [EvGet ""])%list)
  /\ (exists md',
         checkMatch w fuel rpath fpath (md, links) raw t
         = Ret ((md', (links ++ [mkMdLink raw failure false])%list),
                (t ++ [EvGet ""])%list)
         /\ AllLinksOK md' = Some false)
  /\ (forall label,
         plainLabel label ->
         checkMdLink w fuel md (mdLink label ("mailto:" ++ addr)) rpath fpath t
         = Ret (("[INF]  is not URL", true), t)
         /\ checkMatch w fuel rpath fpath (md, links)
                       (mdLink label ("mailto:" ++ addr)) t
            = Ret ((md, links), t)).
Proof.
  intros P N T A raw failure.
  set (label := before ++ String "010" after) in *.
  set (l := "[" ++ label ++ "](" ++ "mailto:" ++ addr).
  assert (PT : plainTarget ("mailto:" ++ addr)).
  { cbn. repeat split; try discriminate. exact T. }
  assert (F : FindAll linkRe raw = [raw]).
  { assert (D : document [("", label, "mailto:" ++ addr)] "" = raw).
    { cbn [document append]. apply append_nil_r. }
    rewrite <- D at 1. unfold FindAll.
    rewrite findAll_document; [now cbn [map linkOf] | | exact I |].
    - constructor; [|constructor]. cbn [plainPart].
      split; [exact I | split; [exact N | exact PT]].
    - pose proof (len_document [("", label, "mailto:" ++ addr)] "") as L.
      cbn [List.length] in *. lia. }
  assert (L : linkTarget raw = l).
  { unfold raw, mdLink.
    replace ("[" ++ label ++ "](" ++ ("mailto:" ++ addr) ++ ")")
      with (("[" ++ before ++ String "010" (after ++ "](" ++ "mailto:" ++ addr)) ++ ")").
    2:{ unfold label. assoc_eq. }
    rewrite linkTarget_unstripped by exact P.
    unfold l, label. assoc_eq. }
  assert (M : HasPrefix l "mailto:" = false) by reflexivity.
  assert (C : Contains l ":" = true).
  { apply occurs_Contains_colon. unfold l. cbn [append]. right.
    apply occurs_append. right. cbn. tauto. }
  assert (E : checkMdLink w fuel md raw rpath fpath t
              = Ret ((failure, false), (t ++ [EvGet ""])%list)).
  { rewrite checkMdLink_nonempty by discriminate. rewrite L. unfold bind.
    rewrite resolveUrl_colon by exact C.
    unfold FindString. replace (find (len l) httpRe l) with (@None (string * string))
      by (symmetry; apply find_httpRe_bracket).
    unfold validate. rewrite M. unfold bind. rewrite Get_empty. reflexivity. }
  split; [exact F|]. split; [now rewrite L|]. split; [exact E|]. split.
  - exists (setAllLinksOK md (Some false)). split; [|reflexivity].
    unfold checkMatch, bind. rewrite E. cbn [negb]. rewrite A. reflexivity.
  - intros label' P'.
    apply (mailto_target_is_not_validated w fuel md _ rpath fpath links t).
    now apply linkTarget_mailto.
Qed.

Lemma C3_witness :
  checkMdLink healthy 0 (initReport healthy sample)
    (mdLink ("write" ++ String "010" "us") "mailto:team@example.com")
    "/" "README.md" []
  = Ret (("[ERR] Couldn't reach URL: " ++ noSchemeError, false), [EvGet ""]).
Proof.
  refine (proj1 (proj2 (proj2 (C3_mailto_under_a_label_of_two_lines_is_requested
           healthy 0 (initReport healthy sample) "write" "us" "team@example.com"
           "/" "README.md" [] true [] _ _ _ _)))).
  - repeat split; discriminate.
  - repeat split; discriminate.
  - repeat split; discriminate.
  - reflexivity.
Defined.

(** ** Targets with another scheme *)

(** C10.  A target that contains a [':'], does not begin with [mailto:]
    and does not match the URL pattern (an [ftp://] or a [javascript:]
    target) is resolved to the empty string; [checkMdLink] then issues
    its GET on the empty string, which fails, and returns a failure with
    [ok] false; the round of the loop records the link as failed, and in
    the report it returns [AllLinksOK] is false, whatever it was, while
    the other fields are as they were.  This holds whether the target is
    taken as [checkMdLink] computes it from the match, or as what stands
    between the parentheses of a link written with a label without a
    closing bracket. *)
Theorem C10_other_scheme_is_checked_as_empty_url
        w fuel md raw rpath fpath links b t :
  (Contains (linkTarget raw) ":" = true
   /\ HasPrefix (linkTarget raw) "mailto:" = false
   /\ find (len (linkTarget raw)) httpRe (linkTarget raw) = None)
  \/ (exists label target,
         raw = mdLink label target
         /\ ~ occurs "]" label
         /\ occurs ":" target
         /\ HasPrefix target "mailto:" = false
         /\ find (len target) httpRe target = None) ->
  AllLinksOK md = Some b ->
  let failure := "[ERR] Couldn't reach URL: " ++ noSchemeError in
  resolveUrl w md (linkTarget raw) rpath t = Ret ("", t)
  /\ checkMdLink w fuel md raw rpath fpath t
     = Ret ((failure, false), (t ++ [EvGet ""])%list)
  /\ exists md' recorded,
       checkMatch w fuel rpath fpath (md, links) raw t
       = Ret ((md', (links ++ [recorded])%list), (t ++ [EvGet ""])%list)
       /\ AllLinksOK md' = Some false
       /\ Link recorded = raw
       /\ LinkState recorded = failure
       /\ Succeed recorded = false
       /\ Repo md' = Repo md
       /\ MdFileList md' = MdFileList md
       /\ State md' = State md.
Proof.
  intros H A failure.
  assert (T : Contains (linkTarget raw) ":" = true
              /\ HasPrefix (linkTarget raw) "mailto:" = false
              /\ find (len (linkTarget raw)) httpRe (linkTarget raw) = None).
  { destruct H as [H|(label & target & -> & N & O & M & F)]; [exact H|].
    destruct (label_lines label N) as [P|(before & after & -> & P)].
    - unfold mdLink. rewrite linkTarget_link by exact P.
      split; [now apply occurs_Contains_colon | split; assumption].
    - unfold mdLink.
      replace ("[" ++ (before ++ String "010" after) ++ "](" ++ target ++ ")")
        with (("[" ++ before ++ String "010" (after ++ "](" ++ target)) ++ ")").
      2:{ assoc_eq. }
      rewrite linkTarget_unstripped by exact P.
      split; [|split; [reflexivity | exact (find_httpRe_bracket _)]].
      apply occurs_Contains_colon.
      replace ("[" ++ before ++ String "010" (after ++ "](" ++ target))
        with (("[" ++ before ++ String "010" after ++ "](") ++ target) by assoc_eq.
      apply occurs_append. now right. }
  destruct T as (C & M & F). set (l := linkTarget raw) in *.
  assert (N : raw <> "") by (intros E; subst raw; discriminate C).
  assert (R : resolveUrl w md l rpath t = Ret ("", t)).
  { rewrite resolveUrl_colon by exact C. unfold FindString. now rewrite F. }
  assert (E : checkMdLink w fuel md raw rpath fpath t
              = Ret ((failure, false), (t ++ [EvGet ""])%list)).
  { rewrite checkMdLink_nonempty by exact N. unfold bind. fold l. rewrite R.
    unfold validate. rewrite M. unfold bind. rewrite Get_empty. reflexivity. }
  split; [exact R|]. split; [exact E|].
  exists (setAllLinksOK md (Some false)), (mkMdLink raw failure false).
  split; [|repeat split].
  unfold checkMatch, bind. rewrite E. cbn [negb]. rewrite A. reflexivity.
Qed.

Lemma C10_witness :
  exists md' recorded,
    checkMatch healthy 0 "/" "README.md" (initReport healthy sample, [])
               "[files](ftp://files.example.com/a.txt)" []
    = Ret ((md', [recorded]), [EvGet ""])
    /\ AllLinksOK (initReport healthy sample) = Some true
    /\ AllLinksOK md' = Some false
    /\ Succeed recorded = false.
Proof.
  destruct (proj2 (proj2 (C10_other_scheme_is_checked_as_empty_url
              healthy 0 (initReport healthy sample)
              "[files](ftp://files.example.com/a.txt)" "/" "README.md" [] true []
              (or_introl (conj eq_refl (conj eq_refl eq_refl))) eq_refl)))
    as (md' & recorded & K & A & _ & _ & S & _).
  exists md', recorded. repeat split; assumption.
Defined.

(** ** A bare domain under a label of two lines *)

Lemma Contains_colon_true s : Contains s ":" = true -> occurs ":" s.
Proof.
  unfold Contains. induction s as [|c s IH]; [discriminate|].
  cbn [Index]. rewrite prefix_colon.
  destruct (Ascii.eqb c ":") eqn:E.
  - intros _. left. now apply Ascii.eqb_eq.
  - destruct (Index s ":") eqn:I; [|discriminate].
    intros _. right. now apply IH.
Qed.

Lemma no_colon_Contains s : ~ occurs ":" s -> Contains s ":" = false.
Proof.
  intros N. destruct (Contains s ":") eqn:E; [|reflexivity].
  exfalso. now apply N, Contains_colon_true.
Qed.

(** The scheme does not end with the bracket and the parenthesis that
    close a label. *)
Lemma label_end_not_http a : a ++ "](" <> "http://".
Proof.
  destruct a as [|c1 [|c2 [|c3 [|c4 [|c5 [|c6 [|c7 a]]]]]]]; cbn [append];
    intros H; try discriminate H.
  inversion H as [[H1 H2 H3 H4 H5 H6 H7 H8]].
  destruct a; discriminate H8.
Qed.

(** The candidate host of a text that begins with a bracket begins with
    the bracket. *)
Lemma candidateHost_bracket s :
  exists host, candidateHost (String "[" s) = String "[" host.
Proof.
  destruct (candidateHost_spec (String "[" s)) as [_ H].
  destruct (candidateHost (String "[" s)) as [|c h].
  - exfalso. destruct H as [H|[rest H]]; discriminate H.
  - exists h. destruct H as [H|[rest H]]; cbn [append] in H; inversion H; reflexivity.
Qed.

(** C2.  On the text it is given the classifier follows the rule: a
    text without [':'] does not match the URL pattern; what precedes its
    first ['/'] is looked up as the candidate host; when the lookup
    succeeds and the trailing extension of the text, what follows its
    last dot, is not [md] in any spelling ([md], [Md], [mD], [MD]), the
    URL is [http://] followed by the text, and in every other case it is
    the path-relative resolution; against a root of the form
    [<html url>/blob/<branch>] the two never coincide.  The text is the
    target of the link when the label is on one line.  Under a label of
    two lines nothing is stripped: the host that is looked up begins with
    the bracket of the label, and the URL is never [http://] followed by
    the target, whether or not the host of the target resolves. *)
Theorem C2_bare_domain_under_a_label_of_two_lines w md rpath root t :
  WebUrl (Repo md) = Some root ->
  (forall l,
      Contains l ":" = false ->
      let host := candidateHost l in
      let bare := (lookupIP w host && negb (isMd (afterLastDot l)))%bool in
      FindString httpRe l = ""
      /\ ~ occurs "/" host
      /\ (l = host \/ exists rest, l = host ++ "/" ++ rest)
      /\ resolveUrl w md l rpath t =
         Ret (if bare then "http://" ++ l else pathRelative root rpath l,
              (t ++ [EvLookupIP host])%list)
      /\ ((exists h b, root = h ++ "/blob/" ++ b) ->
          forall url t', resolveUrl w md l rpath t = Ret (url, t') ->
                         (url = "http://" ++ l <-> bare = true)))
  /\ (forall label target,
         plainLabel label -> linkTarget (mdLink label target) = target)
  /\ (forall before after target,
         plainLabel before ->
         ~ occurs ":" (before ++ String "010" after) ->
         ~ occurs ":" target ->
         let raw := mdLink (before ++ String "010" after) target in
         exists host url,
           resolveUrl w md (linkTarget raw) rpath t
           = Ret (url, (t ++ [EvLookupIP (String "[" host)])%list)
           /\ url <> "http://" ++ target).
Proof.
  intros W. split; [|split].
  - intros l C host bare.
    pose proof (candidateHost_spec l) as [H1 H2].
    pose proof (resolveUrl_bare_domain w md l rpath root t W C) as R.
    fold host in R. fold bare in R.
    split; [now apply FindString_httpRe_no_colon|].
    split; [exact H1|]. split; [exact H2|]. split; [exact R|].
    intros (h & b & ->) url t' E. rewrite R in E. inversion E; subst t'. clear E.
    destruct bare.
    + split; reflexivity.
    + split; [|discriminate]. intros U.
      now apply pathRelative_not_http in U.
  - intros label target P. now apply linkTarget_link.
  - intros before after target P NL NT raw.
    set (label := before ++ String "010" after) in *.
    set (pre := "[" ++ label ++ "](").
    assert (L : linkTarget raw = pre ++ target).
    { unfold raw, mdLink.
      replace ("[" ++ label ++ "](" ++ target ++ ")")
        with (("[" ++ before ++ String "010" (after ++ "](" ++ target)) ++ ")")
        by (unfold label; assoc_eq).
      rewrite linkTarget_unstripped by exact P. unfold pre, label. assoc_eq. }
    assert (C : Contains (pre ++ target) ":" = false).
    { apply no_colon_Contains. unfold pre. intros o.
      apply occurs_append in o as [o|o]; [|contradiction].
      cbn [append occurs] in o. destruct o as [o|o]; [discriminate o|].
      apply occurs_append in o as [o|o]; [contradiction|].
      cbn [occurs] in o. destruct o as [o|[o|o]]; [discriminate o | discriminate o | exact o]. }
    pose proof (resolveUrl_bare_domain w md (pre ++ target) rpath root t W C) as R.
    destruct (candidateHost_bracket (label ++ "](" ++ target)) as (host & H).
    replace (String "[" (label ++ "](" ++ target)) with (pre ++ target) in H
      by (unfold pre; assoc_eq).
    rewrite H in R. rewrite L.
    eexists host, _. split; [exact R|].
    destruct (_ && _)%bool; intros U.
    + apply append_cancel_l in U.
      symmetry in U. apply append_len_nil in U. discriminate U.
    + unfold pathRelative in U.
      replace (negb (pre ++ target =? "") && (take 1 (pre ++ target) =? "/"))%bool
        with false in U by reflexivity.
      replace (root ++ rpath ++ pre ++ target)
        with ((root ++ rpath ++ pre) ++ target) in U by assoc_eq.
      apply append_cancel_r in U.
      apply (label_end_not_http (root ++ rpath ++ "[" ++ label)).
      rewrite <- U. unfold pre. assoc_eq.
Qed.

Lemma C2_witness :
  exists host url,
    resolveUrl oneDomain (initReport oneDomain sample)
               (linkTarget (mdLink ("see" ++ String "010" "here") "example.com/page"))
               "/" []
    = Ret (url, [EvLookupIP (String "[" host)])
    /\ url <> "http://example.com/page".
Proof.
  refine (proj2 (proj2 (C2_bare_domain_under_a_label_of_two_lines
            oneDomain (initReport oneDomain sample) "/"
            "https://github.com/u/r/blob/main" [] eq_refl))
          "see" "here" "example.com/page" _ _ _).
  - repeat split; discriminate.
  - cbn. intros H. repeat (destruct H as [H|H]; [discriminate H|]). exact H.
  - cbn. intros H. repeat (destruct H as [H|H]; [discriminate H|]). exact H.
Defined.

Example bare_domain_under_two_lines :
  lookupIP oneDomain "example.com" = true
  /\ resolveUrl oneDomain (initReport oneDomain sample)
       (linkTarget (mdLink ("see" ++ String "010" "here") "example.com/page")) "/" []
     = Ret ("https://github.com/u/r/blob/main/[see" ++ String "010"
              "here](example.com/page",
            [EvLookupIP ("[see" ++ String "010" "here](example.com")]).
Proof. split; reflexivity. Qed.

(** ** Absolute URLs *)

Lemma greedy_dot_all total s n :
  ~ occurs "010" s -> len s <= n ->
  star (rmatch total (Cls dot)) true Some n s = Some "".
Proof.
  revert n. induction s as [|c s IH]; intros n N L.
  - destruct n; reflexivity.
  - destruct n as [|n]; [unfold len in L; simpl in L; lia|].
    cbn [star]. rewrite rmatch_Cls. unfold dot at 1.
    replace (Ascii.eqb c "010") with false.
    2:{ symmetry. apply Ascii.eqb_neq. intros ->. apply N. simpl. auto. }
    cbn [negb].
    replace (Nat.ltb _ _) with true
      by (symmetry; apply Nat.ltb_lt; unfold len; simpl; lia).
    rewrite IH; [reflexivity | |].
    + intros o. apply N. simpl. auto.
    + unfold len in *. simpl in L. lia.
Qed.

Lemma no_newline_suffix s' s : suffixOf s' s -> ~ occurs "010" s -> ~ occurs "010" s'.
Proof. intros S N o. apply N. eapply occurs_suffixOf; eauto. Qed.

(** A match of the URL pattern in a text without newline runs to its end. *)
Lemma httpRe_to_the_end total s rest :
  ~ occurs "010" s -> rmatch total httpRe s Some = Some rest -> rest = "".
Proof.
  intros N H. unfold httpRe in H. cbv zeta in H.
  rewrite rmatch_Seq in H. apply rmatch_suffix in H as (s1 & S1 & H).
  rewrite rmatch_Seq in H. apply rmatch_suffix in H as (s2 & S2 & H).
  rewrite rmatch_Seq in H. apply rmatch_suffix in H as (s3 & S3 & H).
  rewrite rmatch_Seq in H. apply rmatch_suffix in H as (s4 & S4 & H).
  rewrite rmatch_Seq in H. apply rmatch_suffix in H as (s5 & S5 & H).
  rewrite rmatch_Star in H. rewrite greedy_dot_all in H; [congruence | | lia].
  repeat (eapply no_newline_suffix; [eassumption|]). exact N.
Qed.

Lemma take_all s : take (len s) s = s.
Proof. rewrite <- (append_nil_r s) at 2. apply take_append. Qed.

Lemma find_httpRe_whole l :
  ~ occurs "010" l -> find (len l) httpRe l <> None ->
  FindString httpRe l = l /\ Contains l ":" = true.
Proof.
  intros N F. unfold FindString.
  destruct l as [|c l].
  - exfalso. apply F. reflexivity.
  - rewrite find_cons in *.
    destruct (rmatch _ httpRe (String c l) Some) as [rest|] eqn:E.
    + pose proof (httpRe_colon _ _ _ _ E) as C.
      apply httpRe_to_the_end in E; [|exact N]. subst rest.
      split; [|now apply occurs_Contains_colon].
      change (len "") with 0. rewrite Nat.sub_0_r. apply take_all.
    + exfalso. apply F. apply find_httpRe_later. unfold len. simpl. lia.
Qed.

Lemma HasPrefix_mailto_http l :
  find (len l) httpRe l <> None -> HasPrefix l "mailto:" = false.
Proof.
  intros F. destruct (HasPrefix l "mailto:") eqn:E; [|reflexivity].
  exfalso. apply F. pose proof (FindString_httpRe_mailto l E) as M.
  unfold FindString in M. destruct (find (len l) httpRe l) as [[m rest]|] eqn:G; [|reflexivity].
  exfalso. subst m. clear F.
  apply prefix_split in E as [r ->]. cbn [append] in G.
  remember (String "a" _) as s0. rewrite find_cons in G.
  replace (rmatch _ httpRe _ Some) with (@None string) in G.
  - rewrite find_httpRe_later in G; [discriminate | unfold len; simpl; lia].
  - unfold httpRe. cbn [rmatch Lit Chr]. rewrite Nat.eqb_refl. reflexivity.
Qed.

(** X6.  A link whose target matches the URL pattern and holds no newline
    is checked as it is written: no DNS lookup, one GET of the target
    itself; a transport error gives the unreachable text with [ok] false,
    and a response other than 429 gives the outcome of its status. *)
Theorem absolute_url_is_checked_as_it_is w fuel md label target rpath fpath t :
  plainLabel label ->
  ~ occurs "010" target ->
  find (len target) httpRe target <> None ->
  resolveUrl w md target rpath t = Ret (target, t)
  /\ (forall e,
         err (httpGet w (gets t) target) = Some e ->
         checkMdLink w fuel md (mdLink label target) rpath fpath t
         = Ret (("[ERR] Couldn't reach URL: " ++ e, false), (t ++ [EvGet target])%list))
  /\ (forall resp,
         httpGet w (gets t) target = mkGetResult (Some resp) None ->
         StatusCode resp <> 429%Z ->
         checkMdLink w fuel md (mdLink label target) rpath fpath t
         = Ret (outcomeOf target (StatusCode resp), (t ++ [EvGet target])%list)).
Proof.
  intros P N F. destruct (find_httpRe_whole target N F) as [W C].
  assert (R : resolveUrl w md target rpath t = Ret (target, t)).
  { rewrite resolveUrl_colon by exact C. now rewrite W. }
  assert (T : target <> "") by (intros ->; discriminate C).
  assert (K : checkMdLink w fuel md (mdLink label target) rpath fpath t
              = validate w fuel target target t).
  { rewrite checkMdLink_nonempty.
    - unfold mdLink. rewrite linkTarget_link by exact P. unfold bind. now rewrite R.
    - destruct (mdLink_nonempty label target) as (c & s & ->). discriminate. }
  pose proof (HasPrefix_mailto_http target F) as M.
  split; [exact R|]. split.
  - intros e E. rewrite K. unfold validate. rewrite M. unfold bind.
    rewrite Get_nonempty by exact T. now rewrite E.
  - intros resp G S. rewrite K. unfold validate. rewrite M. unfold bind at 1.
    rewrite Get_nonempty by exact T. rewrite G. cbn [err res].
    cbv [bind deref ret]. apply Z.eqb_neq in S. rewrite S.
    unfold outcomeOf. destruct (Z.geb (StatusCode resp) 400); reflexivity.
Qed.

Lemma absolute_url_is_checked_as_it_is_witness :
  checkMdLink notFound 0 (initReport notFound sample)
    (mdLink "old" "http://dead.example/x") "/" "README.md" []
  = Ret (("[ERR] http://dead.example/x response: 404", false),
         [EvGet "http://dead.example/x"]).
Proof.
  refine (proj2 (proj2 (absolute_url_is_checked_as_it_is notFound 0
            (initReport notFound sample) "old" "http://dead.example/x" "/" "README.md" []
            _ _ _)) (mkResponse 404 "Not Found") _ _).
  - repeat split; discriminate.
  - simpl. intros H. repeat (destruct H as [H|H]; [discriminate H|]). exact H.
  - discriminate.
  - reflexivity.
  - discriminate.
Defined.

(** ** What the validator does to the outside *)

Section ValidatorTrace.

Variable w : World.

Lemma Get_Ret url t r t' : Get w url t = Ret (r, t') -> t' = (t ++ [EvGet url])%list.
Proof. unfold Get. intros H. now inversion H. Qed.

Lemma retries_snoc n url :
  (retries n url ++ [EvSleep 60; EvGet url])%list = retries (S n) url.
Proof. induction n as [|n IH]; [reflexivity|]. cbn [retries app]. now rewrite IH. Qed.

Lemma getUrlWithDelay_trace url fuel :
  forall t r t',
    getUrlWithDelay w fuel url t = Ret (r, t') ->
    exists n, 0 < n /\ t' = (t ++ retries n url)%list.
Proof.
  induction fuel as [|fuel IH]; intros t r t' H; [discriminate|].
  cbn [getUrlWithDelay] in H.
  apply bind_Ret in H as (u & t1 & H1 & H). apply emit_Ret in H1. subst t1.
  apply bind_Ret in H as (g & t2 & H2 & H). apply Get_Ret in H2. subst t2.
  destruct (res g) as [resp|]; [|discriminate].
  destruct (Z.eqb (StatusCode resp) 429).
  - apply IH in H as (n & Hn & ->). exists (S n). split; [lia|].
    rewrite <- !app_assoc. reflexivity.
  - apply ret_Ret in H as [_ <-]. exists 1. split; [lia|].
    rewrite <- app_assoc. reflexivity.
Qed.

(** X7.  Whatever [validate] returns, it has done nothing to the outside
    for an e-mail target, and otherwise only a GET of its URL followed by
    rounds of a 60 second sleep and a GET of the same URL. *)
Theorem validate_only_gets_its_url fuel l url t o t' :
  validate w fuel l url t = Ret (o, t') ->
  (HasPrefix l "mailto:" = true /\ t' = t)
  \/ (HasPrefix l "mailto:" = false
      /\ exists n, t' = (t ++ EvGet url :: retries n url)%list).
Proof.
  unfold validate. destruct (HasPrefix l "mailto:").
  - intros H. apply ret_Ret in H as [_ <-]. now left.
  - intros H. right. split; [reflexivity|].
    apply bind_Ret in H as (g & t1 & H1 & H). apply Get_Ret in H1. subst t1.
    destruct (err g) as [e|].
    + apply ret_Ret in H as [_ <-]. now exists 0.
    + apply bind_Ret in H as (first & t2 & H2 & H). apply deref_Ret in H2 as [_ <-].
      apply bind_Ret in H as (final & t3 & H3 & H).
      apply bind_Ret in H as (resp & t4 & H4 & H). apply deref_Ret in H4 as [_ <-].
      assert (E : exists n, t3 = ((t ++ [EvGet url]) ++ retries n url)%list).
      { destruct (Z.eqb (StatusCode first) 429).
        - apply bind_Ret in H3 as (r' & t5 & H5 & H3).
          apply getUrlWithDelay_trace in H5 as (n & _ & ->).
          apply ret_Ret in H3 as [_ <-]. now exists n.
        - apply ret_Ret in H3 as [_ <-]. exists 0. now rewrite app_nil_r. }
      destruct E as (n & ->). exists n.
      destruct (Z.geb (StatusCode resp) 400); apply ret_Ret in H as [_ <-];
        now rewrite <- app_assoc.
Qed.

Lemma checkMdLink_tag fuel md raw rpath fpath t state ok t' :
  checkMdLink w fuel md raw rpath fpath t = Ret ((state, ok), t') ->
  HasPrefix state (if ok then "[INF] " else "[ERR] ") = true.
Proof.
  intros H. destruct raw as [|c raw]; [discriminate|].
  cbn [checkMdLink] in H. apply bind_Ret in H as (url & t1 & _ & H).
  unfold validate in H. destruct (HasPrefix _ "mailto:").
  - apply ret_Ret in H as [H _]. inversion H; subst.
    exact (prefix_append "[INF] " _).
  - apply bind_Ret in H as (g & t2 & _ & H). destruct (err g).
    + apply ret_Ret in H as [H _]. inversion H; subst.
      exact (prefix_append "[ERR] " _).
    + apply bind_Ret in H as (first & t3 & _ & H).
      apply bind_Ret in H as (final & t4 & _ & H).
      apply bind_Ret in H as (resp & t5 & _ & H).
      destruct (Z.geb (StatusCode resp) 400); apply ret_Ret in H as [H _];
        inversion H; subst;
        [exact (prefix_append "[ERR] " _) | exact (prefix_append "[INF] " _)].
Qed.

(** X8.  The text and the flag [checkMdLink] returns agree: the text
    begins with [[INF] ] when [ok] is true and with [[ERR] ] when it is
    false, so the flag can be read off the text. *)
Theorem checkMdLink_tag_agrees_with_flag fuel md raw rpath fpath t state ok t' :
  checkMdLink w fuel md raw rpath fpath t = Ret ((state, ok), t') ->
  HasPrefix state (if ok then "[INF] " else "[ERR] ") = true
  /\ (ok = true <-> HasPrefix state "[INF] " = true)
  /\ (ok = false <-> HasPrefix state "[ERR] " = true).
Proof.
  intros H. apply checkMdLink_tag in H. split; [exact H|].
  assert (X : HasPrefix state "[INF] " = true ->
              HasPrefix state "[ERR] " = true -> False).
  { intros I E. apply prefix_split in I as [x ->]. discriminate E. }
  destruct ok; split; split; intros K; try exact H; try reflexivity;
    try discriminate K; exfalso; now apply X.
Qed.

End ValidatorTrace.

Lemma validate_only_gets_its_url_witness :
  (HasPrefix "https://x.io" "mailto:" = true
   /\ [EvGet "https://x.io"; EvSleep 60; EvGet "https://x.io"] = [])
  \/ (HasPrefix "https://x.io" "mailto:" = false
      /\ exists n, [EvGet "https://x.io"; EvSleep 60; EvGet "https://x.io"]
                   = ([] ++ EvGet "https://x.io" :: retries n "https://x.io")%list).
Proof.
  apply (validate_only_gets_its_url (rateLimited 1) 1 "https://x.io" "https://x.io" []
           ("[INF] https://x.io response: 200", true)).
  reflexivity.
Defined.

Lemma checkMdLink_tag_agrees_with_flag_witness :
  HasPrefix "[ERR] http://dead.example/x response: 404" "[ERR] " = true.
Proof.
  refine (proj1 (checkMdLink_tag_agrees_with_flag notFound 0 (initReport notFound sample)
           "[old](http://dead.example/x)" "/" "README.md" []
           "[ERR] http://dead.example/x response: 404" false
           [EvGet "http://dead.example/x"] _)).
  reflexivity.
Defined.

(** ** What a run adds to a report *)

Lemma extends_refl md : extends md md.
Proof.
  unfold extends. repeat (split; [reflexivity|]). split; [|now left].
  exists []. rewrite app_nil_r. split; [reflexivity|]. split; [constructor | congruence].
Qed.

Lemma extends_trans a b c : extends a b -> extends b c -> extends a c.
Proof.
  intros (R1 & U1 & N1 & P1 & (x & F1 & W1 & A1) & O1)
         (R2 & U2 & N2 & P2 & (y & F2 & W2 & A2) & O2).
  unfold extends. repeat (split; [congruence|]). split.
  - exists (x ++ y)%list. split; [|split].
    + rewrite F2, F1. now rewrite app_assoc.
    + apply Forall_app. now split.
    + intros N. destruct y as [|f y].
      * rewrite app_nil_r in N. specialize (A1 N).
        destruct O2 as [O2|O2]; congruence.
      * apply A2. discriminate.
  - destruct O1 as [O1|O1], O2 as [O2|O2]; try (right; congruence). left. congruence.
Qed.

Lemma extends_same md md' :
  Repo md' = Repo md -> ZipUrl md' = ZipUrl md -> ZipName md' = ZipName md ->
  ZipPath md' = ZipPath md -> MdFileList md' = MdFileList md ->
  (AllLinksOK md' = AllLinksOK md \/ AllLinksOK md' = Some false) ->
  extends md md'.
Proof.
  intros R U N P F O. unfold extends. repeat (split; [assumption|]). split; [|exact O].
  exists []. unfold filesOf. rewrite F, app_nil_r.
  split; [reflexivity|]. split; [constructor | congruence].
Qed.

Lemma extends_setState md s : extends md (setState md s).
Proof. apply extends_same; auto. Qed.

Section Added.

Variable w : World.

Lemma checkMatch_keeps fuel rpath fpath md0 acc url t acc' t' :
  loopKeeps md0 acc ->
  checkMatch w fuel rpath fpath acc url t = Ret (acc', t') ->
  loopKeeps md0 acc'.
Proof.
  destruct acc as [md links], acc' as [md' links']. intros [K1 K2] H.
  cbn [fst snd] in *. unfold checkMatch in H.
  apply bind_Ret in H as ([state ok] & t1 & C & H).
  apply (checkMdLink_tag w) in C.
  destruct ok; cbn [negb] in H.
  - apply ret_Ret in H as [H _]. inversion H; subst. split; assumption.
  - apply bind_Ret in H as (b & t2 & _ & H). apply ret_Ret in H as [H _].
    inversion H; subst md' links'. clear H. split; cbn [fst snd].
    + right. split; [|now destruct links].
      destruct K1 as [[-> _]|[-> _]]; reflexivity.
    + apply Forall_app. split; [exact K2|]. constructor; [|constructor].
      split; [reflexivity | exact C].
Qed.

(** What [findAndCheckMdFile] returns: the report as it was or with
    another state, or the report with [AllLinksOK] false and one file
    appended. *)
Lemma findAndCheckMdFile_Ret fuel md f t md' t' :
  findAndCheckMdFile w fuel md f t = Ret (md', t') ->
  (exists s, md' = setState md s)
  \/ md' = md
  \/ (exists links,
         links <> [] /\ Forall failedLink links
         /\ md' = setMdFileList (setAllLinksOK md (Some false))
                    (Some (filesOf md ++ [mkMdFile (fileFullPath f) links])%list)).
Proof.
  intros H. unfold findAndCheckMdFile in H.
  destruct (negb (IsDir f)); [|apply ret_Ret in H as [<- _]; auto].
  destruct (String.eqb _ "md"); [|apply ret_Ret in H as [<- _]; auto].
  destruct (openErr f).
  { apply bind_Ret in H as (old & t1 & _ & H). apply ret_Ret in H as [<- _]. eauto. }
  destruct (readErr f).
  { apply bind_Ret in H as (old & t1 & _ & H). apply ret_Ret in H as [<- _]. eauto. }
  apply bind_Ret in H as ([md1 links] & t1 & H1 & H).
  apply (foldM_inv (loopKeeps md)) in H1.
  2:{ intros a b t0 a' t0'. apply checkMatch_keeps. }
  2:{ split; [left; split; reflexivity | constructor]. }
  destruct H1 as [K1 K2]. cbn [fst snd] in *.
  destruct K1 as [[-> ->]|[-> N]].
  - cbn in H. apply ret_Ret in H as [<- _]. auto.
  - replace (Nat.ltb 0 (List.length links)) with true in H
      by (destruct links; [congruence | reflexivity]).
    right. right. exists links. split; [exact N|]. split; [exact K2|].
    cbn [MdFileList setAllLinksOK] in H. unfold filesOf.
    destruct (MdFileList md); apply ret_Ret in H as [<- _]; reflexivity.
Qed.

Lemma findAndCheckMdFile_extends fuel md f t md' t' :
  findAndCheckMdFile w fuel md f t = Ret (md', t') -> extends md md'.
Proof.
  intros H. apply findAndCheckMdFile_Ret in H as [[s ->]|[->|(links & N & F & ->)]].
  - apply extends_setState.
  - apply extends_refl.
  - unfold extends. cbn. repeat (split; [reflexivity|]). split; [|now right].
    exists [mkMdFile (fileFullPath f) links]. split; [reflexivity|].
    split; [|reflexivity]. constructor; [|constructor]. split; assumption.
Qed.

Lemma findAndCheckMdFile_tidy fuel md f t md' t' :
  tidy md -> findAndCheckMdFile w fuel md f t = Ret (md', t') -> tidy md'.
Proof.
  intros T H. apply findAndCheckMdFile_Ret in H as [[s ->]|[->|(links & N & F & ->)]].
  - exact T.
  - exact T.
  - right. cbn. split; [reflexivity|]. eexists. split; [reflexivity|].
    now destruct (filesOf md).
Qed.

Lemma storeState_Ret md s t md' t' :
  storeState md s t = Ret (md', t') -> md' = setState md (Some s) /\ t' = t.
Proof.
  unfold storeState. intros H. apply bind_Ret in H as (old & t1 & D & H).
  apply deref_Ret in D as [_ <-]. apply ret_Ret in H as [<- <-]. auto.
Qed.

(** A property that [findAndCheckMdFile] and a change of state keep is
    kept by [checkMdFiles]. *)
Lemma checkMdFiles_keeps (P : MdReport -> Prop) fuel :
  (forall md f t md' t',
      P md -> findAndCheckMdFile w fuel md f t = Ret (md', t') -> P md') ->
  (forall md s, P md -> P (setState md s)) ->
  forall md t md' t', P md -> checkMdFiles w fuel md t = Ret (md', t') -> P md'.
Proof.
  intros Hf Hs md t md' t' I H. unfold checkMdFiles in H.
  apply bind_Ret in H as (u1 & t1 & _ & H).
  apply bind_Ret in H as (u2 & t2 & _ & H).
  destruct (openReader w _) as [files|e].
  - apply bind_Ret in H as (md1 & t3 & H1 & H).
    apply (foldM_inv P) in H1; [|exact Hf | exact I].
    apply bind_Ret in H as (u3 & t4 & _ & H).
    destruct (removeAll w _).
    + apply storeState_Ret in H as [-> _]. now apply Hs.
    + apply ret_Ret in H as [<- _]. exact H1.
  - apply storeState_Ret in H as [-> _]. now apply Hs.
Qed.

Lemma checkMdFiles_extends fuel md t md' t' :
  checkMdFiles w fuel md t = Ret (md', t') -> extends md md'.
Proof.
  apply (checkMdFiles_keeps (extends md) fuel).
  - intros m f t0 m' t0' E H. eapply extends_trans; [exact E|].
    eapply findAndCheckMdFile_extends; eauto.
  - intros m s E. eapply extends_trans; [exact E | apply extends_setState].
  - apply extends_refl.
Qed.

Lemma checkMdFiles_tidy fuel md t md' t' :
  tidy md -> checkMdFiles w fuel md t = Ret (md', t') -> tidy md'.
Proof.
  apply (checkMdFiles_keeps tidy fuel).
  - intros m f t0 m' t0'. apply findAndCheckMdFile_tidy.
  - intros m s T. exact T.
Qed.

(** X9.  [checkMdFiles] leaves the repository of the report alone and only
    appends file reports, each with at least one link and only failed
    links; it sets [AllLinksOK] to false when it appends one and never
    sets it back to true. *)
Theorem checkMdFiles_only_appends fuel md t md' t' :
  checkMdFiles w fuel md t = Ret (md', t') ->
  Repo md' = Repo md
  /\ (exists added, filesOf md' = (filesOf md ++ added)%list
                    /\ Forall recorded added
                    /\ (added <> [] -> AllLinksOK md' = Some false))
  /\ (AllLinksOK md = Some false -> AllLinksOK md' = Some false).
Proof.
  intros H. apply checkMdFiles_extends in H as (R & _ & _ & _ & A & O).
  split; [exact R|]. split; [exact A|].
  intros F. destruct O as [O|O]; congruence.
Qed.


(** X10.  A report that [CheckGitMdLinks] sends is about the repository
    it was started for, and is of one of two kinds: no file list, all
    links ok and the no-links message as its state; or no state,
    [AllLinksOK] false and a file list that is not empty, each file with
    at least one link and only failed links. *)
Theorem CheckGitMdLinks_report_is_well_formed fuel r wg t md t' :
  CheckGitMdLinks w fuel r wg t = Ret (md, t') ->
  Repo md = Repo (initReport w r)
  /\ Forall recorded (filesOf md)
  /\ ((State md = Some noLinksMsg /\ MdFileList md = None /\ AllLinksOK md = Some true)
      \/ (State md = None /\ filesOf md <> [] /\ AllLinksOK md = Some false)).
Proof.
  unfold CheckGitMdLinks. intros H.
  apply bind_Ret in H as ([md1 e] & t1 & H1 & H).
  apply downloadGitArchive_Ret in H1 as [-> ->]; [|reflexivity].
  apply bind_Ret in H as (wg' & t2 & _ & H).
  apply bind_Ret in H as (md2 & t3 & H2 & H).
  apply bind_Ret in H2 as (u & t4 & _ & H2).
  assert (S : State md2 = None).
  { eapply (checkMdFiles_inv w); [|exact H2]. split; [reflexivity | now left]. }
  assert (T : tidy md2).
  { eapply checkMdFiles_tidy; [|exact H2]. left. split; reflexivity. }
  apply checkMdFiles_extends in H2 as (R & _ & _ & _ & (added & A1 & A2 & _) & _).
  cbn [filesOf initReport MdFileList app] in A1.
  unfold finalState in H. destruct T as [[A M]|(A & files & M & N)]; rewrite M in H.
  - apply ret_Ret in H as [<- _]. cbn.
    split; [exact R|]. split; [unfold filesOf; cbn; rewrite M; constructor|].
    left. auto.
  - rewrite A in H. cbv [bind deref ret] in H. inversion H; subst md. clear H.
    split; [exact R|]. rewrite A1. split; [exact A2|]. right.
    rewrite <- A1. unfold filesOf. rewrite M. auto.
Qed.

End Added.

Lemma checkMdFiles_only_appends_witness :
  Repo deadReport = Repo (initReport deadLink sample)
  /\ (exists added,
         filesOf deadReport = (filesOf (initReport deadLink sample) ++ added)%list
         /\ Forall recorded added
         /\ (added <> [] -> AllLinksOK deadReport = Some false))
  /\ (AllLinksOK (initReport deadLink sample) = Some false ->
      AllLinksOK deadReport = Some false).
Proof.
  eapply (checkMdFiles_only_appends deadLink 0 (initReport deadLink sample) []
            deadReport).
  vm_compute. reflexivity.
Defined.

Lemma CheckGitMdLinks_report_is_well_formed_witness :
  Repo deadReport = Repo (initReport deadLink sample)
  /\ Forall recorded (filesOf deadReport)
  /\ ((State deadReport = Some noLinksMsg /\ MdFileList deadReport = None
       /\ AllLinksOK deadReport = Some true)
      \/ (State deadReport = None /\ filesOf deadReport <> []
          /\ AllLinksOK deadReport = Some false)).
Proof.
  eapply (CheckGitMdLinks_report_is_well_formed deadLink 0 sample 1%Z [] deadReport).
  vm_compute. reflexivity.
Defined.

(** ** Events are only appended *)

Lemma appends_ret {A} (a : A) : appends (ret a).
Proof. intros t b t' H. apply ret_Ret in H as [_ <-]. exists []. now rewrite app_nil_r. Qed.

Lemma appends_bind {A B} (m : M A) (f : A -> M B) :
  appends m -> (forall a, appends (f a)) -> appends (bind m f).
Proof.
  intros Hm Hf t b t' H. apply bind_Ret in H as (a & t1 & H1 & H2).
  apply Hm in H1 as (x & ->). apply Hf in H2 as (y & ->).
  exists (x ++ y)%list. now rewrite app_assoc.
Qed.

Lemma appends_emit e : appends (emit e).
Proof. intros t u t' H. apply emit_Ret in H. now exists [e]. Qed.

Lemma appends_deref {A} (p : option A) : appends (deref p).
Proof. intros t a t' H. apply deref_Ret in H as [_ <-]. exists []. now rewrite app_nil_r. Qed.

Lemma appends_panic {A} why : appends (@panic A why).
Proof. intros t a t' H. discriminate H. Qed.

Lemma appends_blocked {A} : appends (@blocked A).
Proof. intros t a t' H. discriminate H. Qed.

Lemma appends_outOfFuel {A} : appends (@outOfFuel A).
Proof. intros t a t' H. discriminate H. Qed.

Lemma appends_Get w url : appends (Get w url).
Proof. intros t r t' H. apply Get_Ret in H. now exists [EvGet url]. Qed.

Lemma appends_foldM {A B} (f : A -> B -> M A) l :
  (forall a b, appends (f a b)) -> forall a, appends (foldM f l a).
Proof.
  intros Hf. induction l as [|b l IH]; intros a; cbn [foldM].
  - apply appends_ret.
  - apply appends_bind; [apply Hf | exact IH].
Qed.

(** [appends_all]: take a computation apart along its binds and branches. *)
Ltac appends_all :=
  repeat first
    [ apply appends_ret | apply appends_emit | apply appends_deref
    | apply appends_panic | apply appends_blocked | apply appends_outOfFuel
    | apply appends_Get
    | apply appends_bind; [|intros ?]
    | match goal with
      | |- appends (let '(_, _) := ?x in _) => destruct x
      | |- appends (match ?x with _ => _ end) => destruct x
      | |- appends (if ?x then _ else _) => destruct x
      end ].

Section Appends.

Variable w : World.

Lemma appends_getUrlWithDelay fuel url : appends (getUrlWithDelay w fuel url).
Proof.
  induction fuel as [|fuel IH]; cbn [getUrlWithDelay]; [apply appends_outOfFuel|].
  unfold Sleep. appends_all. exact IH.
Qed.

Lemma appends_checkMdLink fuel md l rpath fpath :
  appends (checkMdLink w fuel md l rpath fpath).
Proof.
  unfold checkMdLink. destruct l; [apply appends_panic|].
  unfold resolveUrl, validate, LookupIP. appends_all.
  all: try apply appends_getUrlWithDelay.
Qed.

Lemma appends_findAndCheckMdFile fuel md f :
  appends (findAndCheckMdFile w fuel md f).
Proof.
  unfold findAndCheckMdFile. appends_all.
  - apply appends_foldM. intros [m links] url. unfold checkMatch.
    apply appends_bind; [apply appends_checkMdLink|]. intros [state ok]. appends_all.
Qed.

(** X11.  An entry that is a directory, or whose extension is not [md]
    in any letter case, is skipped: the report and the events stay as
    they are, whatever the entry holds. *)
Theorem other_entries_are_skipped fuel md f t :
  IsDir f = true \/ getFileExtension w (Base (HeaderName f)) <> "md" ->
  findAndCheckMdFile w fuel md f t = Ret (md, t).
Proof.
  intros H. unfold findAndCheckMdFile.
  destruct (IsDir f); [reflexivity|]. destruct H as [H|H]; [discriminate|].
  cbn [negb].
  rewrite ToLower_extension_md.
  apply String.eqb_neq in H. rewrite H. reflexivity.
Qed.

(** X12.  When [checkMdFiles] returns after opening the archive, the
    removal of the archive folder is the last thing it did; when the
    archive could not be opened it did nothing after the attempt (no
    removal) and the state holds the failure text. *)
Theorem checkMdFiles_cleans_up_last fuel md t md' t' :
  checkMdFiles w fuel md t = Ret (md', t') ->
  let path := Join (ZipPath md) (ZipName md) in
  match openReader w path with
  | inl _ =>
      exists mid,
        t' = (t ++ [EvPrintln (ZipName md); EvOpenReader path] ++ mid
                ++ [EvRemoveAll (ZipPath md)])%list
  | inr e =>
      t' = (t ++ [EvPrintln (ZipName md); EvOpenReader path])%list
      /\ md' = setState md (Some ("[ERR] Couldn't open archive " ++ ZipName md ++ "."
                                     ++ newlineTab ++ e))
  end.
Proof.
  intros H path. unfold checkMdFiles in H. fold path in H.
  apply bind_Ret in H as (u1 & t1 & E1 & H). apply emit_Ret in E1. subst t1.
  apply bind_Ret in H as (u2 & t2 & E2 & H). apply emit_Ret in E2. subst t2.
  destruct (openReader w path) as [files|e].
  - apply bind_Ret in H as (md1 & t3 & H1 & H).
    pose proof (appends_foldM _ files (appends_findAndCheckMdFile fuel) _ _ _ _ H1)
      as (mid & ->).
    apply (foldM_inv (extends md)) in H1.
    2:{ intros a b t0 a' t0' E F. eapply extends_trans; [exact E|].
        eapply findAndCheckMdFile_extends; eauto. }
    2:{ apply extends_refl. }
    destruct H1 as (_ & _ & _ & P & _). rewrite P in H.
    apply bind_Ret in H as (u3 & t4 & E3 & H). apply emit_Ret in E3. subst t4.
    assert (T : t' = ((((t ++ [EvPrintln (ZipName md)]) ++ [EvOpenReader path]) ++ mid)
                        ++ [EvRemoveAll (ZipPath md)])%list).
    { destruct (removeAll w _).
      - now apply storeState_Ret in H as [_ ->].
      - now apply ret_Ret in H as [_ <-]. }
    exists mid. rewrite T, <- !app_assoc. reflexivity.
  - apply storeState_Ret in H as [-> ->]. rewrite <- app_assoc. auto.
Qed.

(** X13.  When [downloadGitArchive] returns without error the report is
    untouched and the body of the response was copied to the archive
    file; when it returns an error, one of four steps failed with that
    error (creating the folder, creating the file, the GET, the copy),
    nothing was done after it, and the state holds a text that begins
    with [[ERR] Couldn't ] and ends with the error. *)
Theorem downloadGitArchive_outcomes md t md' e t' :
  ZipUrl md <> "" ->
  downloadGitArchive w md t = Ret ((md', e), t') ->
  let fullpath := Join (ZipPath md) (ZipName md) in
  let answer := httpGet w (gets t) (ZipUrl md) in
  match e with
  | None =>
      md' = md
      /\ exists resp,
           res answer = Some resp
           /\ t' = (t ++ [EvMkdirAll (ZipPath md); EvCreate fullpath;
                          EvGet (ZipUrl md); EvCopy fullpath (Body resp)])%list
  | Some msg =>
      (exists text,
          md' = setState md (Some ("[ERR] Couldn't " ++ text ++ newlineTab ++ msg)))
      /\ ((mkdirAll w (ZipPath md) = Some msg
           /\ t' = (t ++ [EvMkdirAll (ZipPath md)])%list)
          \/ (create w fullpath = Some msg
              /\ t' = (t ++ [EvMkdirAll (ZipPath md); EvCreate fullpath])%list)
          \/ (err answer = Some msg
              /\ t' = (t ++ [EvMkdirAll (ZipPath md); EvCreate fullpath;
                             EvGet (ZipUrl md)])%list)
          \/ (exists resp,
                 res answer = Some resp
                 /\ copy w fullpath (Body resp) = Some msg
                 /\ t' = (t ++ [EvMkdirAll (ZipPath md); EvCreate fullpath;
                                EvGet (ZipUrl md); EvCopy fullpath (Body resp)])%list))
  end.
Proof.
  intros U H fullpath answer. unfold downloadGitArchive in H. fold fullpath in H.
  apply bind_Ret in H as (u1 & t1 & E1 & H). apply emit_Ret in E1. subst t1.
  destruct (mkdirAll w (ZipPath md)) as [e1|] eqn:Hm.
  { apply bind_Ret in H as (m & t2 & S & H). apply storeState_Ret in S as [-> ->].
    apply ret_Ret in H as [H <-]. inversion H; subst md' e. clear H. split.
    - exists ("create " ++ ZipPath md ++ " path."). cbn [append].
      rewrite !append_assoc. reflexivity.
    - left. auto. }
  apply bind_Ret in H as (u2 & t2 & E2 & H). apply emit_Ret in E2. subst t2.
  destruct (create w fullpath) as [e2|] eqn:Hc.
  { apply bind_Ret in H as (m & t3 & S & H). apply storeState_Ret in S as [-> ->].
    apply ret_Ret in H as [H <-]. inversion H; subst md' e. clear H. split.
    - exists ("create " ++ fullpath ++ " file."). cbn [append].
      rewrite !append_assoc. reflexivity.
    - right. left. rewrite <- app_assoc. auto. }
  apply bind_Ret in H as (r & t3 & G & H).
  rewrite Get_nonempty in G by exact U.
  rewrite <- (app_assoc t [EvMkdirAll _] [EvCreate _]), gets_mkdir_create in G.
  inversion G; subst r t3. clear G. fold answer in H.
  destruct (err answer) as [e3|] eqn:He.
  { apply bind_Ret in H as (m & t4 & S & H). apply storeState_Ret in S as [-> ->].
    apply ret_Ret in H as [H <-]. inversion H; subst md' e. clear H. split.
    - exists ("download " ++ ZipUrl md ++ " file."). cbn [append].
      rewrite !append_assoc. reflexivity.
    - right. right. left. rewrite <- !app_assoc. auto. }
  apply bind_Ret in H as (resp & t4 & D & H). apply deref_Ret in D as [D <-].
  apply bind_Ret in H as (u3 & t5 & E3 & H). apply emit_Ret in E3. subst t5.
  destruct (copy w fullpath (Body resp)) as [e4|] eqn:Hw.
  { apply bind_Ret in H as (m & t6 & S & H). apply storeState_Ret in S as [-> ->].
    apply ret_Ret in H as [H <-]. inversion H; subst md' e. clear H. split.
    - exists "store downloaded file.". reflexivity.
    - right. right. right. exists resp. rewrite <- !app_assoc. auto. }
  apply ret_Ret in H as [H <-]. inversion H; subst md' e. clear H.
  split; [reflexivity|]. exists resp. rewrite <- !app_assoc. auto.
Qed.

End Appends.

(** ** The report writer *)


Lemma repoStruct_heading (asMd : bool) md :
  (if asMd then repoMdStruct else repoCliStruct) md = heading (Repo md).
Proof. now destruct asMd. Qed.


Lemma writeLinks_failedOnly linkStruct links :
  writeLinks linkStruct (filter (fun l => negb (Succeed l)) links)
  = writeLinks linkStruct links.
Proof.
  induction links as [|l links IH]; [reflexivity|].
  cbn [filter writeLinks]. destruct (negb (Succeed l)) eqn:E.
  - cbn [writeLinks]. now rewrite E, IH.
  - exact IH.
Qed.

Lemma writeFiles_failedOnly md md' linkStruct files :
  Repo md' = Repo md -> AllLinksOK md' = AllLinksOK md ->
  writeFiles md' linkStruct (map failedOnly files) = writeFiles md linkStruct files.
Proof.
  intros R A. induction files as [|f files IH]; [reflexivity|].
  cbn [map writeFiles]. rewrite A, IH. unfold fileHeadStruct, fileStruct. rewrite R.
  cbn [failedOnly Path LinkList]. now rewrite writeLinks_failedOnly.
Qed.

(** X15.  What [generateReport] writes does not depend on the links that
    succeeded: dropping them from every file of the report leaves the
    output as it is. *)
Theorem generateReport_prints_failed_links_only w md files out :
  generateReport w (setMdFileList md (Some (map failedOnly files))) out
  = generateReport w (setMdFileList md (Some files)) out.
Proof.
  unfold generateReport.
  destruct (match out with Some f => Stat f | None => None end); [|reflexivity].
  rewrite !repoStruct_heading.
  cbn [State setMdFileList MdFileList Repo].
  destruct (State md); [reflexivity|].
  rewrite length_map.
  rewrite (writeFiles_failedOnly (setMdFileList md (Some files))); reflexivity.
Qed.

(** ** The repository listing *)

Section ListingFacts.

Variable w : World.
Variable decodeList : string -> list (option Listed) + string.
Variable decodeOne : string -> option Listed + string.

Lemma isActive_complete p t :
  complete p -> isActive p t = Ret (activeRepo p, t).
Proof.
  intros (r & f & d & a & s & -> & F & D & A & S).
  unfold isActive, activeRepo. cbv [bind deref ret]. rewrite F, D, A, S.
  destruct f, d, a; reflexivity.
Qed.

Lemma foldM_keepActive all :
  Forall complete all ->
  forall out t,
    foldM keepActive all out t = Ret ((out ++ filter activeRepo all)%list, t).
Proof.
  induction 1 as [|p all C F IH]; intros out t; cbn [foldM filter].
  - now rewrite app_nil_r.
  - unfold bind at 1. unfold keepActive at 1. unfold bind at 1.
    rewrite isActive_complete by exact C.
    destruct (activeRepo p).
    + cbv [ret]. rewrite IH, <- app_assoc. reflexivity.
    + cbv [ret]. now rewrite IH.
Qed.

Lemma isActive_missing p t :
  p = None \/ (exists r, p = Some r /\ Fork r = None) ->
  isActive p t = Panic nilDeref.
Proof.
  intros [->|(r & -> & F)]; unfold isActive; cbv [bind deref ret panic]; [reflexivity|].
  now rewrite F.
Qed.

Lemma foldM_app {A B} (f : A -> B -> M A) l1 l2 a t :
  foldM f (l1 ++ l2) a t = bind (foldM f l1 a) (foldM f l2) t.
Proof.
  revert a t. induction l1 as [|b l1 IH]; intros a t; cbn [app foldM].
  - reflexivity.
  - unfold bind. destruct (f a b t) as [[a' t']| | |]; [|reflexivity..].
    rewrite IH. reflexivity.
Qed.

(** X16.  For an account, when the request and the decoding succeed and
    every repository has its four flags, [GetPublicRepos] returns the
    repositories that are no fork, not disabled, not archived and not
    empty, in the order of the listing, after one GET; a nil repository
    or one without its fork flag, met after repositories that have their
    flags, ends the run in a nil dereference. *)
Theorem GetPublicRepos_lists_the_active_repositories account t resp allRepos :
  httpGet w (gets t) (listUrl account) = mkGetResult (Some resp) None ->
  decodeList (Body resp) = inl allRepos ->
  (Forall complete allRepos ->
   GetPublicRepos w decodeList decodeOne account "" t
   = Ret (inl (filter activeRepo allRepos), (t ++ [EvGet (listUrl account)])%list))
  /\ (forall before p after,
         allRepos = (before ++ p :: after)%list ->
         Forall complete before ->
         p = None \/ (exists r, p = Some r /\ Fork r = None) ->
         GetPublicRepos w decodeList decodeOne account "" t = Panic nilDeref).
Proof.
  intros G D.
  assert (U : listUrl account <> "") by discriminate.
  assert (E : GetPublicRepos w decodeList decodeOne account "" t
              = bind (foldM keepActive allRepos [])
                     (fun outRepos => ret (inl outRepos))
                     (t ++ [EvGet (listUrl account)])%list).
  { unfold GetPublicRepos. cbn [String.eqb]. unfold bind at 1.
    rewrite Get_nonempty by exact U. rewrite G. cbn [err res].
    unfold bind at 1. cbv [deref ret]. now rewrite D. }
  split.
  - intros F. rewrite E. unfold bind. now rewrite foldM_keepActive.
  - intros before p after -> F P. rewrite E. unfold bind at 1.
    rewrite foldM_app. unfold bind at 1. rewrite foldM_keepActive by exact F.
    cbn [foldM]. unfold bind at 1. unfold keepActive. unfold bind at 1.
    now rewrite isActive_missing.
Qed.

(** A named repository is returned as it is decoded, whatever its flags,
    when the status is 200, and not at all otherwise. *)
Lemma GetPublicRepos_named_repository account repo t resp one :
  repo <> "" ->
  httpGet w (gets t) (repoApiUrl account repo) = mkGetResult (Some resp) None ->
  decodeOne (Body resp) = inl one ->
  GetPublicRepos w decodeList decodeOne account repo t
  = Ret (inl (if Z.eqb (StatusCode resp) 200 then [one] else []),
         (t ++ [EvGet (repoApiUrl account repo)])%list).
Proof.
  intros N G D.
  assert (U : repoApiUrl account repo <> "") by discriminate.
  unfold GetPublicRepos. apply String.eqb_neq in N. rewrite N. unfold bind at 1.
  rewrite Get_nonempty by exact U. rewrite G. cbn [err res].
  unfold bind at 1. cbv [deref ret]. rewrite D.
  destruct (Z.eqb (StatusCode resp) 200); reflexivity.
Qed.

End ListingFacts.

(** ** The counters of the workers *)

Lemma reach_pending n s :
  Fleet.reach (Fleet.start n) s ->
  Fleet.pending s + List.length (Fleet.workers s) = n.
Proof.
  intros H. remember (Fleet.start n) as s0 eqn:E.
  induction H as [s|s1 s2 s3 H IH S]; [subst; cbn; lia|].
  specialize (IH E). destruct S as [m k ws A|m k ws1 a b ws2 A W]; cbn in *.
  - rewrite length_app. cbn. lia.
  - rewrite length_app in *. cbn in *. lia.
Qed.

(** X17.  While [RunCLI] starts its workers, the repositories still to
    start and the workers started add up to the repositories given, the
    counter of [RunCLI] is the number of workers started, and the counter
    of a worker about to call [wg.Done()] is its index plus one, so that
    call never makes a counter negative. *)
Theorem wait_group_counters n s :
  Fleet.reach (Fleet.start n) s ->
  Fleet.pending s + List.length (Fleet.workers s) = n
  /\ Fleet.mainWg s = Z.of_nat (List.length (Fleet.workers s))
  /\ forall i x,
       nth_error (Fleet.workers s) i = Some x ->
       Fleet.place_of x = Fleet.Arrived ->
       Fleet.wg_of x = (Z.of_nat i + 1)%Z.
Proof.
  intros H. split; [now apply reach_pending|].
  apply FleetFacts.reach_inv in H as [M W]. split; [exact M|].
  intros i x E P. specialize (W i x E). unfold Fleet.workerInv in W.
  now rewrite P in W.
Qed.

(** ** The path of an entry *)

Lemma revStr_acc s acc : revStr s acc = revStr s "" ++ acc.
Proof.
  revert acc. induction s as [|c s IH]; intros acc; cbn [revStr]; [reflexivity|].
  rewrite IH, (IH (String c "")), append_assoc. reflexivity.
Qed.

Lemma revStr_append a b : revStr (a ++ b) "" = revStr b "" ++ revStr a "".
Proof.
  induction a as [|c a IH]; cbn [append revStr].
  - now rewrite append_nil_r.
  - rewrite revStr_acc, IH, (revStr_acc a (String c "")), append_assoc. reflexivity.
Qed.

Lemma revStr_involutive s : revStr (revStr s "") "" = s.
Proof.
  induction s as [|c s IH]; [reflexivity|].
  cbn [revStr]. rewrite (revStr_acc s), revStr_append, IH. reflexivity.
Qed.

Lemma occurs_revStr c s : occurs c (revStr s "") <-> occurs c s.
Proof.
  induction s as [|d s IH]; [reflexivity|].
  cbn [revStr]. rewrite revStr_acc, occurs_append. simpl. tauto.
Qed.

Lemma untilSlash_append a b : ~ occurs "/" a -> untilSlash (a ++ String "/" b) = a.
Proof.
  induction a as [|c a IH]; intros N; cbn [append untilSlash].
  - reflexivity.
  - destruct (Ascii.eqb c "/") eqn:E.
    + apply Ascii.eqb_eq in E. exfalso. apply N. simpl. auto.
    + rewrite IH; [reflexivity|]. intros o. apply N. simpl. auto.
Qed.

Lemma stripSlashes_no_slash s rest : ~ occurs "/" s -> s <> "" ->
  stripSlashes (s ++ rest) = s ++ rest.
Proof.
  intros N E. destruct s as [|c s]; [congruence|]. cbn [append stripSlashes].
  destruct c as [[] [] [] [] [] [] [] []]; try reflexivity.
  exfalso. apply N. simpl. auto.
Qed.

(** [path.Base] of a path that ends in a name. *)
Lemma Base_name pre name :
  ~ occurs "/" name -> name <> "" -> Base (pre ++ String "/" name) = name.
Proof.
  intros N E. unfold Base.
  destruct (pre ++ String "/" name) eqn:P.
  { destruct pre; discriminate. }
  rewrite <- P. clear P.
  rewrite revStr_append. cbn [revStr]. rewrite (revStr_acc name (String "/" "")).
  rewrite !append_assoc. cbn [append].
  assert (N' : ~ occurs "/" (revStr name "")) by now rewrite occurs_revStr.
  assert (E' : revStr name "" <> "").
  { intros H. apply E. rewrite <- (revStr_involutive name), H. reflexivity. }
  rewrite stripSlashes_no_slash, untilSlash_append by assumption.
  rewrite revStr_involutive. destruct name; [congruence | reflexivity].
Qed.

Lemma Index_slash top rest :
  ~ occurs "/" top -> Index (top ++ String "/" rest) "/" = Some (len top).
Proof.
  induction top as [|c top IH]; intros N.
  - cbn [append Index]. now rewrite prefix_slash.
  - cbn [append Index]. rewrite prefix_slash.
    destruct (Ascii.eqb c "/") eqn:E.
    + apply Ascii.eqb_eq in E. exfalso. apply N. simpl. auto.
    + rewrite IH; [reflexivity|]. intros o. apply N. simpl. auto.
Qed.

Lemma Cut_top top rest :
  ~ occurs "/" top -> Cut (top ++ String "/" rest) "/" = (top, rest, true).
Proof.
  intros N. unfold Cut. rewrite Index_slash by exact N.
  rewrite take_append.
  replace (len top + len "/") with (len (top ++ "/")) by apply len_append.
  replace (top ++ String "/" rest) with ((top ++ "/") ++ rest)
    by (rewrite append_assoc; reflexivity).
  now rewrite drop_append.
Qed.

Lemma prefix_refl s : String.prefix s s = true.
Proof. rewrite <- (append_nil_r s) at 2. apply prefix_append. Qed.

Lemma Index_self s : Index s s = Some 0.
Proof. destruct s; cbn [Index]; [reflexivity|]. now rewrite prefix_refl. Qed.

(** X18.  For an entry right below the top folder of the archive the
    path in the repository is its name and the directory is [/]; for an
    entry in a folder [dir] below it, whose name first occurs in its
    path at the end, the directory is [/dir//]. *)
Theorem directory_of_an_entry top name dir d oe re c :
  ~ occurs "/" top -> ~ occurs "/" name -> name <> "" ->
  (let f := mkZipFile (top ++ "/" ++ name) d oe re c in
   fileFullPath f = name /\ fileRelativePath f = "/")
  /\ (Index (dir ++ "/" ++ name) name = Some (len dir + 1) ->
      let f := mkZipFile (top ++ "/" ++ dir ++ "/" ++ name) d oe re c in
      fileFullPath f = dir ++ "/" ++ name
      /\ fileRelativePath f = "/" ++ dir ++ "//").
Proof.
  intros T N E. split.
  - intros f. unfold fileRelativePath, fileFullPath. cbn [f HeaderName append].
    rewrite Cut_top by exact T. split; [reflexivity|].
    rewrite (Base_name top name N E).
    unfold Cut. rewrite Index_self. cbn [take]. reflexivity.
  - intros I f. unfold fileRelativePath, fileFullPath. cbn [f HeaderName].
    cbn [append]. rewrite Cut_top by exact T. split; [reflexivity|].
    replace (top ++ String "/" (dir ++ String "/" name))
      with ((top ++ "/" ++ dir) ++ String "/" name)
      by (rewrite !append_assoc; reflexivity).
    rewrite (Base_name _ name N E).
    unfold Cut. cbn [append] in I. rewrite I.
    replace (len dir + 1) with (len (dir ++ "/")) by (rewrite len_append; reflexivity).
    replace (dir ++ String "/" name) with ((dir ++ "/") ++ name)
      by (rewrite append_assoc; reflexivity).
    rewrite take_append.
    replace (String.eqb (dir ++ "/") "") with false
      by (destruct dir; reflexivity).
    cbn [negb append]. f_equal. rewrite append_assoc. reflexivity.
Qed.

Lemma directory_of_an_entry_witness :
  fileFullPath (mkZipFile ("repo-main" ++ "/" ++ "docs/api" ++ "/" ++ "index.md")
                          false None None "")
  = "docs/api" ++ "/" ++ "index.md"
  /\ fileRelativePath (mkZipFile ("repo-main" ++ "/" ++ "docs/api" ++ "/" ++ "index.md")
                                 false None None "")
     = "/" ++ "docs/api" ++ "//".
Proof.
  refine (proj2 (directory_of_an_entry "repo-main" "index.md" "docs/api"
                   false None None "" _ _ _) _).
  - simpl. intros H. repeat (destruct H as [H|H]; [discriminate H|]). exact H.
  - simpl. intros H. repeat (destruct H as [H|H]; [discriminate H|]). exact H.
  - discriminate.
  - reflexivity.
Defined.

(** ** The properties at work *)

Lemma other_entries_are_skipped_witness :
  findAndCheckMdFile healthy 0 (initReport healthy sample)
    (mkZipFile "r-main/img/logo.md.png" false None None "[x](y)") []
  = Ret (initReport healthy sample, []).
Proof.
  apply (other_entries_are_skipped healthy 0 (initReport healthy sample)
           (mkZipFile "r-main/img/logo.md.png" false None None "[x](y)") []).
  right. intros H. vm_compute in H. discriminate H.
Defined.

Lemma checkMdFiles_cleans_up_last_witness :
  exists mid,
    [EvPrintln "r.zip"; EvOpenReader "/w/.archives/r/r.zip";
     EvGet "http://dead.example/x"; EvRemoveAll "/w/.archives/r"]
    = ([] ++ [EvPrintln "r.zip"; EvOpenReader "/w/.archives/r/r.zip"] ++ mid
          ++ [EvRemoveAll "/w/.archives/r"])%list.
Proof.
  apply (checkMdFiles_cleans_up_last deadLink 0 (initReport deadLink sample) []
           deadReport
           [EvPrintln "r.zip"; EvOpenReader "/w/.archives/r/r.zip";
            EvGet "http://dead.example/x"; EvRemoveAll "/w/.archives/r"]).
  vm_compute. reflexivity.
Defined.

Lemma downloadGitArchive_outcomes_witness :
  initReport notFound sample = initReport notFound sample
  /\ exists resp,
       res (httpGet notFound (gets []) (ZipUrl (initReport notFound sample))) = Some resp
       /\ [EvMkdirAll "/w/.archives/r"; EvCreate "/w/.archives/r/r.zip";
           EvGet "https://github.com/u/r/archive/refs/heads/main.zip";
           EvCopy "/w/.archives/r/r.zip" "Not Found"]
          = ([] ++ [EvMkdirAll (ZipPath (initReport notFound sample));
                    EvCreate (Join (ZipPath (initReport notFound sample))
                                   (ZipName (initReport notFound sample)));
                    EvGet (ZipUrl (initReport notFound sample));
                    EvCopy (Join (ZipPath (initReport notFound sample))
                                 (ZipName (initReport notFound sample)))
                           (Body resp)])%list.
Proof.
  apply (downloadGitArchive_outcomes notFound (initReport notFound sample) []
           (initReport notFound sample) None
           [EvMkdirAll "/w/.archives/r"; EvCreate "/w/.archives/r/r.zip";
            EvGet "https://github.com/u/r/archive/refs/heads/main.zip";
            EvCopy "/w/.archives/r/r.zip" "Not Found"]).
  - discriminate.
  - vm_compute. reflexivity.
Defined.


Lemma GetPublicRepos_lists_the_active_repositories_witness :
  GetPublicRepos healthy (fun _ => inl twoListed) (fun _ => inl None) "u" "" []
  = Ret (inl [Some (mkListed sample (Some false) (Some false) (Some false) (Some 120%Z))],
         [EvGet (listUrl "u")]).
Proof.
  refine (proj1 (GetPublicRepos_lists_the_active_repositories healthy
                   (fun _ => inl twoListed) (fun _ => inl None) "u" []
                   (mkResponse 200 "PK") twoListed _ _) _).
  - reflexivity.
  - reflexivity.
  - repeat (constructor; [do 5 eexists; repeat split; reflexivity|]). constructor.
Defined.

Lemma wait_group_counters_witness :
  Fleet.pending (Fleet.mkFleet 1%Z 1 [Fleet.mkWorker Fleet.Arrived 1%Z])
  + List.length (Fleet.workers (Fleet.mkFleet 1%Z 1 [Fleet.mkWorker Fleet.Arrived 1%Z])) = 2
  /\ Fleet.mainWg (Fleet.mkFleet 1%Z 1 [Fleet.mkWorker Fleet.Arrived 1%Z])
     = Z.of_nat (List.length
                   (Fleet.workers (Fleet.mkFleet 1%Z 1 [Fleet.mkWorker Fleet.Arrived 1%Z])))
  /\ forall i x,
       nth_error (Fleet.workers (Fleet.mkFleet 1%Z 1 [Fleet.mkWorker Fleet.Arrived 1%Z])) i
       = Some x ->
       Fleet.place_of x = Fleet.Arrived ->
       Fleet.wg_of x = (Z.of_nat i + 1)%Z.
Proof.
  apply (wait_group_counters 2 (Fleet.mkFleet 1%Z 1 [Fleet.mkWorker Fleet.Arrived 1%Z])).
  eapply Fleet.reach_step.
  2:{ apply (Fleet.Work 1%Z 1 [] (Fleet.mkWorker Fleet.Downloading 1%Z) _ []);
      [reflexivity | apply Fleet.DownloadOk]. }
  eapply Fleet.reach_step; [apply Fleet.reach_refl|].
  apply (Fleet.Spawn 0%Z 1 []). reflexivity.
Defined.
